(** * Duration: a value type for spans of time (blazeshomida/duration)

    A shallow embedding of [duration.ts].  A JavaScript [number] is an IEEE 754
    binary64 value; it is modelled by the Standard Library's executable
    specification of floating-point arithmetic ([SpecFloat], precision 53,
    maximal exponent 1024), so that every arithmetic step of the class rounds
    exactly as the engine does.  JavaScript strings are sequences of UTF-16
    code units. *)

From Stdlib Require Import NArith ZArith QArith List ListDec Bool Lia String.
From Stdlib Require Import Ascii Qpower Qabs.
From Stdlib Require Import SpecFloat.
Import ListNotations.

Local Open Scope Z_scope.

(** ** The host language: numbers *)

Module JS.

Definition prec : Z := 53.
Definition emax : Z := 1024.

Definition number : Type := spec_float.

Definition NaN : number := S754_nan.
Definition Infinity : number := S754_infinity false.
Definition pzero : number := S754_zero false.
Definition nzero : number := S754_zero true.

(** The number closest to an integer (round to nearest, ties to even). *)
Definition of_Z (n : Z) : number := binary_normalize prec emax n 0 false.

(** The number closest to the positive rational [num / den]. *)
Definition of_ratio (num den : positive) : number :=
  SFdiv prec emax (S754_finite false num 0) (S754_finite false den 0).

Definition add : number -> number -> number := SFadd prec emax.
Definition sub : number -> number -> number := SFsub prec emax.
Definition mul : number -> number -> number := SFmul prec emax.
Definition div : number -> number -> number := SFdiv prec emax.

(** [x === y], [x < y], [x > y], [x <= y], [x >= y] on numbers. *)
Definition strict_eq (x y : number) : bool := SFeqb x y.
Definition lt (x y : number) : bool := SFltb x y.
Definition gt (x y : number) : bool := SFltb y x.
Definition le (x y : number) : bool := SFleb x y.
Definition ge (x y : number) : bool := SFleb y x.

Definition is_nan (x : number) : bool :=
  match x with S754_nan => true | _ => false end.

Definition is_finite (x : number) : bool :=
  match x with S754_zero _ | S754_finite _ _ _ => true | _ => false end.

(** An integer keeps the sign of the argument when it is zero
    ([Math.floor(-0)] is [-0], [Math.round(-0.2)] is [-0]). *)
Definition of_Z_signed (s : bool) (n : Z) : number :=
  if n =? 0 then S754_zero s else of_Z n.

Module Math.

Definition abs (x : number) : number := SFabs x.

(** [Math.floor]: the greatest integral number not above [x]. *)
Definition floor (x : number) : number :=
  match x with
  | S754_finite s m e =>
      if 0 <=? e then x
      else of_Z_signed s (cond_Zopp s (Zpos m) / 2 ^ (- e))
  | _ => x
  end.

(** [Math.ceil]: the least integral number not below [x]. *)
Definition ceil (x : number) : number :=
  match x with
  | S754_finite s m e =>
      if 0 <=? e then x
      else of_Z_signed s (- (cond_Zopp (negb s) (Zpos m) / 2 ^ (- e)))
  | _ => x
  end.

(** [Math.round]: the integral number closest to [x]; of two equally close
    ones, the one closer to plus infinity. *)
Definition round (x : number) : number :=
  match x with
  | S754_finite s m e =>
      if 0 <=? e then x
      else of_Z_signed s
             ((2 * cond_Zopp s (Zpos m) + 2 ^ (- e)) / 2 ^ (- e + 1))
  | _ => x
  end.

End Math.

(** [Number.isInteger]. *)
Definition isInteger (x : number) : bool :=
  match x with
  | S754_zero _ => true
  | S754_finite _ m e =>
      if 0 <=? e then true else (Zpos m mod 2 ^ (- e) =? 0)
  | _ => false
  end.

(** [10 ** p] for an integer [p] from 0 to 22, where the power of ten is
    itself a number and every engine returns it.  Beyond 22 the result of
    [**] is left to the engine, which may miss the closest number by one
    unit in the last place (at [p = 23], for one); the properties below
    take [p] up to 22 only. *)
Definition pow10 (p : N) : number := of_Z (10 ^ Z.of_N p).

(** ** The host language: strings *)

Definition code_unit : Type := N.
Definition jsstring : Type := list code_unit.

(** The string of an ASCII literal. *)
Definition js (s : string) : jsstring := map N_of_ascii (list_ascii_of_string s).

Definition cu (c : ascii) : code_unit := N_of_ascii c.

Definition is_digit (c : code_unit) : bool := ((48 <=? c) && (c <=? 57))%N.

(** White space and line terminators: what [\s] matches and [trim] strips. *)
Definition is_space (c : code_unit) : bool :=
  (((9 <=? c) && (c <=? 13)) || (c =? 32) || (c =? 160) || (c =? 5760)
   || ((8192 <=? c) && (c <=? 8202)) || (c =? 8232) || (c =? 8233)
   || (c =? 8239) || (c =? 8287) || (c =? 12288) || (c =? 65279))%N.

Fixpoint trimStart (s : jsstring) : jsstring :=
  match s with
  | c :: s' => if is_space c then trimStart s' else s
  | [] => []
  end.

Definition trimEnd (s : jsstring) : jsstring := rev (trimStart (rev s)).

Definition trim (s : jsstring) : jsstring := trimEnd (trimStart s).

(** [toLowerCase] on the ASCII letters; other code units are kept (the class
    applies it to unit labels only, which the pattern restricts to ASCII). *)
Definition lower (c : code_unit) : code_unit :=
  if ((65 <=? c) && (c <=? 90))%N then (c + 32)%N else c.

Definition toLowerCase (s : jsstring) : jsstring := map lower s.

(** The case folding of an ignore-case pattern without the unicode flag: the
    upper-case form, except that a code unit outside ASCII never folds to an
    ASCII one. *)
Definition canonicalize (c : code_unit) : code_unit :=
  if ((97 <=? c) && (c <=? 122))%N then (c - 32)%N else c.

Fixpoint eqb_string (a b : jsstring) : bool :=
  match a, b with
  | [], [] => true
  | x :: a', y :: b' => (x =? y)%N && eqb_string a' b'
  | _, _ => false
  end.

Fixpoint span (p : code_unit -> bool) (s : jsstring) : jsstring * jsstring :=
  match s with
  | c :: s' =>
      if p c then let (a, b) := span p s' in (c :: a, b) else ([], s)
  | [] => ([], [])
  end.

Fixpoint starts_with (pre s : jsstring) : option jsstring :=
  match pre, s with
  | [], _ => Some s
  | a :: pre', b :: s' => if (a =? b)%N then starts_with pre' s' else None
  | _ :: _, [] => None
  end.

(** ** The host language: decimal literals

    [StrDecimalLiteral] of the language's numeric string grammar: an optional
    sign, then [Infinity] or decimal digits with an optional fraction and an
    optional exponent.  The value is the number closest to the mathematical
    value of the literal. *)

Definition digit_value (c : code_unit) : Z := Z.of_N c - 48.

Definition digits_value (ds : jsstring) : Z :=
  fold_left (fun acc c => 10 * acc + digit_value c) ds 0.

(** The number closest to [d * 10 ^ e], for [d >= 0]: the rounded quotient
    of the fraction [d / 10 ^ (- e)] in lowest terms when [e] is negative,
    so that the literals of one value are read alike. *)
Definition of_decimal (d e : Z) : number :=
  match d with
  | Zpos p =>
      if 0 <=? e then of_ratio (p * Z.to_pos (10 ^ e)) 1
      else
        let g := Z.gcd d (10 ^ (- e)) in
        of_ratio (Z.to_pos (d / g)) (Z.to_pos (10 ^ (- e) / g))
  | _ => pzero
  end.

(** The exponent part [e], [e+] or [e-] followed by digits, when present. *)
Definition exponent_part (s : jsstring) : Z * jsstring :=
  match s with
  | c :: s1 =>
      if ((c =? 101) || (c =? 69))%N then
        let '(neg, s2) :=
          match s1 with
          | x :: t => if (x =? 45)%N then (true, t)
                      else if (x =? 43)%N then (false, t) else (false, s1)
          | [] => (false, s1)
          end in
        let (ds, rest) := span is_digit s2 in
        match ds with
        | [] => (0, s)
        | _ => ((if neg then - digits_value ds else digits_value ds), rest)
        end
      else (0, s)
  | [] => (0, s)
  end.

Definition StrUnsignedDecimalLiteral (s : jsstring) : option (number * jsstring) :=
  match starts_with (js "Infinity") s with
  | Some rest => Some (Infinity, rest)
  | None =>
      let (ip, s1) := span is_digit s in
      let '(fp, s2) :=
        match s1 with
        | c :: t => if (c =? 46)%N then span is_digit t else ([], s1)
        | [] => ([], s1)
        end in
      match ip, fp with
      | [], [] => None
      | _, _ =>
          let (ex, rest) := exponent_part s2 in
          Some (of_decimal (digits_value (ip ++ fp)) (ex - Z.of_nat (List.length fp)),
                rest)
      end
  end.

Definition StrDecimalLiteral (s : jsstring) : option (number * jsstring) :=
  let '(neg, s1) :=
    match s with
    | c :: t => if (c =? 45)%N then (true, t)
                else if (c =? 43)%N then (false, t) else (false, s)
    | [] => (false, s)
    end in
  match StrUnsignedDecimalLiteral s1 with
  | Some (x, rest) => Some ((if neg then SFopp x else x), rest)
  | None => None
  end.

(** [Number.parseFloat]: the longest decimal literal that starts the string
    after leading white space, [NaN] when there is none. *)
Definition parseFloat (s : jsstring) : number :=
  match StrDecimalLiteral (trimStart s) with
  | Some (x, _) => x
  | None => NaN
  end.

(** [Number(s)] for a string: the whole trimmed string must be a decimal
    literal (the empty string is [0]); other numeric literal forms of the
    language (hexadecimal and the like) are not modelled and give [NaN]. *)
Definition Number_of_string (s : jsstring) : number :=
  match trim s with
  | [] => pzero
  | t => match StrDecimalLiteral t with
         | Some (x, []) => x
         | _ => NaN
         end
  end.

(** ** The host language: numbers to strings *)

Definition digit_char (d : Z) : code_unit := Z.to_N (48 + d).

Fixpoint uint_chars (u : Decimal.uint) : jsstring :=
  match u with
  | Decimal.Nil => []
  | Decimal.D0 u' => 48%N :: uint_chars u'
  | Decimal.D1 u' => 49%N :: uint_chars u'
  | Decimal.D2 u' => 50%N :: uint_chars u'
  | Decimal.D3 u' => 51%N :: uint_chars u'
  | Decimal.D4 u' => 52%N :: uint_chars u'
  | Decimal.D5 u' => 53%N :: uint_chars u'
  | Decimal.D6 u' => 54%N :: uint_chars u'
  | Decimal.D7 u' => 55%N :: uint_chars u'
  | Decimal.D8 u' => 56%N :: uint_chars u'
  | Decimal.D9 u' => 57%N :: uint_chars u'
  end.

(** The decimal digits of a non-negative integer. *)
Definition decimal_digits (n : Z) : jsstring := uint_chars (N.to_uint (Z.to_N n)).

(** A positive finite number [m * 2 ^ e] as the fraction [a / b]. *)
Definition fraction_of (m : positive) (e : Z) : Z * Z :=
  if 0 <=? e then (Zpos m * 2 ^ e, 1) else (Zpos m, 2 ^ (- e)).

(** [a / b] scaled by [10 ^ (- t)], as a fraction again. *)
Definition scale10 (ab : Z * Z) (t : Z) : Z * Z :=
  let (a, b) := ab in
  if 0 <=? t then (a, b * 10 ^ t) else (a * 10 ^ (- t), b).

(** A lower bound of the decimal exponent of [a / b], from the binary one
    ([log10 2] is 0.30103 to five places). *)
Definition decimal_exponent_bound (ab : Z * Z) : Z :=
  ((Z.log2 (fst ab) - Z.log2 (snd ab) - 1) * 30103) / 100000.

(** The least [n], counted up from [lo], with [a / b < 10 ^ n]. *)
Fixpoint decimal_exponent (fuel : nat) (ab : Z * Z) (lo : Z) : Z :=
  match fuel with
  | O => lo
  | S fuel' =>
      let (a, b) := scale10 ab lo in
      if a <? b then lo else decimal_exponent fuel' ab (lo + 1)
  end.

(** The digits [s] (an integer of [k] digits) and the exponent [n] such that
    [s * 10 ^ (n - k)] is read back as [x], with [k] as small as possible,
    and [s * 10 ^ (n - k)] as close to [x] as possible. *)
Definition candidate (x : number) (ab : Z * Z) (n k : Z) : option (Z * Z) :=
  let t := n - k in
  let (a, b) := scale10 ab t in
  let lo := a / b in
  let hi := lo + 1 in
  let ok s := (10 ^ (k - 1) <=? s) && (s <? 10 ^ k) && SFeqb (of_decimal s t) x in
  let ok_hi := if hi =? 10 ^ k then SFeqb (of_decimal hi t) x else ok hi in
  let pick_hi := if hi =? 10 ^ k then (10 ^ (k - 1), n + 1) else (hi, n) in
  match ok lo, ok_hi with
  | true, true =>
      match 2 * (a mod b) ?= b with
      | Lt => Some (lo, n)
      | Gt => Some pick_hi
      | Eq => if Z.even lo then Some (lo, n) else Some pick_hi
      end
  | true, false => Some (lo, n)
  | false, true => Some pick_hi
  | false, false => None
  end.

Fixpoint shortest (fuel : nat) (x : number) (ab : Z * Z) (n k : Z) : Z * Z * Z :=
  match fuel with
  | O => (fst ab / snd ab, n, k)
  | S fuel' =>
      match candidate x ab n k with
      | Some (s, n') => (s, n', k)
      | None => shortest fuel' x ab n (k + 1)
      end
  end.

Definition zeros (n : Z) : jsstring := repeat 48%N (Z.to_nat n).

(** [Number::toString] in radix 10. *)
Definition Number_toString (x : number) : jsstring :=
  match x with
  | S754_nan => js "NaN"
  | S754_zero _ => js "0"
  | S754_infinity s => ((if s then js "-" else []) ++ js "Infinity")%list
  | S754_finite sg m e =>
      let ab := fraction_of m e in
      let n0 := decimal_exponent 8 ab (decimal_exponent_bound ab) in
      let '(s, n, k) := shortest 17 (S754_finite false m e) ab n0 1 in
      let ds := decimal_digits s in
      let body :=
        if (k <=? n) && (n <=? 21) then ds ++ zeros (n - k)
        else if (0 <? n) && (n <=? 21) then
          firstn (Z.to_nat n) ds ++ js "." ++ skipn (Z.to_nat n) ds
        else if (-6 <? n) && (n <=? 0) then js "0." ++ zeros (- n) ++ ds
        else
          let ex := (if 0 <? n - 1 then js "+" else js "-")
                      ++ decimal_digits (Z.abs (n - 1)) in
          if k =? 1 then ds ++ js "e" ++ ex
          else firstn 1 ds ++ js "." ++ skipn 1 ds ++ js "e" ++ ex in
      (if sg then js "-" else []) ++ body
  end%list.

(** [Number.prototype.toFixed] with [f] digits after the point. *)
Definition toFixed (x : number) (f : nat) : jsstring :=
  match x with
  | S754_finite sg m e =>
      let (a, b) := fraction_of m e in
      if 10 ^ 21 * b <=? a then Number_toString x
      else
        let n := (2 * a * 10 ^ Z.of_nat f + b) / (2 * b) in
        let ds := decimal_digits n in
        let ds := (repeat 48%N (f + 1 - List.length ds) ++ ds)%list in
        let k := List.length ds in
        ((if sg then js "-" else []) ++
         match f with
         | O => ds
         | _ => firstn (k - f) ds ++ js "." ++ skipn (k - f) ds
         end)%list
  | S754_zero _ =>
      match f with
      | O => js "0"
      | _ => (js "0." ++ repeat 48%N f)%list
      end
  | _ => Number_toString x
  end.

End JS.

(** ** The host language: regular expressions

    The fragment of the pattern language that the class uses, with the
    backtracking semantics of the language: alternatives are tried from left
    to right, quantifiers are greedy, and a later failure makes an earlier
    choice be reconsidered.  The matcher is written in continuation-passing
    style; the continuation receives the rest of the input and the captures. *)

Module Regex.
Import JS.

Inductive regex : Type :=
  | Eps
  | Chr (p : code_unit -> bool)
  | Seq (a b : regex)
  | Alt (a b : regex)
  | Star (p : code_unit -> bool)
  | Opt (a : regex)
  | Group (i : nat) (a : regex).

Definition Plus (p : code_unit -> bool) : regex := Seq (Chr p) (Star p).

Definition captures : Type := list (nat * jsstring).

Fixpoint capture (i : nat) (c : captures) : option jsstring :=
  match c with
  | (j, w) :: c' => if Nat.eqb i j then Some w else capture i c'
  | [] => None
  end.

Section Matcher.
Context {R : Type}.

Fixpoint star (p : code_unit -> bool) (s : jsstring)
    (k : jsstring -> option R) : option R :=
  match s with
  | c :: s' =>
      if p c then
        match star p s' k with
        | Some r => Some r
        | None => k s
        end
      else k s
  | [] => k s
  end.

Fixpoint run (r : regex) (s : jsstring) (c : captures)
    (k : jsstring -> captures -> option R) : option R :=
  match r with
  | Eps => k s c
  | Chr p =>
      match s with
      | x :: s' => if p x then k s' c else None
      | [] => None
      end
  | Seq a b => run a s c (fun s1 c1 => run b s1 c1 k)
  | Alt a b =>
      match run a s c k with
      | Some r => Some r
      | None => run b s c k
      end
  | Star p => star p s (fun s1 => k s1 c)
  | Opt a =>
      match run a s c k with
      | Some r => Some r
      | None => k s c
      end
  | Group i a =>
      run a s c
        (fun s1 c1 =>
           k s1 ((i, firstn (List.length s - List.length s1) s) :: c1))
  end.

End Matcher.

(** One attempt to match at the start of [s]: the rest of the input after
    the match, and the captures. *)
Definition exec (r : regex) (s : jsstring) : option (jsstring * captures) :=
  run r s [] (fun rest c => Some (rest, c)).

(** A literal character and a literal word under the ignore-case flag. *)
Definition chr_i (x : ascii) : regex :=
  Chr (fun c => (canonicalize c =? canonicalize (cu x))%N).

Fixpoint word_i (w : string) : regex :=
  match w with
  | EmptyString => Eps
  | String x EmptyString => chr_i x
  | String x w' => Seq (chr_i x) (word_i w')
  end.

(** [input.replace(r, f)] with the global flag, before [f] is applied: the
    input cut into the code units that are kept and the matches, from left
    to right.  [skip] counts the code units still covered by the last
    match. *)
Inductive piece : Type :=
  | Keep (c : code_unit)
  | Match (c : captures).

Fixpoint pieces_from (r : regex) (skip : nat) (s : jsstring) : list piece :=
  match s with
  | [] =>
      match skip, exec r [] with
      | O, Some (_, c) => [Match c]
      | _, _ => []
      end
  | x :: s' =>
      match skip with
      | S n => pieces_from r n s'
      | O =>
          match exec r s with
          | Some (rest, c) =>
              match List.length s - List.length rest with
              | O => Match c :: Keep x :: pieces_from r 0 s'
              | S n => Match c :: pieces_from r n s'
              end
          | None => Keep x :: pieces_from r 0 s'
          end
      end
  end%nat.

Definition pieces (r : regex) (s : jsstring) : list piece := pieces_from r 0 s.

(** The words that a pattern can match, with the captures it leaves:
    [Matches r w c c'] when [r] matches exactly [w], on captures [c], and
    leaves [c'].  The relation does not order the matches. *)
Inductive Matches : regex -> jsstring -> captures -> captures -> Prop :=
  | M_eps c : Matches Eps [] c c
  | M_chr p x c : p x = true -> Matches (Chr p) [x] c c
  | M_seq a b w1 w2 c c1 c2 :
      Matches a w1 c c1 -> Matches b w2 c1 c2 ->
      Matches (Seq a b) (w1 ++ w2) c c2
  | M_alt_l a b w c c1 : Matches a w c c1 -> Matches (Alt a b) w c c1
  | M_alt_r a b w c c1 : Matches b w c c1 -> Matches (Alt a b) w c c1
  | M_star p w c : forallb p w = true -> Matches (Star p) w c c
  | M_opt_some a w c c1 : Matches a w c c1 -> Matches (Opt a) w c c1
  | M_opt_none a c : Matches (Opt a) [] c c
  | M_group i a w c c1 :
      Matches a w c c1 -> Matches (Group i a) w c ((i, w) :: c1).

End Regex.

(** ** The class [Duration] *)

Module Duration.
Import JS Regex.

(** *** Options and errors *)

Record ParseOptions : Type := {
  strict : option bool;
  allowPartial : option bool
}.

Module RoundingMode.
Inductive t : Type := round | floor | ceil.
End RoundingMode.

Record ConversionOptions : Type := {
  precision : option N;
  rounding : option RoundingMode.t
}.

(** [{}]: no option is set. *)
Definition no_parse_options : ParseOptions :=
  {| strict := None; allowPartial := None |}.
Definition no_conversion_options : ConversionOptions :=
  {| precision := None; rounding := None |}.

Definition default {A : Type} (d : A) (o : option A) : A :=
  match o with Some a => a | None => d end.

(** The errors that the class throws, with the data their messages show. *)
Inductive error : Type :=
  | EmptyInput
  | NoTokensFound
  | DuplicateUnit (unit : jsstring)
  | UnexpectedTrailingInput (remainder : jsstring)
  | DivisionByZero
  | UnsupportedUnit (unit : jsstring).

Definition message (e : error) : jsstring :=
  match e with
  | EmptyInput => js "Duration string cannot be empty"
  | NoTokensFound => js "Invalid duration string: no duration tokens found"
  | DuplicateUnit u => js "Duplicate time unit detected in strict mode: " ++ u
  | UnexpectedTrailingInput r =>
      js "Invalid duration string: unexpected token sequence " ++ [34%N] ++ r ++ [34%N]
  | DivisionByZero => js "Cannot divide by zero"
  | UnsupportedUnit u => js "Unsupported duration unit: " ++ u
  end%list.

Inductive result (A : Type) : Type :=
  | Ok (a : A)
  | Throw (e : error).
Arguments Ok {A} a.
Arguments Throw {A} e.

Definition bind {A B : Type} (m : result A) (f : A -> result B) : result B :=
  match m with
  | Ok a => f a
  | Throw e => Throw e
  end.

Notation "x <- m ;; f" := (bind m (fun x => f))
  (at level 61, m at next level, right associativity).

(** *** Constants *)

Definition MS_PER_SECOND : number := of_Z 1000.
Definition MS_PER_MINUTE : number := mul (of_Z 60) MS_PER_SECOND.
Definition MS_PER_HOUR : number := mul (of_Z 60) MS_PER_MINUTE.
Definition MS_PER_DAY : number := mul (of_Z 24) MS_PER_HOUR.
Definition MS_PER_WEEK : number := mul (of_Z 7) MS_PER_DAY.
Definition MS_PER_MONTH : number := mul (of_Z 30) MS_PER_DAY.
Definition MS_PER_YEAR : number := mul (of_Z 365) MS_PER_DAY.

(** [/(\d+(?:\.\d+)?)\s*(ms|s|m|h|d|w|mo|y)/gi] *)
Definition PARSE_REGEX : regex :=
  Seq (Group 1 (Seq (Plus is_digit) (Opt (Seq (chr_i ".") (Plus is_digit)))))
   (Seq (Star is_space)
     (Group 2
       (Alt (word_i "ms") (Alt (word_i "s") (Alt (word_i "m") (Alt (word_i "h")
       (Alt (word_i "d") (Alt (word_i "w") (Alt (word_i "mo") (word_i "y")))))))))).

Definition FORMAT_UNITS : list (jsstring * number) :=
  [ (js "y", MS_PER_YEAR); (js "mo", MS_PER_MONTH); (js "w", MS_PER_WEEK);
    (js "d", MS_PER_DAY); (js "h", MS_PER_HOUR); (js "m", MS_PER_MINUTE);
    (js "s", MS_PER_SECOND); (js "ms", of_Z 1) ].

(** *** Values and factories *)

Record t : Type := Build { milliseconds : number }.

Module Factory.
Definition ms (milliseconds : number) : t := Build milliseconds.
Definition secs (seconds : number) : t := Build (mul seconds MS_PER_SECOND).
Definition mins (minutes : number) : t := Build (mul minutes MS_PER_MINUTE).
Definition hrs (hours : number) : t := Build (mul hours MS_PER_HOUR).
Definition days (days : number) : t := Build (mul days MS_PER_DAY).
Definition weeks (weeks : number) : t := Build (mul weeks MS_PER_WEEK).
Definition months (months : number) : t := Build (mul months MS_PER_MONTH).
Definition years (years : number) : t := Build (mul years MS_PER_YEAR).
End Factory.

(** *** Parsing *)

Definition unitToMilliseconds (unit : jsstring) : result number :=
  if eqb_string unit (js "ms") then Ok (of_Z 1)
  else if eqb_string unit (js "s") then Ok MS_PER_SECOND
  else if eqb_string unit (js "m") then Ok MS_PER_MINUTE
  else if eqb_string unit (js "h") then Ok MS_PER_HOUR
  else if eqb_string unit (js "d") then Ok MS_PER_DAY
  else if eqb_string unit (js "w") then Ok MS_PER_WEEK
  else if eqb_string unit (js "mo") then Ok MS_PER_MONTH
  else if eqb_string unit (js "y") then Ok MS_PER_YEAR
  else Throw (UnsupportedUnit unit).

(** The variables that the replacement callback of [parse] closes over,
    and the text that [replace] has built so far. *)
Record parse_state : Type := {
  seenUnits : list jsstring;
  matched : bool;
  totalMilliseconds : number;
  remainder : jsstring
}.

(** The text of a capture group (each of the two groups of the pattern takes
    part in every match). *)
Definition group (i : nat) (c : captures) : jsstring :=
  match capture i c with Some w => w | None => [] end.

(** The replacement callback, at one match. *)
Definition on_match (strict : bool) (st : parse_state) (c : captures)
    : result parse_state :=
  let rawValue := group 1 c in
  let rawUnit := group 2 c in
  let value := parseFloat rawValue in
  let unit := toLowerCase rawUnit in
  if strict && existsb (eqb_string unit) (seenUnits st)
  then Throw (DuplicateUnit unit)
  else
    ratio <- unitToMilliseconds unit ;;
    Ok {| seenUnits := unit :: seenUnits st;
          matched := true;
          totalMilliseconds := add (totalMilliseconds st) (mul value ratio);
          remainder := (remainder st ++ js " ")%list |}.

Fixpoint replace_loop (strict : bool) (ps : list piece) (st : parse_state)
    : result parse_state :=
  match ps with
  | [] => Ok st
  | Keep x :: ps' =>
      replace_loop strict ps'
        {| seenUnits := seenUnits st; matched := matched st;
           totalMilliseconds := totalMilliseconds st;
           remainder := (remainder st ++ [x])%list |}
  | Match c :: ps' =>
      st' <- on_match strict st c ;; replace_loop strict ps' st'
  end.

Definition parse (input : jsstring) (options : ParseOptions) : result t :=
  let strict := default true (strict options) in
  let allowPartial := default false (allowPartial options) in
  let normalized := trim input in
  if (List.length normalized =? 0)%nat then Throw EmptyInput
  else
    st <- replace_loop strict (pieces PARSE_REGEX input)
            {| seenUnits := []; matched := false;
               totalMilliseconds := of_Z 0; remainder := [] |} ;;
    if negb (matched st) then Throw NoTokensFound
    else if negb allowPartial && (0 <? List.length (trim (remainder st)))%nat
    then Throw (UnexpectedTrailingInput (trim (remainder st)))
    else Ok (Build (totalMilliseconds st)).

(** *** Conversion *)

(** [#round(value, options = {})] *)
Definition round (value : number) (options : option ConversionOptions) : number :=
  let options := default no_conversion_options options in
  let rounding := default RoundingMode.round (rounding options) in
  match precision options with
  | None => value
  | Some precision =>
      let factor := pow10 precision in
      match rounding with
      | RoundingMode.floor => div (Math.floor (mul value factor)) factor
      | RoundingMode.ceil => div (Math.ceil (mul value factor)) factor
      | RoundingMode.round => div (Math.round (mul value factor)) factor
      end
  end.

(** [#convert(unitValue, options)] *)
Definition convert (this : t) (unitValue : number)
    (options : option ConversionOptions) : number :=
  round (div (milliseconds this) unitValue) options.

Definition ms (this : t) : number := milliseconds this.
Definition secs (this : t) options : number := convert this MS_PER_SECOND options.
Definition mins (this : t) options : number := convert this MS_PER_MINUTE options.
Definition hrs (this : t) options : number := convert this MS_PER_HOUR options.
Definition days (this : t) options : number := convert this MS_PER_DAY options.
Definition weeks (this : t) options : number := convert this MS_PER_WEEK options.
Definition months (this : t) options : number := convert this MS_PER_MONTH options.
Definition years (this : t) options : number := convert this MS_PER_YEAR options.

(** *** Arithmetic and comparison *)

Definition add (this other : t) : t := Build (JS.add (milliseconds this) (ms other)).
Definition sub (this other : t) : t := Build (JS.sub (milliseconds this) (ms other)).
Definition mul (this : t) (factor : number) : t := Build (JS.mul (milliseconds this) factor).

Definition div (this : t) (divisor : number) : result t :=
  if strict_eq divisor (of_Z 0) then Throw DivisionByZero
  else Ok (Build (JS.div (milliseconds this) divisor)).

Definition eq (this other : t) : bool := strict_eq (milliseconds this) (ms other).
Definition lt (this other : t) : bool := JS.lt (milliseconds this) (ms other).
Definition gt (this other : t) : bool := JS.gt (milliseconds this) (ms other).
Definition lte (this other : t) : bool := JS.le (milliseconds this) (ms other).
Definition gte (this other : t) : bool := JS.ge (milliseconds this) (ms other).
Definition isZero (this : t) : bool := strict_eq (milliseconds this) (of_Z 0).
Definition abs (this : t) : t := Build (Math.abs (milliseconds this)).

(** *** Formatting *)

Definition formatNumber (value : number) : jsstring :=
  if isInteger value then Number_toString value
  else Number_toString (Number_of_string (toFixed value 6)).

(** [parts.join(sep)] *)
Fixpoint join (sep : jsstring) (parts : list jsstring) : jsstring :=
  match parts with
  | [] => []
  | [p] => p
  | p :: ps => (p ++ sep ++ join sep ps)%list
  end.

(** The loop of [format] over the unit table, from the state it has reached:
    what remains of the magnitude and the segments pushed so far. *)
Fixpoint format_loop (units : list (jsstring * number)) (remaining : number)
    (parts : list jsstring) : list jsstring :=
  match units with
  | [] => parts
  | (label, unit_ms) :: units' =>
      if eqb_string label (js "ms") then
        if JS.gt remaining (of_Z 0)
        then (parts ++ [formatNumber remaining ++ js "ms"])%list
        else parts
      else
        let value := Math.floor (JS.div remaining unit_ms) in
        if JS.gt value (of_Z 0)
        then format_loop units' (JS.sub remaining (JS.mul value unit_ms))
               (parts ++ [Number_toString value ++ label])%list
        else format_loop units' remaining parts
  end.

Definition format (this : t) : jsstring :=
  if strict_eq (milliseconds this) (of_Z 0) then js "0ms"
  else
    let sign := if JS.lt (milliseconds this) (of_Z 0) then js "-" else js "" in
    let remaining := Math.abs (milliseconds this) in
    let parts := format_loop FORMAT_UNITS remaining [] in
    (sign ++ join (js " ") parts)%list.

End Duration.

(** ** The specification's reading of the operations *)

Module Spec.
Import JS.


(** The fixed set of unit labels. *)
Definition unit_labels : list jsstring :=
  map js ["ms"; "s"; "m"; "h"; "d"; "w"; "mo"; "y"]%string.

(** The units, each with its factory, its accessor called without options,
    and its ratio to the millisecond. *)
Inductive unit_name : Type :=
  ms | secs | mins | hrs | days | weeks | months | years.

Definition factory (u : unit_name) : number -> Duration.t :=
  match u with
  | ms => Duration.Factory.ms
  | secs => Duration.Factory.secs
  | mins => Duration.Factory.mins
  | hrs => Duration.Factory.hrs
  | days => Duration.Factory.days
  | weeks => Duration.Factory.weeks
  | months => Duration.Factory.months
  | years => Duration.Factory.years
  end.

Definition accessor (u : unit_name) (d : Duration.t) : number :=
  match u with
  | ms => Duration.ms d
  | secs => Duration.secs d None
  | mins => Duration.mins d None
  | hrs => Duration.hrs d None
  | days => Duration.days d None
  | weeks => Duration.weeks d None
  | months => Duration.months d None
  | years => Duration.years d None
  end.

Definition ratio (u : unit_name) : Z :=
  match u with
  | ms => 1
  | secs => 1000
  | mins => 60000
  | hrs => 3600000
  | days => 86400000
  | weeks => 604800000
  | months => 2592000000
  | years => 31536000000
  end.

(** The formatter, in the specification's words.  The units strictly
    larger than the millisecond, from the largest: *)
Definition larger_units : list (jsstring * number) :=
  [ (js "y", Duration.MS_PER_YEAR); (js "mo", Duration.MS_PER_MONTH);
    (js "w", Duration.MS_PER_WEEK); (js "d", Duration.MS_PER_DAY);
    (js "h", Duration.MS_PER_HOUR); (js "m", Duration.MS_PER_MINUTE);
    (js "s", Duration.MS_PER_SECOND) ].

(** The whole count of every unit of the list, in order, and what remains
    of the magnitude after them: the whole count of a unit is the floor of
    what remains over the unit's ratio, and it is taken off what remains
    when it is above zero. *)
Fixpoint whole_counts (units : list (jsstring * number)) (remaining : number)
    : list (number * jsstring) * number :=
  match units with
  | [] => ([], remaining)
  | (label, unitRatio) :: units' =>
      let wholeCount := Math.floor (JS.div remaining unitRatio) in
      let (counts, left) :=
        whole_counts units'
          (if JS.gt wholeCount (of_Z 0)
           then JS.sub remaining (JS.mul wholeCount unitRatio)
           else remaining) in
      ((wholeCount, label) :: counts, left)
  end.

(** The segments: one for each unit whose whole count is above zero, then
    one for the milliseconds that are left, if any. *)
Definition segments (magnitude : number) : list jsstring :=
  let (counts, left) := whole_counts larger_units magnitude in
  (map (fun c => Number_toString (fst c) ++ snd c)
       (filter (fun c => JS.gt (fst c) (of_Z 0)) counts)
   ++ (if JS.gt left (of_Z 0)
       then [Duration.formatNumber left ++ js "ms"] else []))%list.

Definition format (d : Duration.t) : jsstring :=
  if strict_eq (Duration.ms d) (of_Z 0) then js "0ms"
  else
    ((if JS.lt (Duration.ms d) (of_Z 0) then js "-" else [])
     ++ Duration.join (js " ") (segments (Math.abs (Duration.ms d))))%list.

(** Segments in a row, with one space before each but the first. *)
Definition spaced (parts : list jsstring) : jsstring :=
  match parts with
  | [] => []
  | p :: ps => (p ++ List.concat (map (fun q => 32%N :: q) ps))%list
  end.

(** The larger units with their ratios as integers, and the decomposition
    of an integer magnitude over them: quotient and remainder by each ratio
    in turn. *)
Definition larger_unit_ratios : list (jsstring * Z) :=
  [ (js "y", 31536000000); (js "mo", 2592000000); (js "w", 604800000);
    (js "d", 86400000); (js "h", 3600000); (js "m", 60000); (js "s", 1000) ].

Fixpoint greedy (units : list (jsstring * Z)) (n : Z)
    : list (Z * jsstring) * Z :=
  match units with
  | [] => ([], n)
  | (label, unitRatio) :: units' =>
      let (counts, left) := greedy units' (n mod unitRatio) in
      ((n / unitRatio, label) :: counts, left)
  end.

(** The segments of an integer magnitude, from its decomposition. *)
Definition integer_segments (n : Z) : list jsstring :=
  let (counts, left) := greedy larger_unit_ratios n in
  (map (fun c => Number_toString (of_Z (fst c)) ++ snd c)
       (filter (fun c => 0 <? fst c) counts)
   ++ (if 0 <? left then [Number_toString (of_Z left) ++ js "ms"] else []))%list.

(** The label of each unit in duration strings. *)
Definition label (u : unit_name) : jsstring :=
  match u with
  | ms => js "ms"
  | secs => js "s"
  | mins => js "m"
  | hrs => js "h"
  | days => js "d"
  | weeks => js "w"
  | months => js "mo"
  | years => js "y"
  end.

(** The unit labels, in lower case, of the matches among the pieces of an
    input, from left to right. *)
Fixpoint matched_units (ps : list Regex.piece) : list jsstring :=
  match ps with
  | [] => []
  | Regex.Keep _ :: ps' => matched_units ps'
  | Regex.Match c :: ps' =>
      toLowerCase (Duration.group 2 c) :: matched_units ps'
  end.

(** The state in which the replacement of [parse] starts. *)
Definition initial_state : Duration.parse_state :=
  {| Duration.seenUnits := []; Duration.matched := false;
     Duration.totalMilliseconds := of_Z 0; Duration.remainder := [] |}.

(** [parse] in two phases: the scan first, then the checks and the sum.
    The first unit that an earlier match has already shown: *)
Fixpoint first_duplicate (seen units : list jsstring) : option jsstring :=
  match units with
  | [] => None
  | u :: units' =>
      if existsb (eqb_string u) seen then Some u
      else first_duplicate (u :: seen) units'
  end.

(** The input with every match replaced by one space. *)
Fixpoint replaced (ps : list Regex.piece) : jsstring :=
  match ps with
  | [] => []
  | Regex.Keep x :: ps' => x :: replaced ps'
  | Regex.Match _ :: ps' => (js " " ++ replaced ps')%list
  end.

(** The milliseconds of one match: its number times the ratio of its
    unit. *)
Definition token_milliseconds (c : Regex.captures) : number :=
  JS.mul (parseFloat (Duration.group 1 c))
    (match Duration.unitToMilliseconds (toLowerCase (Duration.group 2 c)) with
     | Duration.Ok r => r
     | Duration.Throw _ => NaN
     end).

(** The sum of the matches, added from left to right to [total]. *)
Fixpoint sum_tokens (ps : list Regex.piece) (total : number) : number :=
  match ps with
  | [] => total
  | Regex.Keep _ :: ps' => sum_tokens ps' total
  | Regex.Match c :: ps' =>
      sum_tokens ps' (JS.add total (token_milliseconds c))
  end.

Definition parse (input : jsstring) (strict allowPartial : bool)
    : Duration.result Duration.t :=
  let ps := Regex.pieces Duration.PARSE_REGEX input in
  if forallb is_space input then Duration.Throw Duration.EmptyInput
  else
    match (if strict then first_duplicate [] (matched_units ps) else None) with
    | Some u => Duration.Throw (Duration.DuplicateUnit u)
    | None =>
        match matched_units ps with
        | [] => Duration.Throw Duration.NoTokensFound
        | _ :: _ =>
            if negb allowPartial && negb (forallb is_space (replaced ps))
            then Duration.Throw
                   (Duration.UnexpectedTrailingInput (trim (replaced ps)))
            else Duration.Ok (Duration.Build (sum_tokens ps (of_Z 0)))
        end
    end.

(** The texts that the number of a token can be, [\d+(?:\.\d+)?]: digits,
    then maybe a point and more digits. *)
Definition number_text (w : jsstring) : bool :=
  match span is_digit w with
  | (_ :: _, []) => true
  | (_ :: _, c :: ((_ :: _) as fr)) => (c =? 46)%N && forallb is_digit fr
  | _ => false
  end.

(** The unit that the scan reads from the label of a unit: the pattern
    tries [m] before [mo], so it reads the label of the month as that of
    the minute, and leaves the [o]. *)
Definition scanned (u : unit_name) : unit_name :=
  match u with months => mins | _ => u end.

Definition is_month (u : unit_name) : bool :=
  match u with months => true | _ => false end.

(** The two groups of the pattern of [parse]: [\d+(?:\.\d+)?] and
    [ms|s|m|h|d|w|mo|y]. *)
Definition number_pattern : Regex.regex :=
  Regex.Seq (Regex.Plus is_digit)
    (Regex.Opt (Regex.Seq (Regex.chr_i ".") (Regex.Plus is_digit))).

Definition unit_pattern : Regex.regex :=
  Regex.Alt (Regex.word_i "ms") (Regex.Alt (Regex.word_i "s")
  (Regex.Alt (Regex.word_i "m") (Regex.Alt (Regex.word_i "h")
  (Regex.Alt (Regex.word_i "d") (Regex.Alt (Regex.word_i "w")
  (Regex.Alt (Regex.word_i "mo") (Regex.word_i "y"))))))).

(** The patterns that take no white space: every test of a code unit
    fails on white space. *)
Fixpoint space_free (r : Regex.regex) : Prop :=
  match r with
  | Regex.Eps => True
  | Regex.Chr p | Regex.Star p => forall c, is_space c = true -> p c = false
  | Regex.Seq a b | Regex.Alt a b => space_free a /\ space_free b
  | Regex.Opt a | Regex.Group _ a => space_free a
  end.

(** The patterns that do not tell an ASCII letter from its lower-case
    form: all that they test of a code unit holds of both or of none. *)
Fixpoint case_blind (r : Regex.regex) : Prop :=
  match r with
  | Regex.Eps => True
  | Regex.Chr p | Regex.Star p => forall c, p (lower c) = p c
  | Regex.Seq a b | Regex.Alt a b => case_blind a /\ case_blind b
  | Regex.Opt a | Regex.Group _ a => case_blind a
  end.

(** Captures and pieces in lower case. *)
Definition lower_captures (c : Regex.captures) : Regex.captures :=
  map (fun iw => (fst iw, toLowerCase (snd iw))) c.

Definition lower_piece (p : Regex.piece) : Regex.piece :=
  match p with
  | Regex.Keep x => Regex.Keep (lower x)
  | Regex.Match c => Regex.Match (lower_captures c)
  end.

(** Exactly one of three truth values. *)
Definition exactly_one (a b c : bool) : bool :=
  (a && negb b && negb c) || (negb a && b && negb c) || (negb a && negb b && c).

End Spec.

(** ** Exact values *)

Module Exact.
Import JS.

(** The rational that a finite number denotes. *)
Definition value (x : number) : Q :=
  match x with
  | S754_finite s m e =>
      if 0 <=? e then inject_Z (cond_Zopp s (Zpos m) * 2 ^ e)
      else Qmake (cond_Zopp s (Zpos m)) (Z.to_pos (2 ^ (- e)))
  | _ => 0%Q
  end.

(** The normal number of sign [s] that is the positive integer [p], when
    [p] has at most 53 binary digits. *)
Definition canon (s : bool) (p : positive) : number :=
  let d := Zpos (digits2_pos p) in
  S754_finite s (Pos.shiftl p (Z.to_N (prec - d))) (d - prec).


(** Integers of at most 53 binary digits: arithmetic on them is exact. *)
Definition small (n : Z) : Prop := Z.abs n < 2 ^ 53.


(** The number is not [NaN] and carries the sign [s]. *)
Definition has_sign (s : bool) (x : number) : bool :=
  match x with
  | S754_zero s' | S754_infinity s' | S754_finite s' _ _ => Bool.eqb s s'
  | S754_nan => false
  end.

End Exact.

(** * Properties *)

Import JS.

(** ** Comparison *)

Lemma compare_not_nan (x y : number) :
  is_nan x = false -> is_nan y = false ->
  exists c, SFcompare x y = Some c.
Proof.
  destruct x, y; simpl; intros; try discriminate; eauto.
Qed.

Lemma compare_swap (x y : number) (c : comparison) :
  SFcompare x y = Some c -> SFcompare y x = Some (CompOpp c).
Proof.
  destruct x as [sx|sx| |sx mx ex], y as [sy|sy| |sy my ey]; simpl;
    try discriminate;
    try (intros H; injection H as <-;
         repeat match goal with s : bool |- _ => destruct s end; reflexivity).
  intros H; injection H as <-. f_equal.
  destruct sx, sy; simpl; try reflexivity;
    rewrite (Z.compare_antisym ex ey);
    destruct (ex ?= ey) eqn:E; simpl; try reflexivity;
    rewrite (Pos.compare_cont_antisym mx my Eq); simpl;
    destruct (Pos.compare_cont Eq my mx); reflexivity.
Qed.

(** C4, as amended.  When neither millisecond value is [NaN], exactly one
    of [a.lt(b)], [a.eq(b)], [a.gt(b)] is true; when one of them is [NaN],
    none of the three is. *)
Theorem comparison_trichotomy (a b : Duration.t) :
  if is_nan (Duration.ms a) || is_nan (Duration.ms b)
  then Duration.lt a b = false /\ Duration.eq a b = false
       /\ Duration.gt a b = false
  else Spec.exactly_one (Duration.lt a b) (Duration.eq a b) (Duration.gt a b)
       = true.
Proof.
  destruct a as [x], b as [y].
  unfold Duration.lt, Duration.eq, Duration.gt, Duration.ms, lt, gt, strict_eq,
    SFltb, SFeqb; simpl.
  destruct (is_nan x) eqn:Hx.
  - destruct x; try discriminate. destruct y; simpl; auto.
  - destruct (is_nan y) eqn:Hy.
    + destruct y; try discriminate. destruct x; simpl; auto.
    + simpl. destruct (compare_not_nan x y Hx Hy) as [c Hc].
      rewrite Hc, (compare_swap _ _ _ Hc). destruct c; reflexivity.
Qed.

(** C4 fails as stated: with a [NaN] duration none of the three holds. *)
Lemma comparison_trichotomy_fails_on_nan :
  let a := Duration.Factory.ms NaN in
  let b := Duration.Factory.ms (of_Z 1) in
  Spec.exactly_one (Duration.lt a b) (Duration.eq a b) (Duration.gt a b)
  = false.
Proof. reflexivity. Qed.

(** ** Division *)

(** [divisor === 0] holds for the two zeros and for nothing else. *)
Lemma strict_eq_zero (x : number) :
  strict_eq x (of_Z 0) = match x with S754_zero _ => true | _ => false end.
Proof. destruct x as [s|s| |s m e]; try destruct s; reflexivity. Qed.

(** C6.  [a.div(divisor)] throws [DivisionByZero] exactly when
    [divisor === 0], that is for the two zeros; for every other divisor,
    [NaN] and the infinities included, it returns the duration of
    [a.ms / divisor]. *)
Theorem div_fails_exactly_on_zero (a : Duration.t) (divisor : number) :
  (strict_eq divisor (of_Z 0) = true <->
   Duration.div a divisor = Duration.Throw Duration.DivisionByZero)
  /\ (strict_eq divisor (of_Z 0) = false <->
      Duration.div a divisor
      = Duration.Ok (Duration.Build (JS.div (Duration.ms a) divisor)))
  /\ strict_eq NaN (of_Z 0) = false
  /\ strict_eq Infinity (of_Z 0) = false
  /\ strict_eq (SFopp Infinity) (of_Z 0) = false.
Proof.
  unfold Duration.div.
  destruct (strict_eq divisor (of_Z 0)); repeat split;
    intros; try reflexivity; try discriminate.
Qed.

(** ** Formatting: fixed inputs *)

(** C10.  A duration whose millisecond value is [NaN] formats as the empty
    string. *)
Theorem format_nan (d : Duration.t) :
  is_nan (Duration.ms d) = true -> Duration.format d = js "".
Proof.
  destruct d as [x]; simpl. destruct x; try discriminate. reflexivity.
Qed.

Lemma format_nan_witness :
  is_nan (Duration.ms (Duration.Factory.ms NaN)) = true
  /\ Duration.format (Duration.Factory.ms NaN) = js "".
Proof.
  split; [reflexivity | apply (format_nan (Duration.Factory.ms NaN)); reflexivity].
Defined.

(** ** The matcher finds only matches of the pattern *)

Section MatcherSound.
Import Regex.
Context {R : Type}.

Lemma star_sound (p : code_unit -> bool) (s : jsstring)
    (k : jsstring -> option R) (res : R) :
  star p s k = Some res ->
  exists w s1, s = w ++ s1 /\ forallb p w = true /\ k s1 = Some res.
Proof.
  induction s as [|x s IH]; simpl; intros H.
  - exists [], []. auto.
  - destruct (p x) eqn:Hp.
    + destruct (star p s k) eqn:Hs.
      * injection H as ->. destruct (IH eq_refl) as (w & s1 & -> & Hw & Hk).
        exists (x :: w), s1. simpl. rewrite Hp, Hw. auto.
      * exists [], (x :: s). auto.
    + exists [], (x :: s). auto.
Qed.

Lemma firstn_matched (w s1 : jsstring) :
  firstn (List.length (w ++ s1) - List.length s1) (w ++ s1) = w.
Proof.
  rewrite length_app, Nat.add_sub. rewrite firstn_app, Nat.sub_diag.
  simpl. rewrite app_nil_r. apply firstn_all.
Qed.

Lemma run_sound (r : regex) :
  forall (s : jsstring) (c : captures)
         (k : jsstring -> captures -> option R) (res : R),
  run r s c k = Some res ->
  exists w s1 c1, s = w ++ s1 /\ Matches r w c c1 /\ k s1 c1 = Some res.
Proof.
  induction r as [|p|a IHa b IHb|a IHa b IHb|p|a IHa|i a IHa];
    simpl; intros s c k res H.
  - exists [], s, c. repeat split; auto. constructor.
  - destruct s as [|x s]; [discriminate|].
    destruct (p x) eqn:Hp; [|discriminate].
    exists [x], s, c. repeat split; auto. now constructor.
  - destruct (IHa _ _ _ _ H) as (w1 & s1 & c1 & -> & Ha & H1).
    destruct (IHb _ _ _ _ H1) as (w2 & s2 & c2 & -> & Hb & H2).
    exists (w1 ++ w2), s2, c2. rewrite app_assoc. repeat split; auto.
    econstructor; eauto.
  - destruct (run a s c k) eqn:E.
    + injection H as ->. destruct (IHa _ _ _ _ E) as (w & s1 & c1 & ? & ? & ?).
      exists w, s1, c1. repeat split; auto. now apply M_alt_l.
    + destruct (IHb _ _ _ _ H) as (w & s1 & c1 & ? & ? & ?).
      exists w, s1, c1. repeat split; auto. now apply M_alt_r.
  - destruct (star_sound _ _ _ _ H) as (w & s1 & -> & Hw & Hk).
    exists w, s1, c. repeat split; auto. now constructor.
  - destruct (run a s c k) eqn:E.
    + injection H as ->. destruct (IHa _ _ _ _ E) as (w & s1 & c1 & ? & ? & ?).
      exists w, s1, c1. repeat split; auto. now apply M_opt_some.
    + exists [], s, c. repeat split; auto. apply M_opt_none.
  - destruct (IHa _ _ _ _ H) as (w & s1 & c1 & -> & Ha & Hk).
    rewrite firstn_matched in Hk.
    exists w, s1, ((i, w) :: c1). repeat split; auto. now constructor.
Qed.

End MatcherSound.

Lemma exec_sound (r : Regex.regex) (s rest : jsstring) (c : Regex.captures) :
  Regex.exec r s = Some (rest, c) ->
  exists w, s = w ++ rest /\ Regex.Matches r w [] c.
Proof.
  unfold Regex.exec. intros H.
  destruct (run_sound r _ _ _ _ H) as (w & s1 & c1 & -> & Hm & Hk).
  injection Hk as -> ->. eauto.
Qed.

(** Every match that the global replacement reports is a match of the
    pattern. *)
Lemma pieces_from_sound (r : Regex.regex) (c : Regex.captures) :
  forall (s : jsstring) (skip : nat),
  In (Regex.Match c) (Regex.pieces_from r skip s) ->
  exists w, Regex.Matches r w [] c.
Proof.
  induction s as [|x s IH]; intros skip H; cbn [Regex.pieces_from] in H.
  - destruct skip; [|contradiction].
    destruct (Regex.exec r []) as [[rest c']|] eqn:E; [|contradiction].
    destruct H as [H|H]; [|contradiction]. injection H as ->.
    destruct (exec_sound _ _ _ _ E) as (w & _ & Hm). eauto.
  - destruct skip as [|n]; [|eauto].
    destruct (Regex.exec r (x :: s)) as [[rest c']|] eqn:E.
    + destruct (exec_sound _ _ _ _ E) as (w & _ & Hm).
      destruct (List.length (x :: s) - List.length rest)%nat;
        destruct H as [H|H]; try (injection H as ->); eauto.
      destruct H as [H|H]; [discriminate|eauto].
    + destruct H as [H|H]; [discriminate|eauto].
Qed.

(** ** What the pattern of [parse] captures *)

Ltac invert_matches :=
  repeat match goal with
  | H : Regex.Matches (Regex.Seq _ _) _ _ _ |- _ => inversion H; subst; clear H
  | H : Regex.Matches (Regex.Group _ _) _ _ _ |- _ => inversion H; subst; clear H
  | H : Regex.Matches (Regex.Chr _) _ _ _ |- _ => inversion H; subst; clear H
  | H : Regex.Matches (Regex.Star _) _ _ _ |- _ => inversion H; subst; clear H
  | H : Regex.Matches (Regex.Opt _) _ _ _ |- _ => inversion H; subst; clear H
  | H : Regex.Matches Regex.Eps _ _ _ |- _ => inversion H; subst; clear H
  | H : Regex.Matches (Regex.Alt _ _) _ _ _ |- _ => inversion H; subst; clear H
  end.

(** Under the ignore-case flag a lower-case ASCII letter of the pattern
    matches that letter and its upper-case form, and both are lowered to
    it. *)
Lemma chr_i_lower (a x : code_unit) :
  (97 <= a <= 122)%N ->
  (canonicalize x =? canonicalize a)%N = true ->
  lower x = a.
Proof.
  intros Ha H. apply N.eqb_eq in H. revert H.
  unfold canonicalize, lower.
  destruct (N.leb_spec 97 a), (N.leb_spec a 122); try lia.
  destruct (N.leb_spec 97 x), (N.leb_spec x 122),
           (N.leb_spec 65 x), (N.leb_spec x 90); simpl; lia.
Qed.

Ltac lower_letters :=
  repeat match goal with
  | H : (canonicalize ?x =? canonicalize ?a)%N = true |- _ =>
      apply (chr_i_lower a x) in H; [|vm_compute; split; discriminate]
  end.

(** Every match of the pattern captures a numeric text that starts with a
    digit, and a unit text that is, in lower case, one of the eight
    labels. *)
Lemma PARSE_REGEX_captures (w : jsstring) (c : Regex.captures) :
  Regex.Matches Duration.PARSE_REGEX w [] c ->
  exists w1 w2,
    c = [(2%nat, w2); (1%nat, w1)]
    /\ (exists x t, w1 = x :: t /\ is_digit x = true)
    /\ In (toLowerCase w2) Spec.unit_labels.
Proof.
  unfold Duration.PARSE_REGEX, Regex.Plus. intros H.
  inversion H as [| |a b w1 w2' c0 c1 c2 Hnum Hrest| | | | | |]; subst; clear H.
  inversion Hnum as [| | | | | | | |i a w1' c0 c1' Hdig]; subst; clear Hnum.
  inversion Hrest as [| |a b wsp w2 c0 c1 c2 Hsp Hunit| | | | | |]; subst;
    clear Hrest.
  inversion Hsp; subst; clear Hsp.
  inversion Hunit as [| | | | | | | |i a w2' c0 c1 Halt]; subst; clear Hunit.
  assert (Hc1 : c1' = [] /\ exists x t, w1 = x :: t /\ is_digit x = true).
  { clear Halt. inversion Hdig as [| |a b u v c0 c3 c2 Hp Ho| | | | | |]; subst.
    inversion Hp as [| |a b u1 u2 c0 c4 c2 Hx Hs| | | | | |]; subst.
    inversion Hx; subst. inversion Hs; subst.
    split; [|simpl; eauto].
    inversion Ho; subst; [|reflexivity].
    clear Hdig Hp Hx Hs Ho. unfold Regex.chr_i in *.
    invert_matches; reflexivity. }
  destruct Hc1 as [-> Hd].
  assert (Hu : c1 = [(1%nat, w1)] /\ In (toLowerCase w2) Spec.unit_labels).
  { clear Hdig Hd. unfold Regex.word_i, Regex.chr_i in Halt.
    invert_matches; lower_letters; split; try reflexivity;
      unfold toLowerCase; simpl map;
      repeat match goal with H : lower _ = _ |- _ => rewrite H; clear H end;
      vm_compute; tauto. }
  destruct Hu as [-> Hu]. eauto.
Qed.

(** ** The unit lookup of [parse] never fails *)

Lemma unitToMilliseconds_labels (u : jsstring) :
  In u Spec.unit_labels ->
  exists r, Duration.unitToMilliseconds u = Duration.Ok r.
Proof.
  unfold Spec.unit_labels. simpl.
  intros H; repeat destruct H as [<-|H]; try contradiction; eexists;
    reflexivity.
Qed.

(** The callback raises [DuplicateUnit] or nothing when the captured unit
    is one of the labels. *)
Lemma on_match_error (strict : bool) (st : Duration.parse_state)
    (c : Regex.captures) (e : Duration.error) :
  In (toLowerCase (Duration.group 2 c)) Spec.unit_labels ->
  Duration.on_match strict st c = Duration.Throw e ->
  exists u, e = Duration.DuplicateUnit u.
Proof.
  unfold Duration.on_match. intros Hu.
  destruct (unitToMilliseconds_labels _ Hu) as [r ->].
  destruct (strict && _); simpl; intros H; [|discriminate].
  injection H as <-. eauto.
Qed.

Lemma replace_loop_error (strict : bool) (ps : list Regex.piece) :
  (forall c, In (Regex.Match c) ps ->
             In (toLowerCase (Duration.group 2 c)) Spec.unit_labels) ->
  forall (st : Duration.parse_state) (e : Duration.error),
  Duration.replace_loop strict ps st = Duration.Throw e ->
  exists u, e = Duration.DuplicateUnit u.
Proof.
  induction ps as [|[x|c] ps IH]; intros Hps st e H; simpl in H.
  - discriminate.
  - eapply IH; [|exact H]. intros c Hc. apply Hps. now right.
  - destruct (Duration.on_match strict st c) as [st'|e'] eqn:E; simpl in H.
    + eapply IH; [|exact H]. intros c' Hc. apply Hps. now right.
    + injection H as <-. eapply on_match_error; [|exact E].
      apply Hps. now left.
Qed.

Lemma captured_unit_label (input : jsstring) (c : Regex.captures) :
  In (Regex.Match c) (Regex.pieces Duration.PARSE_REGEX input) ->
  In (toLowerCase (Duration.group 2 c)) Spec.unit_labels.
Proof.
  intros H. destruct (pieces_from_sound _ _ _ _ H) as [w Hm].
  destruct (PARSE_REGEX_captures _ _ Hm) as (w1 & w2 & -> & _ & Hu).
  exact Hu.
Qed.

(** C8.  For every input, the unit text of every match, put in lower case,
    is one of [ms], [s], [m], [h], [d], [w], [mo], [y]; the lookup succeeds
    on each of these; and so [parse] never throws [UnsupportedUnit],
    whatever the options. *)
Theorem parse_never_unsupported_unit (input : jsstring)
    (options : Duration.ParseOptions) :
  (forall c, In (Regex.Match c) (Regex.pieces Duration.PARSE_REGEX input) ->
             In (toLowerCase (Duration.group 2 c)) Spec.unit_labels)
  /\ (forall u, In u Spec.unit_labels ->
                exists r, Duration.unitToMilliseconds u = Duration.Ok r)
  /\ (forall u, Duration.parse input options
                <> Duration.Throw (Duration.UnsupportedUnit u)).
Proof.
  split; [apply captured_unit_label|].
  split; [apply unitToMilliseconds_labels|].
  intros u H. unfold Duration.parse in H.
  destruct (List.length (trim input) =? 0)%nat; [discriminate|].
  destruct (Duration.replace_loop _ _ _) as [st|e] eqn:E; simpl in H.
  - destruct (negb (Duration.matched st)); [discriminate|].
    destruct (_ && _); discriminate.
  - injection H as ->.
    destruct (replace_loop_error _ _ (captured_unit_label input) _ _ E)
      as [u' Hu'].
    discriminate.
Qed.

(** ** Signs of results *)

Section Signs.
Import Exact.
Variables prec emax : Z.

Lemma shr_1_nonneg (mrs : shr_record) :
  0 <= shr_m mrs -> 0 <= shr_m (shr_1 mrs).
Proof.
  destruct mrs as [m r s]; simpl.
  destruct m as [|p|p]; try destruct p; simpl; lia.
Qed.

Lemma iter_pos_invariant {A : Type} (P : A -> Prop) (f : A -> A) :
  (forall x, P x -> P (f x)) ->
  forall (p : positive) (x : A), P x -> P (iter_pos f p x).
Proof.
  intros Hf. induction p as [p IH|p IH|]; simpl; intros x Hx; auto.
Qed.

Lemma shr_nonneg (mrs : shr_record) (e n : Z) :
  0 <= shr_m mrs -> 0 <= shr_m (fst (shr mrs e n)).
Proof.
  intros H. destruct n; simpl; auto.
  apply (iter_pos_invariant (fun x => 0 <= shr_m x)); auto using shr_1_nonneg.
Qed.

Lemma shr_fexp_nonneg (m e : Z) (l : location) :
  0 <= m -> 0 <= shr_m (fst (shr_fexp prec emax m e l)).
Proof.
  intros H. unfold shr_fexp. apply shr_nonneg.
  destruct l as [|[]]; simpl; auto.
Qed.

Lemma round_nearest_even_nonneg (m : Z) (l : location) :
  0 <= m -> 0 <= round_nearest_even m l.
Proof.
  intros H. destruct l as [|[]]; simpl; try destruct (Z.even m); lia.
Qed.

(** Rounding a non-negative mantissa gives a number of the sign asked for:
    never [NaN]. *)
Lemma binary_round_aux_sign (s : bool) (m e : Z) (l : location) :
  0 <= m -> has_sign s (binary_round_aux prec emax s m e l) = true.
Proof.
  intros H. unfold binary_round_aux.
  pose proof (shr_fexp_nonneg m e l H) as H1.
  destruct (shr_fexp prec emax m e l) as [mrs' e'] eqn:E1. simpl in H1.
  pose proof (shr_fexp_nonneg _ e' loc_Exact
                (round_nearest_even_nonneg _ (loc_of_shr_record mrs') H1)) as H2.
  destruct (shr_fexp prec emax _ e' loc_Exact) as [mrs'' e''] eqn:E2.
  simpl in H2.
  destruct (shr_m mrs'') as [|q|q]; simpl.
  - apply eqb_reflx.
  - destruct (e'' <=? emax - prec); simpl; apply eqb_reflx.
  - lia.
Qed.

Lemma SFdiv_sign (sx sy : bool) (mx my : positive) (ex ey : Z) :
  has_sign (xorb sx sy)
    (SFdiv prec emax (S754_finite sx mx ex) (S754_finite sy my ey)) = true.
Proof.
  simpl. unfold SFdiv_core_binary.
  match goal with |- context [Z.div_eucl ?a ?b] =>
    pose proof (Z.div_eucl_eq a b ltac:(lia)) as Hq;
    pose proof (Z.mod_pos_bound a b ltac:(lia)) as Hr;
    assert (Ha : 0 <= a);
    [| unfold Z.modulo in Hr; destruct (Z.div_eucl a b) as [q r] ]
  end.
  - destruct (_ - _ - _) eqn:E; try lia. rewrite Z.shiftl_mul_pow2 by lia.
    apply Z.mul_nonneg_nonneg; [lia|]. apply Z.pow_nonneg. lia.
  - apply binary_round_aux_sign. nia.
Qed.

Lemma SFmul_sign (x y : spec_float) (my : positive) (ey : Z) :
  has_sign false x = true -> y = S754_finite false my ey ->
  has_sign false (SFmul prec emax x y) = true.
Proof.
  intros Hx ->. destruct x as [s|s| |s m e]; simpl in *; try discriminate;
    destruct s; try discriminate; try reflexivity.
  apply binary_round_aux_sign. lia.
Qed.

Lemma binary_round_sign (s : bool) (m : positive) (e : Z) :
  has_sign s (binary_round prec emax s m e) = true.
Proof.
  unfold binary_round. destruct (shl_align _ _ _) as [mz ez].
  apply binary_round_aux_sign. lia.
Qed.

Lemma SFadd_sign (x y : spec_float) :
  has_sign false x = true -> has_sign false y = true ->
  has_sign false (SFadd prec emax x y) = true.
Proof.
  destruct x as [sx|sx| |sx mx ex], y as [sy|sy| |sy my ey]; simpl;
    try discriminate; destruct sx; try discriminate;
    destruct sy; try discriminate; intros _ _; try reflexivity.
  unfold cond_Zopp, binary_normalize.
  destruct (_ + _) eqn:E; try lia; try reflexivity.
  apply binary_round_sign.
Qed.

End Signs.

(** ** [parse] never gives a negative duration *)

Lemma of_decimal_sign (d e : Z) :
  Exact.has_sign false (of_decimal d e) = true.
Proof.
  unfold of_decimal, of_ratio. destruct d; try reflexivity.
  destruct (0 <=? e); apply (SFdiv_sign prec emax false false).
Qed.

Lemma is_digit_bounds (x : code_unit) :
  is_digit x = true -> (48 <= x <= 57)%N.
Proof.
  unfold is_digit. rewrite andb_true_iff, !N.leb_le. auto.
Qed.

Lemma starts_with_head (a x : code_unit) (pre t : jsstring) :
  a <> x -> starts_with (a :: pre) (x :: t) = None.
Proof.
  intros H. cbn [starts_with]. destruct (N.eqb_spec a x); congruence.
Qed.

(** The numeric text of a match starts with a digit, so that [parseFloat]
    reads an unsigned decimal literal from it. *)
Lemma parseFloat_digit (x : code_unit) (t : jsstring) :
  is_digit x = true ->
  Exact.has_sign false (parseFloat (x :: t)) = true.
Proof.
  intros Hx. pose proof (is_digit_bounds x Hx) as Hb.
  unfold parseFloat.
  assert (Hsp : is_space x = false).
  { unfold is_space.
    repeat match goal with
    | |- context [(?a <=? ?b)%N] => destruct (N.leb_spec a b); try lia
    | |- context [(?a =? ?b)%N] => destruct (N.eqb_spec a b); try lia
    end; reflexivity. }
  simpl trimStart. rewrite Hsp. unfold StrDecimalLiteral.
  destruct (N.eqb_spec x 45); [lia|]. destruct (N.eqb_spec x 43); [lia|].
  unfold StrUnsignedDecimalLiteral.
  change (js "Infinity") with (73%N :: js "nfinity").
  rewrite starts_with_head by lia.
  cbn [span]. rewrite Hx. destruct (span is_digit t) as [a b].
  match goal with
  | |- context [match ?m with (fp, s2) => _ end] => destruct m as [fp s2]
  end.
  destruct (exponent_part s2) as [ex rest].
  destruct fp; apply of_decimal_sign.
Qed.

Lemma unitToMilliseconds_positive (u : jsstring) (r : number) :
  Duration.unitToMilliseconds u = Duration.Ok r ->
  exists m e, r = S754_finite false m e.
Proof.
  unfold Duration.unitToMilliseconds.
  repeat match goal with
  | |- context [if ?b then _ else _] => destruct b
  end; intros H; try discriminate; injection H as <-;
    vm_compute; eauto.
Qed.

Lemma on_match_sign (strict : bool) (st st' : Duration.parse_state)
    (c : Regex.captures) :
  (exists x t, Duration.group 1 c = x :: t /\ is_digit x = true) ->
  Exact.has_sign false (Duration.totalMilliseconds st) = true ->
  Duration.on_match strict st c = Duration.Ok st' ->
  Exact.has_sign false (Duration.totalMilliseconds st') = true.
Proof.
  intros (x & t & Hg & Hx) Hst. unfold Duration.on_match.
  destruct (strict && _); [discriminate|].
  destruct (Duration.unitToMilliseconds _) as [r|e] eqn:E; simpl;
    [|discriminate].
  intros H; injection H as <-. simpl.
  destruct (unitToMilliseconds_positive _ _ E) as (m & e & ->).
  apply SFadd_sign; [assumption|].
  eapply SFmul_sign; [|reflexivity].
  rewrite Hg. now apply parseFloat_digit.
Qed.

Lemma replace_loop_sign (strict : bool) (ps : list Regex.piece) :
  (forall c, In (Regex.Match c) ps ->
             exists x t, Duration.group 1 c = x :: t /\ is_digit x = true) ->
  forall st st' : Duration.parse_state,
  Exact.has_sign false (Duration.totalMilliseconds st) = true ->
  Duration.replace_loop strict ps st = Duration.Ok st' ->
  Exact.has_sign false (Duration.totalMilliseconds st') = true.
Proof.
  induction ps as [|[x|c] ps IH]; intros Hps st st' Hst H; simpl in H.
  - now injection H as <-.
  - eapply IH; [| |exact H]; [|exact Hst]. intros c Hc. apply Hps. now right.
  - destruct (Duration.on_match strict st c) as [st1|e] eqn:E; simpl in H;
      [|discriminate].
    eapply IH; [| |exact H].
    + intros c' Hc. apply Hps. now right.
    + eapply on_match_sign; [|exact Hst|exact E]. apply Hps. now left.
Qed.

Lemma captured_number_text (input : jsstring) (c : Regex.captures) :
  In (Regex.Match c) (Regex.pieces Duration.PARSE_REGEX input) ->
  exists x t, Duration.group 1 c = x :: t /\ is_digit x = true.
Proof.
  intros H. destruct (pieces_from_sound _ _ _ _ H) as [w Hm].
  destruct (PARSE_REGEX_captures _ _ Hm) as (w1 & w2 & -> & Hd & _).
  exact Hd.
Qed.

Lemma has_sign_false_ge_zero (x : number) :
  Exact.has_sign false x = true ->
  JS.ge x (of_Z 0) = true /\ JS.lt x (of_Z 0) = false /\ is_nan x = false.
Proof.
  destruct x as [s|s| |s m e]; simpl; try discriminate;
    destruct s; try discriminate; intros _; repeat split.
Qed.

(** C9.  Whenever [parse] returns a duration, its millisecond value is
    not [NaN] and not below zero: [d.ms() >= 0] is true and [d.ms() < 0] is
    false.  (The value may be plus infinity.) *)
Theorem parse_nonnegative (input : jsstring) (options : Duration.ParseOptions)
    (d : Duration.t) :
  Duration.parse input options = Duration.Ok d ->
  JS.ge (Duration.ms d) (of_Z 0) = true
  /\ JS.lt (Duration.ms d) (of_Z 0) = false
  /\ is_nan (Duration.ms d) = false.
Proof.
  unfold Duration.parse. intros H.
  destruct (List.length (trim input) =? 0)%nat; [discriminate|].
  destruct (Duration.replace_loop _ _ _) as [st|e] eqn:E; simpl in H;
    [|discriminate].
  destruct (negb (Duration.matched st)); [discriminate|].
  destruct (_ && _); [discriminate|]. injection H as <-.
  apply has_sign_false_ge_zero. unfold Duration.ms. simpl.
  eapply replace_loop_sign; [| |exact E].
  - apply captured_number_text.
  - reflexivity.
Qed.

Lemma parse_nonnegative_witness :
  Duration.parse (js "1h 30m") Duration.no_parse_options
  = Duration.Ok (Duration.Factory.mins (of_Z 90))
  /\ JS.ge (Duration.ms (Duration.Factory.mins (of_Z 90))) (of_Z 0) = true.
Proof.
  split; [vm_compute; reflexivity|].
  apply (parse_nonnegative (js "1h 30m") Duration.no_parse_options
           (Duration.Factory.mins (of_Z 90))).
  vm_compute; reflexivity.
Defined.

(** ** Exact arithmetic on integers of at most 53 binary digits *)

Lemma digits2_pos_size (p : positive) : digits2_pos p = Pos.size p.
Proof. induction p; simpl; congruence. Qed.

Lemma digits_bounds (p : positive) :
  2 ^ (Zpos (digits2_pos p) - 1) <= Zpos p < 2 ^ Zpos (digits2_pos p).
Proof.
  rewrite digits2_pos_size.
  pose proof (Pos.size_gt p) as Hgt. pose proof (Pos.size_le p) as Hle.
  apply Pos2Z.pos_lt_pos in Hgt. apply Pos2Z.pos_le_pos in Hle.
  rewrite Pos2Z.inj_pow in Hgt, Hle. change (Zpos p~0) with (2 * Zpos p) in Hle.
  replace (Zpos (Pos.size p)) with (Zpos (Pos.size p) - 1 + 1) in Hle by lia.
  rewrite Z.pow_add_r in Hle by lia. change (2 ^ 1) with 2 in Hle. lia.
Qed.

Lemma digits_unique (p : positive) (d : Z) :
  2 ^ (d - 1) <= Zpos p < 2 ^ d -> Zpos (digits2_pos p) = d.
Proof.
  intros [Hlo Hhi]. pose proof (digits_bounds p) as [Hlo' Hhi'].
  assert (0 < d).
  { destruct (Z.ltb_spec 0 d); auto.
    assert (2 ^ d <= 2 ^ 0) by (apply Z.pow_le_mono_r; lia).
    change (2 ^ 0) with 1 in *. lia. }
  destruct (Z.lt_trichotomy (Zpos (digits2_pos p)) d) as [Hlt|[Heq|Hgt]]; auto.
  - assert (2 ^ Zpos (digits2_pos p) <= 2 ^ (d - 1))
      by (apply Z.pow_le_mono_r; lia). lia.
  - assert (2 ^ d <= 2 ^ (Zpos (digits2_pos p) - 1))
      by (apply Z.pow_le_mono_r; lia). lia.
Qed.

Lemma digits_shift (p : positive) (j : Z) (m : positive) :
  0 <= j -> Zpos m = Zpos p * 2 ^ j ->
  Zpos (digits2_pos m) = Zpos (digits2_pos p) + j.
Proof.
  intros Hj Hm. apply digits_unique. rewrite Hm.
  pose proof (digits_bounds p) as [Hlo Hhi].
  replace (Zpos (digits2_pos p) + j - 1) with (Zpos (digits2_pos p) - 1 + j)
    by lia.
  rewrite !Z.pow_add_r by lia.
  assert (0 < 2 ^ j) by (apply Z.pow_pos_nonneg; lia). nia.
Qed.

Lemma iter_xO_value (j : nat) (c : positive) :
  Zpos (Nat.iter j xO c) = Zpos c * 2 ^ Z.of_nat j.
Proof.
  induction j as [|j IH].
  - simpl. lia.
  - rewrite Nat2Z.inj_succ, Z.pow_succ_r by lia.
    change (Nat.iter (S j) xO c) with (xO (Nat.iter j xO c)).
    rewrite Pos2Z.inj_xO, IH. lia.
Qed.

Lemma pos_iter_nat {A : Type} (f : A -> A) (p : positive) (x : A) :
  Pos.iter f x p = Nat.iter (Pos.to_nat p) f x.
Proof.
  revert x. induction p as [p IH|p IH|]; intros x; cbn [Pos.iter].
  - rewrite !IH, Pos2Nat.inj_xI.
    change (Nat.iter (S (2 * Pos.to_nat p)) f x)
      with (f (Nat.iter (2 * Pos.to_nat p) f x)).
    f_equal. rewrite <- Nat.iter_add. f_equal. lia.
  - rewrite !IH, Pos2Nat.inj_xO, <- Nat.iter_add. f_equal. lia.
  - reflexivity.
Qed.

Lemma iter_pos_nat {A : Type} (f : A -> A) (p : positive) (x : A) :
  iter_pos f p x = Nat.iter (Pos.to_nat p) f x.
Proof.
  revert x. induction p as [p IH|p IH|]; intros x; cbn [iter_pos].
  - rewrite !IH, Pos2Nat.inj_xI, <- Nat.iter_add, <- Nat.iter_succ_r.
    f_equal. lia.
  - rewrite !IH, Pos2Nat.inj_xO, <- Nat.iter_add. f_equal. lia.
  - reflexivity.
Qed.

Lemma pos_shiftl_value (p : positive) (n : N) :
  Zpos (Pos.shiftl p n) = Zpos p * 2 ^ Z.of_N n.
Proof.
  destruct n as [|n]; simpl.
  - lia.
  - rewrite pos_iter_nat, iter_xO_value, positive_nat_Z. reflexivity.
Qed.

(** Shifting right an exact multiple of a power of two loses nothing. *)
Lemma iter_shr_1_exact (j : nat) (c : positive) :
  Nat.iter j shr_1
    {| shr_m := Zpos (Nat.iter j xO c); shr_r := false; shr_s := false |}
  = {| shr_m := Zpos c; shr_r := false; shr_s := false |}.
Proof.
  induction j as [|j IH]; [reflexivity|].
  rewrite Nat.iter_succ_r.
  change (Nat.iter (S j) xO c) with (xO (Nat.iter j xO c)).
  cbn [shr_1 orb]. exact IH.
Qed.

Lemma shr_exact (m c : positive) (e j : Z) :
  0 <= j -> Zpos m = Zpos c * 2 ^ j ->
  shr {| shr_m := Zpos m; shr_r := false; shr_s := false |} e j
  = ({| shr_m := Zpos c; shr_r := false; shr_s := false |}, e + j).
Proof.
  intros Hj Hm. destruct j as [|j|j]; [| |lia].
  - simpl. f_equal; [|lia]. f_equal. rewrite Z.mul_1_r in Hm. exact Hm.
  - simpl. f_equal. rewrite iter_pos_nat.
    assert (Hmc : m = Nat.iter (Pos.to_nat j) xO c).
    { apply Pos2Z.inj. rewrite iter_xO_value, positive_nat_Z. exact Hm. }
    rewrite Hmc. apply iter_shr_1_exact.
Qed.

Lemma fexp_normal (e : Z) :
  -1074 <= e - 53 -> fexp prec emax e = e - 53.
Proof. unfold fexp, emin, prec, emax. lia. Qed.

(** Rounding is the identity on a mantissa that is a 53-digit one shifted
    left, when the exponent stays in the normal range. *)
Lemma binary_round_aux_exact (s : bool) (m c : positive) (e j : Z) :
  0 <= j -> Zpos m = Zpos c * 2 ^ j ->
  Zpos (digits2_pos c) = 53 -> -1074 <= e + j <= 971 ->
  binary_round_aux prec emax s (Zpos m) e loc_Exact
  = S754_finite s c (e + j).
Proof.
  intros Hj Hm Hc He. unfold binary_round_aux, shr_fexp.
  cbn [Zdigits2 shr_record_of_loc].
  rewrite (digits_shift c j m Hj Hm), Hc, fexp_normal by lia.
  replace (53 + j + e - 53 - e) with j by lia.
  rewrite (shr_exact m c e j Hj Hm).
  cbn [shr_m loc_of_shr_record round_nearest_even Zdigits2 shr_record_of_loc].
  rewrite Hc, fexp_normal by lia.
  replace (53 + (e + j) - 53 - (e + j)) with 0 by lia.
  cbn [shr shr_m]. unfold emax, prec.
  destruct (Z.leb_spec (e + j) (1024 - 53)); [reflexivity|lia].
Qed.

Lemma canon_digits (p : positive) :
  Zpos (digits2_pos p) <= 53 ->
  Zpos (digits2_pos (Pos.shiftl p (Z.to_N (prec - Zpos (digits2_pos p))))) = 53.
Proof.
  intros Hd.
  rewrite (digits_shift p (53 - Zpos (digits2_pos p))); try lia.
  rewrite pos_shiftl_value, Z2N.id by (unfold prec; lia). reflexivity.
Qed.

(** The closed form of the number of an integer of at most 53 digits. *)
Lemma binary_round_canon (s : bool) (p : positive) :
  Zpos (digits2_pos p) <= 53 ->
  binary_round prec emax s p 0 = Exact.canon s p.
Proof.
  intros Hd. unfold binary_round, Exact.canon.
  pose proof (canon_digits p Hd) as Hc.
  set (d := Zpos (digits2_pos p)) in *.
  rewrite Z.add_0_r, fexp_normal by lia.
  unfold shl_align. rewrite Z.sub_0_r.
  assert (Hd1 : 1 <= d) by (unfold d; lia).
  destruct (d - 53) as [|q|q] eqn:E.
  - replace (prec - d) with 0 by (unfold prec; lia). simpl Pos.shiftl.
    replace (d - prec) with (0 + 0) by (unfold prec; lia).
    assert (Hp : Zpos (digits2_pos p) = 53) by (fold d; lia).
    apply binary_round_aux_exact; try lia.
  - lia.
  - replace (prec - d) with (Zpos q) in * by (unfold prec; lia).
    simpl Z.to_N in *. cbn [Pos.shiftl] in *.
    replace (d - prec) with (Zneg q + 0) by (unfold prec; lia).
    apply binary_round_aux_exact; try lia.
Qed.

Lemma of_Z_pos (p : positive) :
  Zpos (digits2_pos p) <= 53 -> of_Z (Zpos p) = Exact.canon false p.
Proof. apply binary_round_canon. Qed.

Lemma of_Z_neg (p : positive) :
  Zpos (digits2_pos p) <= 53 -> of_Z (Zneg p) = Exact.canon true p.
Proof. apply binary_round_canon. Qed.

Lemma digits_small (p : positive) :
  Zpos p < 2 ^ 53 <-> Zpos (digits2_pos p) <= 53.
Proof.
  pose proof (digits_bounds p) as [Hlo Hhi]. split; intros H.
  - destruct (Z.leb_spec (Zpos (digits2_pos p)) 53); auto.
    assert (2 ^ 53 <= 2 ^ (Zpos (digits2_pos p) - 1))
      by (apply Z.pow_le_mono_r; lia). lia.
  - assert (2 ^ Zpos (digits2_pos p) <= 2 ^ 53)
      by (apply Z.pow_le_mono_r; lia). lia.
Qed.

Lemma digits_mul_bounds (p q : positive) :
  Zpos (digits2_pos p) + Zpos (digits2_pos q) - 1
  <= Zpos (digits2_pos (p * q))
  <= Zpos (digits2_pos p) + Zpos (digits2_pos q).
Proof.
  pose proof (digits_bounds p) as [Hp Hp'].
  pose proof (digits_bounds q) as [Hq Hq'].
  pose proof (digits_bounds (p * q)) as [Hpq Hpq'].
  rewrite Pos2Z.inj_mul in Hpq, Hpq'.
  set (dp := Zpos (digits2_pos p)) in *. set (dq := Zpos (digits2_pos q)) in *.
  set (d := Zpos (digits2_pos (p * q))) in *.
  assert (1 <= dp) by (unfold dp; lia). assert (1 <= dq) by (unfold dq; lia).
  assert (1 <= d) by (unfold d; lia).
  assert (Hlo : 2 ^ (dp - 1 + (dq - 1)) <= Zpos p * Zpos q)
    by (rewrite Z.pow_add_r by lia; nia).
  assert (Hhi : Zpos p * Zpos q < 2 ^ (dp + dq))
    by (rewrite Z.pow_add_r by lia; nia).
  split.
  - destruct (Z.leb_spec (dp + dq - 1) d); auto.
    assert (2 ^ d <= 2 ^ (dp - 1 + (dq - 1))) by (apply Z.pow_le_mono_r; lia).
    lia.
  - destruct (Z.leb_spec d (dp + dq)); auto.
    assert (2 ^ (dp + dq) <= 2 ^ (d - 1)) by (apply Z.pow_le_mono_r; lia).
    lia.
Qed.

Lemma canon_value (p : positive) :
  Zpos (digits2_pos p) <= 53 ->
  Zpos (Pos.shiftl p (Z.to_N (prec - Zpos (digits2_pos p))))
  = Zpos p * 2 ^ (53 - Zpos (digits2_pos p)).
Proof.
  intros H. rewrite pos_shiftl_value, Z2N.id by (unfold prec; lia).
  reflexivity.
Qed.

(** The product of two integers is exact when it has at most 53 digits. *)
Lemma mul_canon (s s' : bool) (p q : positive) :
  Zpos (p * q) < 2 ^ 53 ->
  JS.mul (Exact.canon s p) (Exact.canon s' q) = Exact.canon (xorb s s') (p * q).
Proof.
  intros Hpq. apply digits_small in Hpq.
  pose proof (digits_mul_bounds p q) as [Hlo Hhi].
  assert (Hp : Zpos (digits2_pos p) <= 53) by lia.
  assert (Hq : Zpos (digits2_pos q) <= 53) by lia.
  unfold JS.mul, Exact.canon. cbn [SFmul].
  pose proof (canon_value p Hp) as Vp. pose proof (canon_value q Hq) as Vq.
  pose proof (canon_value (p * q) Hpq) as Vpq.
  pose proof (canon_digits (p * q) Hpq) as Dpq.
  set (dp := Zpos (digits2_pos p)) in *. set (dq := Zpos (digits2_pos q)) in *.
  set (d := Zpos (digits2_pos (p * q))) in *.
  assert (1 <= dp) by (unfold dp; lia). assert (1 <= dq) by (unfold dq; lia).
  replace (d - prec) with (dp - prec + (dq - prec) + (53 - dp - dq + d))
    by (unfold prec; lia).
  apply binary_round_aux_exact; try assumption; try (unfold prec; lia).
  rewrite Pos2Z.inj_mul, Vp, Vq, Vpq, Pos2Z.inj_mul.
  assert (Hpow : 2 ^ (53 - dp) * 2 ^ (53 - dq)
                 = 2 ^ (53 - d) * 2 ^ (53 - dp - dq + d))
    by (rewrite <- !Z.pow_add_r by lia; f_equal; lia).
  transitivity (Zpos p * Zpos q * (2 ^ (53 - dp) * 2 ^ (53 - dq))); [ring|].
  rewrite Hpow. ring.
Qed.

Lemma div_eucl_exact (a b : Z) :
  0 < b -> Z.div_eucl (a * b) b = (a, 0).
Proof.
  intros Hb.
  pose proof (Z.div_mul a b ltac:(lia)) as Hd.
  pose proof (Z.mod_mul a b ltac:(lia)) as Hm.
  unfold Z.div, Z.modulo in Hd, Hm.
  destruct (Z.div_eucl (a * b) b) as [q r]. simpl in *. congruence.
Qed.

(** The quotient of two integers is exact when the division is, and the
    dividend has at most 53 digits. *)
Lemma div_canon (s s' : bool) (p q : positive) :
  Zpos (p * q) < 2 ^ 53 ->
  JS.div (Exact.canon s (p * q)) (Exact.canon s' q)
  = Exact.canon (xorb s s') p.
Proof.
  intros Hpq. apply digits_small in Hpq.
  pose proof (digits_mul_bounds p q) as [Hlo Hhi].
  assert (Hp : Zpos (digits2_pos p) <= 53) by lia.
  assert (Hq : Zpos (digits2_pos q) <= 53) by lia.
  unfold JS.div, Exact.canon. cbn [SFdiv]. unfold SFdiv_core_binary.
  cbn [Zdigits2].
  rewrite (canon_digits (p * q) Hpq), (canon_digits q Hq).
  pose proof (canon_value p Hp) as Vp. pose proof (canon_value q Hq) as Vq.
  pose proof (canon_value (p * q) Hpq) as Vpq.
  pose proof (canon_digits p Hp) as Dp.
  set (dp := Zpos (digits2_pos p)) in *. set (dq := Zpos (digits2_pos q)) in *.
  set (d := Zpos (digits2_pos (p * q))) in *.
  assert (1 <= dp) by (unfold dp; lia). assert (1 <= dq) by (unfold dq; lia).
  assert (1 <= d) by (unfold d; lia).
  replace (53 + (d - prec) - (53 + (dq - prec))) with (d - dq) by lia.
  rewrite fexp_normal by lia.
  replace (Z.min (d - dq - 53) (d - prec - (dq - prec))) with (d - dq - 53)
    by (unfold prec; lia).
  replace (d - prec - (dq - prec) - (d - dq - 53)) with 53 by (unfold prec; lia).
  rewrite Z.shiftl_mul_pow2 by lia. rewrite Vpq, Vq, Pos2Z.inj_mul.
  assert (Hpow : 2 ^ (53 - d) * 2 ^ 53
                 = 2 ^ (53 - d + dq) * 2 ^ (53 - dq))
    by (rewrite <- !Z.pow_add_r by lia; f_equal; lia).
  replace (Zpos p * Zpos q * 2 ^ (53 - d) * 2 ^ 53)
    with (Zpos p * 2 ^ (53 - d + dq) * (Zpos q * 2 ^ (53 - dq)))
    by (transitivity (Zpos p * Zpos q * (2 ^ (53 - d) * 2 ^ 53));
        [rewrite Hpow|]; ring).
  assert (0 < 2 ^ (53 - dq)) by (apply Z.pow_pos_nonneg; lia).
  assert (0 < 2 ^ (53 - d + dq)) by (apply Z.pow_pos_nonneg; lia).
  rewrite div_eucl_exact by nia.
  replace (new_location (Zpos q * 2 ^ (53 - dq)) 0) with loc_Exact
    by (unfold new_location, new_location_even, new_location_odd;
        destruct (Z.even _); reflexivity).
  destruct (Zpos p * 2 ^ (53 - d + dq)) as [|m|m] eqn:Em; try nia.
  replace (dp - prec) with (d - dq - 53 + (dp + dq - d)) by (unfold prec; lia).
  apply binary_round_aux_exact; try assumption; try lia.
  rewrite Vp, <- Em.
  replace (53 - d + dq) with (53 - dp + (dp + dq - d)) by lia.
  rewrite Z.pow_add_r by lia. ring.
Qed.

(** Rounding an integer of at most 53 digits that is written with trailing
    zero bits. *)
Lemma binary_round_shifted (s : bool) (m p : positive) (k : Z) :
  0 <= k -> Zpos m = Zpos p * 2 ^ k -> Zpos (digits2_pos p) <= 53 ->
  binary_round prec emax s m (- k) = Exact.canon s p.
Proof.
  intros Hk Hm Hp. unfold binary_round, Exact.canon.
  pose proof (canon_digits p Hp) as Dp. pose proof (canon_value p Hp) as Vp.
  rewrite (digits_shift p k m Hk Hm).
  set (d := Zpos (digits2_pos p)) in *.
  assert (1 <= d) by (unfold d; lia).
  replace (d + k + - k) with d by lia. rewrite fexp_normal by lia.
  unfold shl_align.
  destruct (d - 53 - - k) as [|j|j] eqn:E.
  - replace (d - prec) with (- k + (k - (53 - d))) by (unfold prec; lia).
    apply binary_round_aux_exact; try assumption; try lia.
    rewrite Vp, Hm. replace k with (53 - d) at 1 by lia.
    replace (k - (53 - d)) with 0 by lia. lia.
  - replace (d - prec) with (- k + (k - (53 - d))) by (unfold prec; lia).
    apply binary_round_aux_exact; try assumption; try lia.
    rewrite Vp, Hm. replace k with (53 - d + (k - (53 - d))) at 1 by lia.
    rewrite Z.pow_add_r by lia. ring.
  - replace (d - prec) with (d - 53 + 0) by (unfold prec; lia).
    assert (Hv : Zpos (Pos.iter xO m j)
                 = Zpos (Pos.shiftl p (Z.to_N (prec - d)))).
    { rewrite pos_iter_nat, iter_xO_value, positive_nat_Z, Vp, Hm.
      replace (53 - d) with (k + Zpos j) by lia.
      rewrite Z.pow_add_r by lia. ring. }
    apply Pos2Z.inj in Hv. rewrite Hv.
    apply binary_round_aux_exact; try assumption; try lia.
Qed.

Lemma binary_normalize_shifted (n k : Z) :
  0 <= k -> Exact.small n ->
  binary_normalize prec emax (n * 2 ^ k) (- k) false = of_Z n.
Proof.
  intros Hk Hn. unfold Exact.small in Hn.
  assert (0 < 2 ^ k) by (apply Z.pow_pos_nonneg; lia).
  destruct n as [|p|p].
  - reflexivity.
  - destruct (Zpos p * 2 ^ k) as [|m|m] eqn:E; try nia.
    unfold binary_normalize. rewrite (binary_round_shifted false m p k); auto.
    + symmetry. apply of_Z_pos. apply digits_small. exact Hn.
    + apply digits_small. exact Hn.
  - destruct (Zneg p * 2 ^ k) as [|m|m] eqn:E; try nia.
    unfold binary_normalize. rewrite (binary_round_shifted true m p k); auto.
    + symmetry. apply of_Z_neg. apply digits_small. exact Hn.
    + lia.
    + apply digits_small. exact Hn.
Qed.

Lemma shl_align_value (mx : positive) (ex ez : Z) :
  ez <= ex ->
  Zpos (fst (shl_align mx ex ez)) = Zpos mx * 2 ^ (ex - ez).
Proof.
  intros H. unfold shl_align. destruct (ez - ex) as [|d|d] eqn:E; try lia.
  - replace (ex - ez) with 0 by lia. simpl. lia.
  - simpl fst. rewrite pos_iter_nat, iter_xO_value, positive_nat_Z.
    f_equal. f_equal. lia.
Qed.

(** The mantissa of a canonical integer, aligned to an exponent [ez]. *)
Lemma canon_aligned (s : bool) (p : positive) (ez : Z) :
  Zpos (digits2_pos p) <= 53 -> ez <= Zpos (digits2_pos p) - 53 ->
  cond_Zopp s
    (Zpos (fst (shl_align (Pos.shiftl p (Z.to_N (prec - Zpos (digits2_pos p))))
                  (Zpos (digits2_pos p) - prec) ez)))
  = cond_Zopp s (Zpos p) * 2 ^ (- ez).
Proof.
  intros Hp Hez. rewrite shl_align_value by (unfold prec; lia).
  rewrite (canon_value p Hp).
  set (d := Zpos (digits2_pos p)) in *. assert (1 <= d) by (unfold d; lia).
  replace (- ez) with (53 - d + (d - prec - ez)) by (unfold prec; lia).
  rewrite Z.pow_add_r by (unfold prec; lia).
  destruct s; unfold cond_Zopp; ring.
Qed.

Lemma add_canon (sa sb : bool) (pa pb : positive) :
  Zpos (digits2_pos pa) <= 53 -> Zpos (digits2_pos pb) <= 53 ->
  Exact.small (cond_Zopp sa (Zpos pa) + cond_Zopp sb (Zpos pb)) ->
  JS.add (Exact.canon sa pa) (Exact.canon sb pb)
  = of_Z (cond_Zopp sa (Zpos pa) + cond_Zopp sb (Zpos pb)).
Proof.
  intros Ha Hb Hs. unfold JS.add, Exact.canon. cbn [SFadd].
  set (ez := Z.min _ _).
  assert (Hez : ez <= 0) by (unfold ez, prec; lia).
  rewrite !canon_aligned by (unfold ez, prec; lia).
  rewrite <- Z.mul_add_distr_r.
  replace ez with (- - ez) at 2 by lia.
  apply binary_normalize_shifted; [lia|assumption].
Qed.

Lemma sub_canon (sa sb : bool) (pa pb : positive) :
  Zpos (digits2_pos pa) <= 53 -> Zpos (digits2_pos pb) <= 53 ->
  Exact.small (cond_Zopp sa (Zpos pa) - cond_Zopp sb (Zpos pb)) ->
  JS.sub (Exact.canon sa pa) (Exact.canon sb pb)
  = of_Z (cond_Zopp sa (Zpos pa) - cond_Zopp sb (Zpos pb)).
Proof.
  intros Ha Hb Hs. unfold JS.sub, Exact.canon. cbn [SFsub].
  set (ez := Z.min _ _).
  assert (Hez : ez <= 0) by (unfold ez, prec; lia).
  rewrite !canon_aligned by (unfold ez, prec; lia).
  rewrite <- Z.mul_sub_distr_r.
  replace ez with (- - ez) at 2 by lia.
  apply binary_normalize_shifted; [lia|assumption].
Qed.

Lemma of_Z_cases (n : Z) :
  Exact.small n ->
  (n = 0 /\ of_Z n = S754_zero false)
  \/ (exists s p, n = cond_Zopp s (Zpos p) /\ Zpos (digits2_pos p) <= 53
                  /\ of_Z n = Exact.canon s p).
Proof.
  unfold Exact.small. intros H. destruct n as [|p|p].
  - left. split; reflexivity.
  - right. exists false, p. assert (Zpos (digits2_pos p) <= 53)
      by (apply digits_small; lia).
    repeat split; auto. now apply of_Z_pos.
  - right. exists true, p. assert (Zpos (digits2_pos p) <= 53)
      by (apply digits_small; lia).
    repeat split; auto. now apply of_Z_neg.
Qed.

Lemma cond_Zopp_negb (s : bool) (m : Z) :
  cond_Zopp (negb s) m = - cond_Zopp s m.
Proof. destruct s; simpl; lia. Qed.

Lemma small_opp (n : Z) : Exact.small n -> Exact.small (- n).
Proof. unfold Exact.small. lia. Qed.

Lemma of_Z_canon (s : bool) (p : positive) :
  Zpos (digits2_pos p) <= 53 -> of_Z (cond_Zopp s (Zpos p)) = Exact.canon s p.
Proof. destruct s; [apply of_Z_neg|apply of_Z_pos]. Qed.

(** Sums and differences of integers are exact when they, too, have at
    most 53 digits. *)
Lemma add_of_Z (a b : Z) :
  Exact.small a -> Exact.small b -> Exact.small (a + b) ->
  JS.add (of_Z a) (of_Z b) = of_Z (a + b).
Proof.
  intros Ha Hb Hab.
  destruct (of_Z_cases a Ha) as [[-> Ea]|(sa & pa & -> & Da & Ea)];
    destruct (of_Z_cases b Hb) as [[-> Eb]|(sb & pb & -> & Db & Eb)];
    rewrite ?Ea, ?Eb.
  - reflexivity.
  - rewrite Z.add_0_l, of_Z_canon by assumption. reflexivity.
  - rewrite Z.add_0_r, of_Z_canon by assumption. reflexivity.
  - now apply add_canon.
Qed.

Lemma sub_of_Z (a b : Z) :
  Exact.small a -> Exact.small b -> Exact.small (a - b) ->
  JS.sub (of_Z a) (of_Z b) = of_Z (a - b).
Proof.
  intros Ha Hb Hab.
  destruct (of_Z_cases a Ha) as [[-> Ea]|(sa & pa & -> & Da & Ea)];
    destruct (of_Z_cases b Hb) as [[-> Eb]|(sb & pb & -> & Db & Eb)];
    rewrite ?Ea, ?Eb.
  - reflexivity.
  - rewrite Z.sub_0_l, <- cond_Zopp_negb, of_Z_canon by assumption.
    reflexivity.
  - rewrite Z.sub_0_r, of_Z_canon by assumption. reflexivity.
  - now apply sub_canon.
Qed.

(** Products by a positive integer, and exact quotients by it. *)
Lemma mul_of_Z (a : Z) (r : positive) :
  Zpos r < 2 ^ 53 -> Exact.small (a * Zpos r) ->
  JS.mul (of_Z a) (of_Z (Zpos r)) = of_Z (a * Zpos r).
Proof.
  unfold Exact.small. intros Hr0 H.
  assert (Hr : Zpos (digits2_pos r) <= 53) by (apply digits_small; nia).
  rewrite (of_Z_pos r Hr).
  destruct a as [|p|p].
  - reflexivity.
  - assert (Hp : Zpos (digits2_pos p) <= 53) by (apply digits_small; nia).
    rewrite (of_Z_pos p Hp), mul_canon by (rewrite Pos2Z.inj_mul; lia).
    symmetry. apply (of_Z_pos (p * r)). apply digits_small.
    rewrite Pos2Z.inj_mul. lia.
  - assert (Hp : Zpos (digits2_pos p) <= 53) by (apply digits_small; nia).
    rewrite (of_Z_neg p Hp), mul_canon by (rewrite Pos2Z.inj_mul; lia).
    symmetry. apply (of_Z_neg (p * r)). apply digits_small.
    rewrite Pos2Z.inj_mul. lia.
Qed.

Lemma div_of_Z (a : Z) (r : positive) :
  Zpos r < 2 ^ 53 -> Exact.small (a * Zpos r) ->
  JS.div (of_Z (a * Zpos r)) (of_Z (Zpos r)) = of_Z a.
Proof.
  unfold Exact.small. intros Hr0 H.
  assert (Hr : Zpos (digits2_pos r) <= 53) by (apply digits_small; nia).
  rewrite (of_Z_pos r Hr).
  destruct a as [|p|p].
  - reflexivity.
  - assert (Hp : Zpos (digits2_pos p) <= 53) by (apply digits_small; nia).
    assert (Hpr : Zpos (p * r) < 2 ^ 53) by (rewrite Pos2Z.inj_mul; lia).
    change (Zpos p * Zpos r) with (Zpos (p * r)).
    rewrite of_Z_pos by (apply digits_small; exact Hpr).
    rewrite div_canon by exact Hpr. symmetry. now apply of_Z_pos.
  - assert (Hp : Zpos (digits2_pos p) <= 53) by (apply digits_small; nia).
    assert (Hpr : Zpos (p * r) < 2 ^ 53) by (rewrite Pos2Z.inj_mul; lia).
    change (Zneg p * Zpos r) with (Zneg (p * r)).
    rewrite of_Z_neg by (apply digits_small; exact Hpr).
    rewrite div_canon by exact Hpr. symmetry. now apply of_Z_neg.
Qed.

Lemma strict_eq_refl (x : number) : is_nan x = false -> strict_eq x x = true.
Proof.
  unfold strict_eq, SFeqb.
  destruct x as [s|s| |s m e]; try destruct s; simpl; try discriminate;
    intros _; try reflexivity;
    rewrite Z.compare_refl, Pos.compare_cont_refl; reflexivity.
Qed.

Lemma of_Z_not_nan (n : Z) : Exact.small n -> is_nan (of_Z n) = false.
Proof.
  intros H.
  destruct (of_Z_cases n H) as [[_ ->]|(s & p & _ & _ & ->)]; reflexivity.
Qed.

(** ** Round trips *)

Lemma unit_constants :
  Duration.MS_PER_SECOND = of_Z 1000
  /\ Duration.MS_PER_MINUTE = of_Z 60000
  /\ Duration.MS_PER_HOUR = of_Z 3600000
  /\ Duration.MS_PER_DAY = of_Z 86400000
  /\ Duration.MS_PER_WEEK = of_Z 604800000
  /\ Duration.MS_PER_MONTH = of_Z 2592000000
  /\ Duration.MS_PER_YEAR = of_Z 31536000000.
Proof. repeat split; vm_compute; reflexivity. Qed.

Lemma mul_div_of_Z (k : Z) (r : positive) :
  Zpos r < 2 ^ 53 -> Z.abs k * Zpos r < 2 ^ 53 ->
  JS.div (JS.mul (of_Z k) (of_Z (Zpos r))) (of_Z (Zpos r)) = of_Z k.
Proof.
  intros Hr Hk.
  assert (Hs : Exact.small (k * Zpos r)) by (unfold Exact.small; nia).
  rewrite mul_of_Z, div_of_Z by assumption. reflexivity.
Qed.

(** C5, as amended.  For integers [x] and [y] such that [x], [y] and
    [x + y] are below [2 ^ 53] in absolute value, adding the duration of [y]
    milliseconds to that of [x] and subtracting it again gives a duration
    equal to the first. *)
Theorem add_sub_inverse (x y : Z) :
  Exact.small x -> Exact.small y -> Exact.small (x + y) ->
  let a := Duration.Factory.ms (of_Z x) in
  let b := Duration.Factory.ms (of_Z y) in
  Duration.eq (Duration.sub (Duration.add a b) b) a = true.
Proof.
  intros Hx Hy Hxy. simpl.
  unfold Duration.eq, Duration.sub, Duration.add, Duration.ms,
    Duration.Factory.ms. cbn [Duration.milliseconds].
  rewrite add_of_Z, sub_of_Z by
    (try assumption; replace (x + y - y) with x by lia; assumption).
  replace (x + y - y) with x by lia.
  apply strict_eq_refl. now apply of_Z_not_nan.
Qed.

Lemma add_sub_inverse_witness :
  Duration.eq
    (Duration.sub
       (Duration.add (Duration.Factory.ms (of_Z 1800000))
          (Duration.Factory.ms (of_Z (-900000))))
       (Duration.Factory.ms (of_Z (-900000))))
    (Duration.Factory.ms (of_Z 1800000)) = true.
Proof.
  apply (add_sub_inverse 1800000 (-900000)); vm_compute; reflexivity.
Defined.

(** C5 fails as stated: one millisecond is lost against [2 ^ 53], and a
    tenth of a millisecond against [10 ^ 20]. *)
Lemma add_sub_inverse_fails :
  let a := Duration.Factory.ms (of_Z 1) in
  let b := Duration.Factory.ms (of_Z (2 ^ 53)) in
  let a' := Duration.Factory.ms (of_decimal 1 (-1)) in
  let b' := Duration.Factory.ms (of_decimal 1 20) in
  Duration.eq (Duration.sub (Duration.add a b) b) a = false
  /\ Duration.ms (Duration.sub (Duration.add a b) b) = of_Z 0
  /\ Duration.eq (Duration.sub (Duration.add a' b') b') a' = false.
Proof. vm_compute. repeat split. Qed.

(** ** Rounding to the nearest integer *)













(** ** Formatting *)

Lemma format_loop_whole_counts (units : list (jsstring * number)) :
  forallb (fun u => negb (eqb_string (fst u) (js "ms"))) units = true ->
  forall (remaining : number) (parts : list jsstring),
  Duration.format_loop (units ++ [(js "ms", of_Z 1)]) remaining parts
  = parts
    ++ map (fun c => Number_toString (fst c) ++ snd c)
         (filter (fun c => JS.gt (fst c) (of_Z 0))
            (fst (Spec.whole_counts units remaining)))
    ++ (if JS.gt (snd (Spec.whole_counts units remaining)) (of_Z 0)
        then [Duration.formatNumber
                (snd (Spec.whole_counts units remaining)) ++ js "ms"]
        else []).
Proof.
  induction units as [|[label r] units IH]; intros Hu remaining parts.
  - cbn [app Duration.format_loop Spec.whole_counts fst snd filter map].
    change (eqb_string (js "ms") (js "ms")) with true. cbv iota.
    destruct (JS.gt remaining (of_Z 0)); rewrite ?app_nil_r; reflexivity.
  - simpl in Hu. apply andb_true_iff in Hu. destruct Hu as [Hl Hu].
    apply negb_true_iff in Hl.
    cbn [app Duration.format_loop Spec.whole_counts]. rewrite Hl.
    destruct (JS.gt (Math.floor (JS.div remaining r)) (of_Z 0)) eqn:Hgt.
    + rewrite (IH Hu).
      destruct (Spec.whole_counts units _) as [counts left].
      cbn [fst snd filter map]. rewrite Hgt. cbn [map].
      rewrite <- app_assoc. reflexivity.
    + rewrite (IH Hu).
      destruct (Spec.whole_counts units _) as [counts left].
      cbn [fst snd filter map]. rewrite Hgt. reflexivity.
Qed.

(** The method computes what the specification describes. *)
Lemma format_refines (d : Duration.t) : Duration.format d = Spec.format d.
Proof.
  unfold Duration.format, Spec.format, Spec.segments, Duration.ms.
  destruct (strict_eq _ _); [reflexivity|].
  change Duration.FORMAT_UNITS with (Spec.larger_units ++ [(js "ms", of_Z 1)]).
  rewrite format_loop_whole_counts by reflexivity.
  destruct (Spec.whole_counts _ _) as [counts left]. reflexivity.
Qed.


Lemma format_not_negative (d : Duration.t) :
  JS.lt (Duration.ms d) (of_Z 0) = false ->
  Duration.format (Duration.abs d) = Duration.format d.
Proof.
  destruct d as [x]. unfold Duration.format, Duration.abs, Duration.ms.
  cbn [Duration.milliseconds].
  destruct x as [s|s| |s m e]; try destruct s; try discriminate;
    intros _; reflexivity.
Qed.







(** ** The month label is never read *)

Lemma pieces_from_exec (r : Regex.regex) (c : Regex.captures) :
  forall (s : jsstring) (skip : nat),
  In (Regex.Match c) (Regex.pieces_from r skip s) ->
  exists s' rest, Regex.exec r s' = Some (rest, c).
Proof.
  induction s as [|x s IH]; intros skip H; cbn [Regex.pieces_from] in H.
  - destruct skip; [|contradiction].
    destruct (Regex.exec r []) as [[rest c']|] eqn:E; [|contradiction].
    destruct H as [H|H]; [|contradiction]. injection H as ->. eauto.
  - destruct skip as [|n]; [|eauto].
    destruct (Regex.exec r (x :: s)) as [[rest c']|] eqn:E.
    + destruct (List.length (x :: s) - List.length rest)%nat;
        destruct H as [H|H]; try (injection H as ->); eauto.
      destruct H as [H|H]; [discriminate|eauto].
    + destruct H as [H|H]; [discriminate|eauto].
Qed.

Lemma group_head (i : nat) (w : jsstring) (c : Regex.captures) :
  Duration.group i ((i, w) :: c) = w.
Proof. unfold Duration.group. simpl. now rewrite Nat.eqb_refl. Qed.

(** The alternatives are tried in the order of the pattern, and the match
    of the group for the unit ends the whole match: once [m] has matched,
    [mo] is not tried. *)
Lemma unit_group_not_month (s : jsstring) (c0 c : Regex.captures)
    (rest : jsstring) :
  Regex.run
    (Regex.Group 2
      (Regex.Alt (Regex.word_i "ms") (Regex.Alt (Regex.word_i "s")
      (Regex.Alt (Regex.word_i "m") (Regex.Alt (Regex.word_i "h")
      (Regex.Alt (Regex.word_i "d") (Regex.Alt (Regex.word_i "w")
      (Regex.Alt (Regex.word_i "mo") (Regex.word_i "y")))))))))
    s c0 (fun rest c => Some (rest, c)) = Some (rest, c) ->
  toLowerCase (Duration.group 2 c) <> js "mo".
Proof.
  cbn [Regex.run Regex.word_i Regex.chr_i]. intros H.
  destruct s as [|x t]; [discriminate|].
  repeat match type of H with
  | context [if ?b then _ else _] => destruct b eqn:?
  | context [match ?l with [] => _ | _ :: _ => _ end] => destruct l
  end; try discriminate;
    repeat match type of H with
    | context [firstn (List.length (?a :: ?b :: ?l) - List.length ?l) _] =>
        change (a :: b :: l) with ([a; b] ++ l) in H;
        rewrite firstn_matched in H
    | context [firstn (List.length (?a :: ?l) - List.length ?l) _] =>
        change (a :: l) with ([a] ++ l) in H; rewrite firstn_matched in H
    end;
    injection H as <- <-; rewrite group_head;
    lower_letters; intros E; unfold toLowerCase in E; simpl in E;
    try discriminate E; injection E as E1 E2;
    unfold cu in *; simpl N_of_ascii in *; congruence.
Qed.

(** The last group of a pattern of the shape of [PARSE_REGEX] is run with
    the continuation of the whole match. *)
Lemma run_last_group {R : Type} (a g : Regex.regex) (p : code_unit -> bool)
    (s : jsstring) (c : Regex.captures)
    (k : jsstring -> Regex.captures -> option R) (res : R) :
  Regex.run (Regex.Seq a (Regex.Seq (Regex.Star p) g)) s c k = Some res ->
  exists s2 c2, Regex.run g s2 c2 k = Some res.
Proof.
  cbn [Regex.run]. intros H.
  apply run_sound in H. destruct H as (w1 & s1 & c1 & _ & _ & H).
  apply star_sound in H. destruct H as (w2 & s2 & _ & _ & H). eauto.
Qed.

Lemma captured_unit_not_month (input : jsstring) (c : Regex.captures) :
  In (Regex.Match c) (Regex.pieces Duration.PARSE_REGEX input) ->
  toLowerCase (Duration.group 2 c) <> js "mo".
Proof.
  intros H. destruct (pieces_from_exec _ _ _ _ H) as (s & rest & E).
  unfold Regex.exec, Duration.PARSE_REGEX in E.
  apply run_last_group in E. destruct E as (s2 & c2 & E).
  exact (unit_group_not_month _ _ _ _ E).
Qed.

(** C1 on the code.  On ["1mo"] the pattern takes [m] for the unit, because
    the alternative [m] stands before [mo]; the [o] is left over, and
    [parse] with the default options throws.  When partial input is allowed
    the result is one minute, not thirty days.  On no input at all does a
    match capture the month label. *)
Theorem parse_month_label_rejected :
  (forall input c,
     In (Regex.Match c) (Regex.pieces Duration.PARSE_REGEX input) ->
     toLowerCase (Duration.group 2 c) <> js "mo")
  /\ Regex.pieces Duration.PARSE_REGEX (js "1mo")
  = [Regex.Match [(2%nat, js "m"); (1%nat, js "1")]; Regex.Keep (cu "o")]
  /\ Duration.parse (js "1mo") Duration.no_parse_options
     = Duration.Throw (Duration.UnexpectedTrailingInput (js "o"))
  /\ Duration.parse (js "1mo")
       {| Duration.strict := None; Duration.allowPartial := Some true |}
     = Duration.Ok (Duration.Factory.mins (of_Z 1))
  /\ Duration.Factory.mins (of_Z 1) <> Duration.Factory.months (of_Z 1).
Proof.
  split; [exact captured_unit_not_month|].
  repeat split; try (vm_compute; reflexivity).
  vm_compute. discriminate.
Qed.


(** ** Rounded quotients *)

Lemma shr_fexp_53 (q : positive) (e : Z) (l : location) :
  Zpos (digits2_pos q) = 53 -> -1074 <= e ->
  shr_fexp prec emax (Zpos q) e l = (shr_record_of_loc (Zpos q) l, e).
Proof.
  intros Hq He. unfold shr_fexp. cbn [Zdigits2]. rewrite Hq.
  rewrite fexp_normal by lia. replace (53 + e - 53 - e) with 0 by lia.
  reflexivity.
Qed.

Lemma shr_fexp_54 (q : positive) (e : Z) (l : location) :
  Zpos (digits2_pos q) = 54 -> -1074 <= e + 1 ->
  shr_fexp prec emax (Zpos q) e l
  = (shr_1 (shr_record_of_loc (Zpos q) l), e + 1).
Proof.
  intros Hq He. unfold shr_fexp. cbn [Zdigits2]. rewrite Hq.
  rewrite fexp_normal by lia. replace (54 + e - 53 - e) with 1 by lia.
  reflexivity.
Qed.

(** The second half of rounding, from a mantissa of 53 digits with its round
    and sticky bits: the mantissa or the next one, and the next one only
    when the round bit is set. *)
Lemma round_renormalize (mrs : shr_record) (M0 : positive) (e : Z) :
  shr_m mrs = Zpos M0 -> Zpos (digits2_pos M0) = 53 -> -1074 <= e < 971 ->
  exists M E up,
    (let '(mrs2, e2) :=
       shr_fexp prec emax
         (round_nearest_even (shr_m mrs) (loc_of_shr_record mrs)) e loc_Exact in
     match shr_m mrs2 with
     | Z0 => S754_zero false
     | Zpos m => if e2 <=? emax - prec then S754_finite false m e2
                 else S754_infinity false
     | Zneg _ => S754_nan
     end) = S754_finite false M E
    /\ Zpos (digits2_pos M) = 53
    /\ e <= E /\ Zpos M * 2 ^ (E - e) = Zpos M0 + up
    /\ (up = 0 \/ (up = 1 /\ shr_r mrs = true)).
Proof.
  intros Hm Hq He. rewrite Hm.
  pose proof (digits_bounds M0) as Hb. rewrite Hq in Hb.
  assert (Hcase : exists up,
             round_nearest_even (Zpos M0) (loc_of_shr_record mrs)
             = Zpos M0 + up
             /\ (up = 0 \/ (up = 1 /\ shr_r mrs = true))).
  { destruct mrs as [m [] []]; cbn [loc_of_shr_record round_nearest_even shr_r].
    - exists 1. auto.
    - destruct (Z.even (Zpos M0)); [exists 0|exists 1]; split; auto; lia.
    - exists 0. split; [lia|auto].
    - exists 0. split; [lia|auto]. }
  destruct Hcase as (up & -> & Hup).
  destruct (Zpos M0 + up) as [|m1|m1] eqn:Em; try lia.
  destruct (Z.eq_dec (Zpos m1) (2 ^ 53)) as [Hc|Hc].
  - assert (Hd : Zpos (digits2_pos m1) = 54)
      by (apply digits_unique; rewrite Hc; change (54 - 1) with 53;
          split; [lia|]; apply Z.pow_lt_mono_r; lia).
    rewrite shr_fexp_54 by lia.
    assert (Hm1 : m1 = Pos.shiftl 1 53)
      by (apply Pos2Z.inj; rewrite Hc; reflexivity).
    rewrite Hm1. cbn [shr_record_of_loc shr_1 shr_m Pos.shiftl Pos.iter].
    cbv beta iota.
    destruct (Z.leb_spec (e + 1) (emax - prec)); [|unfold emax, prec in *; lia].
    eexists _, (e + 1), up. split; [reflexivity|]. split; [reflexivity|].
    split; [lia|]. split; auto.
    replace (e + 1 - e) with 1 by lia. rewrite Em, Hc. reflexivity.
  - assert (Hd : Zpos (digits2_pos m1) = 53)
      by (apply digits_unique; change (53 - 1) with 52; lia).
    rewrite shr_fexp_53 by lia. cbn [shr_record_of_loc shr_m].
    destruct (Z.leb_spec e (emax - prec)); [|unfold emax, prec in *; lia].
    exists m1, e, up. split; [reflexivity|]. split; [exact Hd|].
    split; [lia|]. split; auto.
    rewrite Z.sub_diag. lia.
Qed.

(** Rounding a mantissa [q] of 53 or 54 digits, with [sh] the number of
    digits over 53: the result is [q / 2 ^ sh] or the next integer, at the
    exponent [e + sh]; and it is the next integer only from the middle
    upwards. *)
Lemma binary_round_aux_near (q : positive) (e sh : Z) (l : location) :
  (sh = 0 \/ sh = 1) -> Zpos (digits2_pos q) = 53 + sh ->
  -1074 <= e -> e + sh < 971 ->
  exists M E up,
    binary_round_aux prec emax false (Zpos q) e l = S754_finite false M E
    /\ Zpos (digits2_pos M) = 53
    /\ e + sh <= E
    /\ Zpos M * 2 ^ (E - (e + sh)) = Zpos q / 2 ^ sh + up
    /\ (up = 0
        \/ (up = 1 /\ sh = 0 /\ (l = loc_Inexact Eq \/ l = loc_Inexact Gt))
        \/ (up = 1 /\ sh = 1 /\ Z.odd (Zpos q) = true)).
Proof.
  intros [-> | ->] Hq He He'; unfold binary_round_aux.
  - rewrite shr_fexp_53 by lia.
    destruct (round_renormalize (shr_record_of_loc (Zpos q) l) q e)
      as (M & E & up & HR & HD & HE & HM & Hup); try lia.
    { destruct l as [|[]]; reflexivity. }
    exists M, E, up. rewrite HR. rewrite Z.add_0_r, Z.div_1_r.
    repeat split; auto.
    destruct Hup as [Hup|[Hup Hr]]; auto. right. left. repeat split; auto.
    destruct l as [|[]]; try discriminate; auto.
  - rewrite shr_fexp_54 by lia.
    pose proof (digits_bounds q) as Hb. rewrite Hq in Hb.
    change (53 + 1 - 1) with 53 in Hb.
    assert (H2 : 2 ^ 53 = 2 * 2 ^ 52) by reflexivity.
    assert (H3 : 2 ^ (53 + 1) = 2 * 2 ^ 53) by reflexivity.
    assert (H1 : 1 < 2 ^ 53) by reflexivity.
    destruct q as [p|p|]; [| |lia].
    + pose proof (Pos2Z.inj_xI p) as Hx.
      assert (Hp : Zpos (digits2_pos p) = 53)
        by (apply digits_unique; change (53 - 1) with 52; lia).
      destruct (round_renormalize
                  (shr_1 (shr_record_of_loc (Zpos p~1) l)) p (e + 1))
        as (M & E & up & HR & HD & HE & HM & Hup); try lia.
      { destruct l as [|[]]; reflexivity. }
      exists M, E, up. rewrite HR. repeat split; auto.
      * rewrite HM. f_equal. change (2 ^ 1) with 2.
        apply Z.div_unique with 1; lia.
      * destruct Hup as [Hup|[Hup Hr]]; auto.
    + pose proof (Pos2Z.inj_xO p) as Hx.
      assert (Hp : Zpos (digits2_pos p) = 53)
        by (apply digits_unique; change (53 - 1) with 52; lia).
      destruct (round_renormalize
                  (shr_1 (shr_record_of_loc (Zpos p~0) l)) p (e + 1))
        as (M & E & up & HR & HD & HE & HM & Hup); try lia.
      { destruct l as [|[]]; reflexivity. }
      exists M, E, up. rewrite HR. repeat split; auto.
      * rewrite HM. f_equal. change (2 ^ 1) with 2.
        apply Z.div_unique with 0; lia.
      * destruct Hup as [Hup|[Hup Hr]]; auto.
        exfalso. destruct l as [|[]]; discriminate.
Qed.

Lemma div_succ_same (q n : Z) :
  0 < n -> (q + 1) mod n <> 0 -> (q + 1) / n = q / n.
Proof.
  intros Hn Hm.
  pose proof (Z.div_mod (q + 1) n ltac:(lia)) as H1.
  pose proof (Z.mod_pos_bound (q + 1) n Hn) as H2.
  apply Z.div_unique with ((q + 1) mod n - 1); lia.
Qed.

(** The floor of a quotient written with [F] more binary digits than the
    divisor has does not move when the quotient is rounded up by one. *)
Lemma quotient_succ_not_multiple (a b F : Z) :
  0 <= a -> 0 < b < 2 ^ F -> 0 <= F ->
  (a * 2 ^ F / b + 1) mod 2 ^ F <> 0.
Proof.
  intros Ha Hb HF Hm.
  assert (Hp : 0 < 2 ^ F) by (apply Z.pow_pos_nonneg; lia).
  apply Z.mod_divide in Hm; [|lia]. destruct Hm as [j Hj].
  pose proof (Z.div_mod (a * 2 ^ F) b ltac:(lia)) as H1.
  pose proof (Z.mod_pos_bound (a * 2 ^ F) b ltac:(lia)) as H2.
  set (q := a * 2 ^ F / b) in *. set (r := (a * 2 ^ F) mod b) in *.
  assert (H3 : a * 2 ^ F < j * 2 ^ F * b) by nia.
  assert (H4 : a < j * b) by nia.
  assert (H5 : (a + 1) * 2 ^ F <= j * b * 2 ^ F) by nia.
  nia.
Qed.

Lemma div_eucl_div_mod (a b : Z) : Z.div_eucl a b = (a / b, a mod b).
Proof. unfold Z.div, Z.modulo. destruct (Z.div_eucl a b); reflexivity. Qed.

(** ** Rounding to nearest *)









(** ** Exact arithmetic on integers times a power of two *)




(** ** Values as rationals *)



(** ** Round trips through a unit *)

Lemma factory_ratio (u : Spec.unit_name) (v : number) :
  u <> Spec.ms ->
  Spec.factory u v = Duration.Build (JS.mul v (of_Z (Spec.ratio u))).
Proof.
  intros Hu. destruct unit_constants as (H1 & H2 & H3 & H4 & H5 & H6 & H7).
  destruct u; try congruence; cbn [Spec.factory Spec.ratio];
    unfold Duration.Factory.secs, Duration.Factory.mins, Duration.Factory.hrs,
      Duration.Factory.days, Duration.Factory.weeks, Duration.Factory.months,
      Duration.Factory.years; congruence.
Qed.









(** The floor of the rounded quotient of two positive integers of at most
    53 digits is their integer quotient. *)
Lemma floor_div_canon (pa pb : positive) :
  Zpos (digits2_pos pa) <= 53 -> Zpos (digits2_pos pb) <= 53 ->
  Math.floor (JS.div (Exact.canon false pa) (Exact.canon false pb))
  = of_Z (Zpos pa / Zpos pb).
Proof.
  intros Ha Hb.
  unfold JS.div, Exact.canon. cbn [SFdiv]. unfold SFdiv_core_binary.
  cbn [Zdigits2]. rewrite (canon_digits pa Ha), (canon_digits pb Hb).
  pose proof (canon_value pa Ha) as Va. pose proof (canon_value pb Hb) as Vb.
  pose proof (digits_bounds pa) as Ba. pose proof (digits_bounds pb) as Bb.
  set (da := Zpos (digits2_pos pa)) in *. set (db := Zpos (digits2_pos pb)) in *.
  assert (1 <= da) by (unfold da; lia). assert (1 <= db) by (unfold db; lia).
  replace (53 + (da - prec) - (53 + (db - prec))) with (da - db) by lia.
  rewrite fexp_normal by lia.
  replace (Z.min (da - db - 53) (da - prec - (db - prec))) with (da - db - 53)
    by (unfold prec; lia).
  replace (da - prec - (db - prec) - (da - db - 53)) with 53
    by (unfold prec; lia).
  rewrite Z.shiftl_mul_pow2 by lia. rewrite Va, Vb.
  set (F := 53 + db - da). set (a := Zpos pa) in *. set (b := Zpos pb) in *.
  assert (HF : 1 <= F) by (unfold F; lia).
  assert (Hc : 0 < 2 ^ (53 - db)) by (apply Z.pow_pos_nonneg; lia).
  assert (HpF : 0 < 2 ^ F) by (apply Z.pow_pos_nonneg; lia).
  replace (a * 2 ^ (53 - da) * 2 ^ 53) with (a * 2 ^ F * 2 ^ (53 - db)).
  2:{ rewrite <- !Z.mul_assoc. f_equal. rewrite <- !Z.pow_add_r by lia.
      f_equal. unfold F. lia. }
  rewrite div_eucl_div_mod, Z.div_mul_cancel_r by lia.
  assert (Hlo : 2 ^ 52 * b <= a * 2 ^ F).
  { assert (E1 : 2 ^ (da - 1) * 2 ^ F = 2 ^ 52 * 2 ^ db)
      by (rewrite <- !Z.pow_add_r by lia; f_equal; unfold F; lia).
    nia. }
  assert (Hhi : a * 2 ^ F < 2 ^ 54 * b).
  { assert (E1 : 2 ^ da * 2 ^ F = 2 ^ 54 * 2 ^ (db - 1))
      by (rewrite <- !Z.pow_add_r by lia; f_equal; unfold F; lia).
    nia. }
  assert (HbF : b < 2 ^ F).
  { assert (2 ^ db <= 2 ^ F) by (apply Z.pow_le_mono_r; unfold F; lia). lia. }
  pose proof (quotient_succ_not_multiple a b F ltac:(lia) ltac:(lia)
                ltac:(lia)) as Hnm.
  assert (Hab : a * 2 ^ F / b / 2 ^ F = a / b).
  { rewrite Z.div_div by lia.
    rewrite Z.div_mul_cancel_r by lia. reflexivity. }
  assert (Hq : 2 ^ 52 <= a * 2 ^ F / b < 2 ^ 54).
  { split.
    - apply Z.div_le_lower_bound; lia.
    - apply Z.div_lt_upper_bound; lia. }
  destruct (a * 2 ^ F / b) as [|pq|pq] eqn:Eq; try lia.
  set (sh := if Zpos pq <? 2 ^ 53 then 0 else 1).
  assert (Hsh : (sh = 0 \/ sh = 1) /\ Zpos (digits2_pos pq) = 53 + sh).
  { unfold sh. destruct (Z.ltb_spec (Zpos pq) (2 ^ 53)).
    - split; auto. apply digits_unique. change (53 + 0 - 1) with 52. lia.
    - split; auto. apply digits_unique. change (53 + 1 - 1) with 53.
      change (53 + 1) with 54. lia. }
  destruct Hsh as [Hsh Hd].
  destruct (binary_round_aux_near pq (da - db - 53) sh
              (new_location (b * 2 ^ (53 - db))
                 ((a * 2 ^ F * 2 ^ (53 - db)) mod (b * 2 ^ (53 - db))))
              Hsh Hd)
    as (M & E & up & HR & HD & HE & HM & Hup); try lia.
  cbn [xorb]. rewrite HR. clear HR.
  assert (Hsh0 : 0 < 2 ^ sh) by (apply Z.pow_pos_nonneg; lia).
  assert (HFs : 0 < 2 ^ (F - sh)) by (apply Z.pow_pos_nonneg; lia).
  assert (Hfloor : (Zpos pq / 2 ^ sh + up) / 2 ^ (F - sh) = a / b).
  { assert (Hq0 : Zpos pq / 2 ^ sh / 2 ^ (F - sh) = a / b).
    { rewrite Z.div_div by lia.
      rewrite <- Z.pow_add_r by lia. replace (sh + (F - sh)) with F by lia.
      exact Hab. }
    destruct Hup as [->|[(-> & -> & _)|(-> & -> & Hodd)]].
    - rewrite Z.add_0_r. exact Hq0.
    - rewrite <- Hq0. change (2 ^ 0) with 1. rewrite !Z.div_1_r, Z.sub_0_r.
      apply div_succ_same; lia.
    - rewrite <- Hq0. apply div_succ_same; [lia|].
      intros Hm. apply Hnm.
      apply Z.mod_divide in Hm; [|lia]. destruct Hm as [j Hj].
      apply Z.odd_spec in Hodd. destruct Hodd as [k Hk].
      assert (Hk2 : Zpos pq / 2 ^ 1 = k)
        by (symmetry; apply Z.div_unique with 1; change (2 ^ 1) with 2; lia).
      rewrite Hk2 in Hj.
      apply Z.mod_divide; [lia|]. exists j.
      replace F with (F - 1 + 1) at 1 by lia.
      rewrite Z.pow_add_r by lia. change (2 ^ 1) with 2. lia. }
  (* the floor of the result *)
  assert (HE0 : 2 ^ (E - (da - db - 53 + sh)) > 0)
    by (apply Z.lt_gt, Z.pow_pos_nonneg; lia).
  unfold Math.floor. destruct (Z.leb_spec 0 E) as [HEpos|HEneg].
  - (* the result is an integer already *)
    assert (HV : Zpos M * 2 ^ E = a / b).
    { rewrite <- Hfloor, <- HM.
      replace (E - (da - db - 53 + sh)) with (E + (F - sh)) by (unfold F; lia).
      rewrite Z.pow_add_r, Z.mul_assoc, Z.div_mul by lia. reflexivity. }
    pose proof (digits_bounds M) as BM. rewrite HD in BM.
    change (53 - 1) with 52 in BM.
    assert (Hsmall : a / b < 2 ^ 53).
    { apply Z.div_lt_upper_bound; [lia|].
      assert (2 ^ da <= 2 ^ 53) by (apply Z.pow_le_mono_r; lia). nia. }
    assert (E = 0).
    { destruct (Z.eq_dec E 0); auto.
      assert (2 ^ 1 <= 2 ^ E) by (apply Z.pow_le_mono_r; lia).
      change (2 ^ 1) with 2 in *. nia. }
    subst E. rewrite Z.mul_1_r in HV. rewrite <- HV.
    rewrite of_Z_pos by lia. unfold Exact.canon. rewrite HD. reflexivity.
  - cbn [cond_Zopp].
    assert (HV : Zpos M / 2 ^ (- E) = a / b).
    { rewrite <- Hfloor, <- HM.
      replace (F - sh) with (E - (da - db - 53 + sh) + - E) by (unfold F; lia).
      rewrite Z.pow_add_r by lia. rewrite (Z.mul_comm (Zpos M)).
      rewrite Z.div_mul_cancel_l; [reflexivity| |]; apply Z.pow_nonzero; lia. }
    rewrite HV. unfold of_Z_signed.
    destruct (Z.eqb_spec (a / b) 0) as [->|]; reflexivity.
Qed.

(** ** The decomposition of integer magnitudes is exact *)

Lemma floor_div_of_Z (n : Z) (r : positive) :
  0 <= n < 2 ^ 53 -> Zpos r < 2 ^ 53 ->
  Math.floor (JS.div (of_Z n) (of_Z (Zpos r))) = of_Z (n / Zpos r).
Proof.
  intros Hn Hr. apply digits_small in Hr. rewrite (of_Z_pos r Hr).
  destruct n as [|p|p]; try lia.
  - reflexivity.
  - assert (Hp : Zpos (digits2_pos p) <= 53) by (apply digits_small; lia).
    rewrite (of_Z_pos p Hp). now apply floor_div_canon.
Qed.

Lemma gt_of_Z (q : Z) :
  Exact.small q -> JS.gt (of_Z q) (of_Z 0) = (0 <? q).
Proof.
  intros H.
  destruct (of_Z_cases q H) as [[-> ->]|(s & p & -> & _ & ->)];
    [reflexivity|destruct s; reflexivity].
Qed.

Lemma lt_of_Z (q : Z) :
  Exact.small q -> JS.lt (of_Z q) (of_Z 0) = (q <? 0).
Proof.
  intros H.
  destruct (of_Z_cases q H) as [[-> ->]|(s & p & -> & _ & ->)];
    [reflexivity|destruct s; reflexivity].
Qed.

Lemma strict_eq_of_Z (q : Z) :
  Exact.small q -> strict_eq (of_Z q) (of_Z 0) = (q =? 0).
Proof.
  intros H.
  destruct (of_Z_cases q H) as [[-> ->]|(s & p & -> & _ & ->)];
    [reflexivity|destruct s; reflexivity].
Qed.

Lemma abs_of_Z (q : Z) :
  Exact.small q -> Math.abs (of_Z q) = of_Z (Z.abs q).
Proof.
  intros H.
  destruct (of_Z_cases q H) as [[-> ->]|(s & p & -> & Hp & ->)];
    [reflexivity|].
  destruct s; simpl cond_Zopp; simpl Z.abs; rewrite of_Z_pos by assumption;
    reflexivity.
Qed.

Lemma isInteger_of_Z (q : Z) : Exact.small q -> isInteger (of_Z q) = true.
Proof.
  intros H.
  destruct (of_Z_cases q H) as [[-> ->]|(s & p & -> & Hp & ->)];
    [reflexivity|].
  unfold Exact.canon, isInteger. rewrite (canon_value p Hp).
  set (d := Zpos (digits2_pos p)). assert (1 <= d) by (unfold d; lia).
  destruct (0 <=? d - prec); [reflexivity|].
  replace (- (d - prec)) with (53 - d) by (unfold prec; lia).
  rewrite Z.mod_mul; [reflexivity|]. apply Z.pow_nonzero; lia.
Qed.

(** On an integer magnitude below [2 ^ 53] the whole counts that the
    method computes in floating point are the quotients of the integer
    decomposition, and what it leaves is the integer remainder. *)
Lemma whole_counts_greedy (units : list (jsstring * Z)) :
  Forall (fun u => 0 < snd u < 2 ^ 53) units ->
  forall n : Z, 0 <= n < 2 ^ 53 ->
  Spec.whole_counts (map (fun u => (fst u, of_Z (snd u))) units) (of_Z n)
  = (map (fun c => (of_Z (fst c), snd c)) (fst (Spec.greedy units n)),
     of_Z (snd (Spec.greedy units n)))
  /\ Forall (fun c => 0 <= fst c < 2 ^ 53) (fst (Spec.greedy units n))
  /\ 0 <= snd (Spec.greedy units n) < 2 ^ 53.
Proof.
  induction units as [|[label r] units IH]; intros Hu n Hn.
  - simpl. auto.
  - inversion Hu as [|u us Hr Hus]; subst. cbn [snd] in Hr.
    destruct r as [|r|r]; try lia.
    cbn [map fst snd Spec.whole_counts Spec.greedy].
    rewrite floor_div_of_Z by lia.
    pose proof (Z.div_mod n (Zpos r) ltac:(lia)) as Hdm.
    pose proof (Z.mod_pos_bound n (Zpos r) ltac:(lia)) as Hmod.
    pose proof (Z.div_pos n (Zpos r) ltac:(lia) ltac:(lia)) as Hq.
    assert (Hqs : Exact.small (n / Zpos r)) by (unfold Exact.small; nia).
    rewrite gt_of_Z by assumption.
    assert (Hrem : (if 0 <? n / Zpos r
                    then JS.sub (of_Z n)
                           (JS.mul (of_Z (n / Zpos r)) (of_Z (Zpos r)))
                    else of_Z n) = of_Z (n mod Zpos r)).
    { destruct (Z.ltb_spec 0 (n / Zpos r)).
      - rewrite mul_of_Z by (unfold Exact.small; nia).
        rewrite sub_of_Z by (unfold Exact.small; nia).
        f_equal. lia.
      - f_equal. nia. }
    rewrite Hrem.
    destruct (IH Hus (n mod Zpos r) ltac:(lia)) as (E & Hc & Hl).
    rewrite E. destruct (Spec.greedy units (n mod Zpos r)) as [counts left].
    cbn [fst snd map] in *. repeat split; auto; try lia.
    constructor; auto. cbn [fst]. nia.
Qed.

Lemma larger_units_ratios :
  Spec.larger_units
  = map (fun u => (fst u, of_Z (snd u))) Spec.larger_unit_ratios.
Proof. vm_compute. reflexivity. Qed.

Lemma filter_counts (counts : list (Z * jsstring)) :
  Forall (fun c => 0 <= fst c < 2 ^ 53) counts ->
  filter (fun c => JS.gt (fst c) (of_Z 0))
    (map (fun c => (of_Z (fst c), snd c)) counts)
  = map (fun c => (of_Z (fst c), snd c)) (filter (fun c => 0 <? fst c) counts).
Proof.
  induction 1 as [|[q l] counts Hq _ IH]; [reflexivity|].
  cbn [map filter fst snd] in *.
  rewrite gt_of_Z by (unfold Exact.small; lia).
  destruct (0 <? q); cbn [map fst snd]; now rewrite IH.
Qed.

(** The segments of an integer magnitude below [2 ^ 53] are those of its
    integer decomposition. *)
Lemma segments_of_Z (n : Z) :
  0 <= n < 2 ^ 53 -> Spec.segments (of_Z n) = Spec.integer_segments n.
Proof.
  intros Hn. unfold Spec.segments, Spec.integer_segments.
  rewrite larger_units_ratios.
  destruct (whole_counts_greedy Spec.larger_unit_ratios) with (n := n)
    as (E & Hc & Hl); auto.
  { unfold Spec.larger_unit_ratios.
    repeat constructor; cbn [snd]; reflexivity. }
  rewrite E. destruct (Spec.greedy Spec.larger_unit_ratios n) as [counts left].
  cbn [fst snd] in *. rewrite filter_counts by assumption.
  rewrite map_map. cbn [fst snd].
  rewrite gt_of_Z by (unfold Exact.small; lia).
  unfold Duration.formatNumber.
  rewrite isInteger_of_Z by (unfold Exact.small; lia). reflexivity.
Qed.




(** * Further properties of the class *)

(** ** Trimming *)

Lemma trimStart_blank (s : jsstring) :
  trimStart s = [] <-> forallb is_space s = true.
Proof.
  induction s as [|c s IH]; simpl; [tauto|].
  destruct (is_space c); simpl; [exact IH|]. split; discriminate.
Qed.

Lemma trimStart_head (s : jsstring) :
  match trimStart s with
  | [] => True
  | c :: _ => is_space c = false
  end.
Proof.
  induction s as [|c s IH]; simpl; auto.
  destruct (is_space c) eqn:E; auto.
Qed.

Lemma forallb_rev {A : Type} (f : A -> bool) (l : list A) :
  forallb f (rev l) = forallb f l.
Proof.
  induction l as [|a l IH]; simpl; auto.
  rewrite forallb_app, IH. simpl. rewrite andb_true_r. apply andb_comm.
Qed.

Lemma trim_blank (s : jsstring) :
  trim s = [] <-> forallb is_space s = true.
Proof.
  unfold trim, trimEnd. split.
  - intros H. apply (f_equal (@rev _)) in H. rewrite rev_involutive in H.
    simpl in H. apply trimStart_blank in H. rewrite forallb_rev in H.
    pose proof (trimStart_head s) as Hh.
    destruct (trimStart s) as [|c t] eqn:E.
    + now apply trimStart_blank.
    + simpl in H. rewrite Hh in H. discriminate.
  - intros H. apply trimStart_blank in H. rewrite H. reflexivity.
Qed.

Lemma trim_length_blank (s : jsstring) :
  (List.length (trim s) =? 0)%nat = forallb is_space s.
Proof.
  destruct (forallb is_space s) eqn:E.
  - apply trim_blank in E. rewrite E. reflexivity.
  - destruct (trim s) eqn:Et; [|reflexivity].
    apply trim_blank in Et. congruence.
Qed.

(** ** The errors of [parse] *)

Lemma eqb_string_eq (a b : jsstring) : eqb_string a b = true <-> a = b.
Proof.
  revert b. induction a as [|x a IH]; intros [|y b]; simpl;
    try (split; [discriminate|congruence]); [tauto|].
  rewrite andb_true_iff, N.eqb_eq, IH. split; [intros [-> ->]|intros H];
    [reflexivity|injection H; auto].
Qed.

Lemma seen_spec (u : jsstring) (seen : list jsstring) :
  existsb (eqb_string u) seen = true <-> In u seen.
Proof.
  rewrite existsb_exists. split.
  - intros (x & Hx & E). apply eqb_string_eq in E. now subst.
  - intros H. exists u. split; [exact H|now apply eqb_string_eq].
Qed.

Lemma matched_units_labels (ps : list Regex.piece) :
  (forall c, In (Regex.Match c) ps ->
             In (toLowerCase (Duration.group 2 c)) Spec.unit_labels) ->
  Forall (fun u => In u Spec.unit_labels) (Spec.matched_units ps).
Proof.
  induction ps as [|[x|c] ps IH]; intros H; simpl.
  - constructor.
  - apply IH. intros c Hc. apply H. now right.
  - constructor; [apply H; now left|]. apply IH. intros c' Hc. apply H.
    now right.
Qed.

Lemma on_match_outcome (strict : bool) (st : Duration.parse_state)
    (c : Regex.captures) :
  let u := toLowerCase (Duration.group 2 c) in
  In u Spec.unit_labels ->
  (strict = true /\ In u (Duration.seenUnits st)
   /\ Duration.on_match strict st c = Duration.Throw (Duration.DuplicateUnit u))
  \/ ((strict = false \/ ~ In u (Duration.seenUnits st))
      /\ exists st',
           Duration.on_match strict st c = Duration.Ok st'
           /\ Duration.seenUnits st' = u :: Duration.seenUnits st
           /\ Duration.matched st' = true
           /\ Duration.remainder st'
              = (Duration.remainder st ++ js " ")%list).
Proof.
  intros u Hu. unfold Duration.on_match. fold u.
  destruct (unitToMilliseconds_labels u Hu) as [r Hr]. rewrite Hr.
  destruct strict; cbn [andb].
  - destruct (existsb (eqb_string u) (Duration.seenUnits st)) eqn:E.
    + left. apply seen_spec in E. auto.
    + right. split.
      * right. intros H. apply seen_spec in H. congruence.
      * eexists. split; [reflexivity|]. auto.
  - right. split; [now left|]. eexists. split; [reflexivity|]. auto.
Qed.

(** The loop of the replacement goes through when, in strict mode, the
    units of the matches differ from each other and from those seen; it has
    then seen them all. *)
Lemma replace_loop_ok (strict : bool) (ps : list Regex.piece) :
  (forall c, In (Regex.Match c) ps ->
             In (toLowerCase (Duration.group 2 c)) Spec.unit_labels) ->
  forall st : Duration.parse_state,
  (strict = true ->
   NoDup (rev (Duration.seenUnits st) ++ Spec.matched_units ps)) ->
  exists st',
    Duration.replace_loop strict ps st = Duration.Ok st'
    /\ Duration.seenUnits st'
       = (rev (Spec.matched_units ps) ++ Duration.seenUnits st)%list
    /\ Duration.matched st'
       = Duration.matched st
         || negb (List.length (Spec.matched_units ps) =? 0)%nat.
Proof.
  induction ps as [|[x|c] ps IH]; intros Hps st Hnd;
    cbn [Spec.matched_units Duration.replace_loop].
  - exists st. simpl. rewrite orb_false_r. auto.
  - destruct (IH (fun c Hc => Hps c (or_intror Hc))
                {| Duration.seenUnits := Duration.seenUnits st;
                   Duration.matched := Duration.matched st;
                   Duration.totalMilliseconds := Duration.totalMilliseconds st;
                   Duration.remainder := (Duration.remainder st ++ [x])%list |}
                Hnd) as (st' & E & Hs & Hm).
    exists st'. auto.
  - destruct (on_match_outcome strict st c (Hps c (or_introl eq_refl)))
      as [(Hstrict & Hin & _)|(_ & st1 & E1 & Hs1 & Hm1 & _)].
    + exfalso. specialize (Hnd Hstrict). apply NoDup_remove_2 in Hnd.
      apply Hnd. apply in_or_app. left. now apply -> in_rev.
    + rewrite E1. cbn [Duration.bind].
      destruct (IH (fun c' Hc => Hps c' (or_intror Hc)) st1) as (st' & E & Hs & Hm).
      { intros Hstrict. rewrite Hs1. cbn [rev]. rewrite <- app_assoc.
        exact (Hnd Hstrict). }
      exists st'. split; [exact E|]. split.
      * rewrite Hs, Hs1. cbn [rev]. rewrite <- app_assoc. reflexivity.
      * rewrite Hm, Hm1. cbn [List.length Nat.eqb negb]. now rewrite orb_true_r.
Qed.

(** In strict mode it throws [DuplicateUnit] when a unit comes twice. *)
Lemma replace_loop_duplicate (ps : list Regex.piece) :
  (forall c, In (Regex.Match c) ps ->
             In (toLowerCase (Duration.group 2 c)) Spec.unit_labels) ->
  forall st : Duration.parse_state,
  ~ NoDup (rev (Duration.seenUnits st) ++ Spec.matched_units ps) ->
  NoDup (Duration.seenUnits st) ->
  exists u,
    Duration.replace_loop true ps st = Duration.Throw (Duration.DuplicateUnit u)
    /\ In u Spec.unit_labels.
Proof.
  induction ps as [|[x|c] ps IH]; intros Hps st Hd Hseen;
    cbn [Spec.matched_units Duration.replace_loop] in *.
  - exfalso. apply Hd. rewrite app_nil_r. now apply NoDup_rev.
  - apply (IH (fun c Hc => Hps c (or_intror Hc))
              {| Duration.seenUnits := Duration.seenUnits st;
                 Duration.matched := Duration.matched st;
                 Duration.totalMilliseconds := Duration.totalMilliseconds st;
                 Duration.remainder := (Duration.remainder st ++ [x])%list |});
      assumption.
  - pose proof (Hps c (or_introl eq_refl)) as Hu.
    destruct (on_match_outcome true st c Hu)
      as [(_ & _ & E)|([Hf|Hnin] & st1 & E1 & Hs1 & _)]; [|discriminate|].
    + rewrite E. eexists. split; [reflexivity|exact Hu].
    + rewrite E1. cbn [Duration.bind].
      apply (IH (fun c' Hc => Hps c' (or_intror Hc)) st1).
      * rewrite Hs1. cbn [rev]. rewrite <- app_assoc. exact Hd.
      * rewrite Hs1. now constructor.
Qed.

Lemma replace_loop_from_start (strict : bool) (input : jsstring) :
  let ps := Regex.pieces Duration.PARSE_REGEX input in
  let units := Spec.matched_units ps in
  (strict = true /\ ~ NoDup units
   /\ exists u,
        Duration.replace_loop strict ps Spec.initial_state
        = Duration.Throw (Duration.DuplicateUnit u)
        /\ In u Spec.unit_labels)
  \/ ((strict = true -> NoDup units)
      /\ exists st',
           Duration.replace_loop strict ps Spec.initial_state = Duration.Ok st'
           /\ Duration.matched st' = negb (List.length units =? 0)%nat
           /\ Duration.seenUnits st' = rev units).
Proof.
  intros ps units.
  destruct (ListDec.NoDup_dec (list_eq_dec N.eq_dec) units) as [Hnd|Hnd].
  - right. split; [auto|].
    destruct (replace_loop_ok strict ps (captured_unit_label input)
                Spec.initial_state (fun _ => Hnd)) as (st' & E & Hs & Hm).
    exists st'. fold units in Hs, Hm. simpl in Hs, Hm.
    rewrite app_nil_r in Hs. auto.
  - destruct strict.
    + left. repeat split; auto.
      apply (replace_loop_duplicate ps (captured_unit_label input)
               Spec.initial_state); [exact Hnd|constructor].
    + right. split; [discriminate|].
      destruct (replace_loop_ok false ps (captured_unit_label input)
                  Spec.initial_state) as (st' & E & Hs & Hm); [discriminate|].
      exists st'. fold units in Hs, Hm. simpl in Hs, Hm.
      rewrite app_nil_r in Hs. auto.
Qed.

Lemma parse_unfold (input : jsstring) (options : Duration.ParseOptions) :
  Duration.parse input options
  = if forallb is_space input then Duration.Throw Duration.EmptyInput
    else
      Duration.bind
        (Duration.replace_loop (Duration.default true (Duration.strict options))
           (Regex.pieces Duration.PARSE_REGEX input) Spec.initial_state)
        (fun st =>
           if negb (Duration.matched st)
           then Duration.Throw Duration.NoTokensFound
           else if negb (Duration.default false (Duration.allowPartial options))
                   && (0 <? List.length (trim (Duration.remainder st)))%nat
           then Duration.Throw
                  (Duration.UnexpectedTrailingInput
                     (trim (Duration.remainder st)))
           else Duration.Ok (Duration.Build (Duration.totalMilliseconds st))).
Proof.
  unfold Duration.parse. rewrite trim_length_blank. reflexivity.
Qed.

(** X1.  [parse] throws the error of the empty string exactly on the
    inputs that hold nothing but white space, whatever the options. *)
Theorem parse_empty_iff_blank (input : jsstring)
    (options : Duration.ParseOptions) :
  Duration.parse input options = Duration.Throw Duration.EmptyInput
  <-> forallb is_space input = true.
Proof.
  rewrite parse_unfold. split.
  - destruct (forallb is_space input); [reflexivity|]. intros H. exfalso.
    destruct (replace_loop_from_start
                (Duration.default true (Duration.strict options)) input)
      as [(_ & _ & u & E & _)|(_ & st' & E & _)];
      rewrite E in H; cbn [Duration.bind] in H; [discriminate|].
    destruct (negb (Duration.matched st')); [discriminate|].
    destruct (_ && _); discriminate.
  - intros ->. reflexivity.
Qed.

(** ** [parse] in two phases *)

Lemma replace_loop_eq (strict : bool) (ps : list Regex.piece) :
  (forall c, In (Regex.Match c) ps ->
             In (toLowerCase (Duration.group 2 c)) Spec.unit_labels) ->
  forall st : Duration.parse_state,
  Duration.replace_loop strict ps st
  = match (if strict
           then Spec.first_duplicate (Duration.seenUnits st)
                  (Spec.matched_units ps)
           else None) with
    | Some u => Duration.Throw (Duration.DuplicateUnit u)
    | None =>
        Duration.Ok
          {| Duration.seenUnits :=
               (rev (Spec.matched_units ps) ++ Duration.seenUnits st)%list;
             Duration.matched :=
               Duration.matched st
               || negb (List.length (Spec.matched_units ps) =? 0)%nat;
             Duration.totalMilliseconds :=
               Spec.sum_tokens ps (Duration.totalMilliseconds st);
             Duration.remainder :=
               (Duration.remainder st ++ Spec.replaced ps)%list |}
    end.
Proof.
  induction ps as [|[x|c] ps IH]; intros Hps st;
    cbn [Duration.replace_loop Spec.matched_units Spec.first_duplicate
         Spec.sum_tokens Spec.replaced].
  - destruct strict, st; simpl; rewrite orb_false_r, app_nil_r; reflexivity.
  - rewrite IH by (intros c Hc; apply Hps; now right).
    cbn [Duration.seenUnits Duration.matched Duration.totalMilliseconds
         Duration.remainder].
    destruct (if strict then _ else None); [reflexivity|].
    rewrite <- app_assoc. reflexivity.
  - pose proof (Hps c (or_introl eq_refl)) as Hu.
    destruct (unitToMilliseconds_labels _ Hu) as [r Hr].
    unfold Duration.on_match, Spec.token_milliseconds. rewrite Hr.
    destruct strict; cbn [andb].
    + destruct (existsb _ (Duration.seenUnits st)); [reflexivity|].
      cbn [Duration.bind]. rewrite IH by (intros c' Hc; apply Hps; now right).
      cbn [Duration.seenUnits Duration.matched Duration.totalMilliseconds
           Duration.remainder].
      destruct (Spec.first_duplicate _ _); [reflexivity|].
      cbn [rev List.length Nat.eqb negb]. rewrite <- !app_assoc, !orb_true_r.
      reflexivity.
    + cbn [Duration.bind]. rewrite IH by (intros c' Hc; apply Hps; now right).
      cbn [Duration.seenUnits Duration.matched Duration.totalMilliseconds
           Duration.remainder].
      cbn [rev List.length Nat.eqb negb]. rewrite <- !app_assoc, !orb_true_r.
      reflexivity.
Qed.

Lemma parse_phases (input : jsstring) (options : Duration.ParseOptions) :
  Duration.parse input options
  = Spec.parse input (Duration.default true (Duration.strict options))
      (Duration.default false (Duration.allowPartial options)).
Proof.
  rewrite parse_unfold. unfold Spec.parse.
  destruct (forallb is_space input); [reflexivity|].
  rewrite replace_loop_eq by apply captured_unit_label.
  cbn [Spec.initial_state Duration.seenUnits Duration.matched
       Duration.totalMilliseconds Duration.remainder].
  destruct (if Duration.default true (Duration.strict options) then _ else None);
    [reflexivity|].
  cbn [Duration.bind Duration.matched Duration.remainder
       Duration.totalMilliseconds app orb].
  destruct (Spec.matched_units _) as [|u units]; [reflexivity|].
  cbn [List.length Nat.eqb negb].
  replace (0 <? List.length (trim (Spec.replaced
             (Regex.pieces Duration.PARSE_REGEX input))))%nat
    with (negb (forallb is_space (Spec.replaced
             (Regex.pieces Duration.PARSE_REGEX input)))).
  - reflexivity.
  - rewrite <- trim_length_blank. destruct (trim _); reflexivity.
Qed.

(** The unit that [first_duplicate] returns stands at the first place of
    the list whose unit an earlier place, or [seen], has shown. *)
Lemma first_duplicate_some (units seen : list jsstring) (u : jsstring) :
  Spec.first_duplicate seen units = Some u ->
  exists before after,
    units = (before ++ u :: after)%list
    /\ In u (before ++ seen)%list
    /\ Spec.first_duplicate seen before = None.
Proof.
  revert seen. induction units as [|v units IH]; intros seen H;
    cbn [Spec.first_duplicate] in H; [discriminate H|].
  destruct (existsb (eqb_string v) seen) eqn:E.
  - injection H as <-. exists [], units.
    split; [reflexivity|]. split; [|reflexivity].
    apply seen_spec. exact E.
  - destruct (IH _ H) as (before & after & -> & Hin & Hnone).
    exists (v :: before), after. split; [reflexivity|]. split.
    + apply in_app_or in Hin. cbn [app]. destruct Hin as [Hin|[<-|Hin]].
      * right. apply in_or_app. now left.
      * now left.
      * right. apply in_or_app. now right.
    + cbn [Spec.first_duplicate]. now rewrite E.
Qed.

Lemma first_duplicate_none (units seen : list jsstring) :
  Spec.first_duplicate seen units = None ->
  NoDup units /\ forall u, In u units -> ~ In u seen.
Proof.
  revert seen. induction units as [|v units IH]; intros seen H;
    cbn [Spec.first_duplicate] in H.
  - split; [constructor|intros u []].
  - destruct (existsb (eqb_string v) seen) eqn:E; [discriminate H|].
    destruct (IH _ H) as [Hnd Hout]. split.
    + constructor; [|exact Hnd]. intros Hin. apply (Hout v Hin). now left.
    + intros u [<-|Hin] Hs.
      * apply seen_spec in Hs. congruence.
      * apply (Hout u Hin). now right.
Qed.

(** X2.  When [parse] fails, it is in one of four ways: on a blank input,
    with the error of the empty string; in strict mode, with the error of
    the duplicate, which names the unit of the first match whose unit an
    earlier match has shown, one of the eight labels; on an input without a
    match, with the error of the missing tokens; and, unless partial input
    is allowed, on text left beside the matches, with the error that shows
    this text, trimmed, which is not empty. *)
Theorem parse_error_cases (input : jsstring)
    (options : Duration.ParseOptions) (e : Duration.error) :
  Duration.parse input options = Duration.Throw e ->
  let ps := Regex.pieces Duration.PARSE_REGEX input in
  let units := Spec.matched_units ps in
  (e = Duration.EmptyInput /\ forallb is_space input = true)
  \/ (exists u before after,
        e = Duration.DuplicateUnit u
        /\ Duration.default true (Duration.strict options) = true
        /\ forallb is_space input = false
        /\ In u Spec.unit_labels
        /\ units = (before ++ u :: after)%list
        /\ In u before /\ NoDup before)
  \/ (e = Duration.NoTokensFound
      /\ forallb is_space input = false /\ units = [])
  \/ (e = Duration.UnexpectedTrailingInput (trim (Spec.replaced ps))
      /\ Duration.default false (Duration.allowPartial options) = false
      /\ forallb is_space input = false
      /\ forallb is_space (Spec.replaced ps) = false
      /\ (exists x r, trim (Spec.replaced ps) = x :: r)
      /\ (exists u0 units', units = u0 :: units')
      /\ (Duration.default true (Duration.strict options) = true ->
          NoDup units)).
Proof.
  intros H ps units. rewrite parse_phases in H. unfold Spec.parse in H.
  fold ps in H. fold units in H.
  destruct (forallb is_space input) eqn:Hb.
  { left. injection H as <-. auto. }
  right.
  destruct (Duration.default true (Duration.strict options)) eqn:Hs.
  - destruct (Spec.first_duplicate [] units) as [u|] eqn:Hd.
    + left. injection H as <-.
      destruct (first_duplicate_some _ _ _ Hd)
        as (before & after & E & Hin & Hnone).
      rewrite app_nil_r in Hin.
      exists u, before, after. repeat split; auto.
      * assert (Hu : In u units) by (rewrite E; apply in_elt).
        pose proof (matched_units_labels ps (captured_unit_label input))
          as Hall.
        rewrite Forall_forall in Hall. exact (Hall u Hu).
      * exact (proj1 (first_duplicate_none _ _ Hnone)).
    + right. destruct units as [|u0 units'] eqn:Eu.
      { left. injection H as <-. auto. }
      right.
      destruct (Duration.default false (Duration.allowPartial options));
        cbn [negb andb] in H; [discriminate H|].
      destruct (forallb is_space (Spec.replaced ps)) eqn:Hr;
        cbn [negb] in H; [discriminate H|].
      injection H as <-. repeat split; eauto.
      * destruct (trim (Spec.replaced ps)) as [|x r] eqn:Et; [|eauto].
        apply trim_blank in Et. congruence.
      * intros _. exact (proj1 (first_duplicate_none _ _ Hd)).
  - right. destruct units as [|u0 units'] eqn:Eu.
    { left. injection H as <-. auto. }
    right.
    destruct (Duration.default false (Duration.allowPartial options));
      cbn [negb andb] in H; [discriminate H|].
    destruct (forallb is_space (Spec.replaced ps)) eqn:Hr;
      cbn [negb] in H; [discriminate H|].
    injection H as <-. repeat split; eauto; try discriminate.
    destruct (trim (Spec.replaced ps)) as [|x r] eqn:Et; [|eauto].
    apply trim_blank in Et. congruence.
Qed.

Lemma parse_error_cases_witness :
  (Duration.DuplicateUnit (js "d") = Duration.EmptyInput
   /\ forallb is_space (js "1d 2h 3D") = true)
  \/ (exists u before after,
        Duration.DuplicateUnit (js "d") = Duration.DuplicateUnit u
        /\ Duration.default true (Duration.strict Duration.no_parse_options)
           = true
        /\ forallb is_space (js "1d 2h 3D") = false
        /\ In u Spec.unit_labels
        /\ Spec.matched_units
             (Regex.pieces Duration.PARSE_REGEX (js "1d 2h 3D"))
           = (before ++ u :: after)%list
        /\ In u before /\ NoDup before)
  \/ (Duration.DuplicateUnit (js "d") = Duration.NoTokensFound
      /\ forallb is_space (js "1d 2h 3D") = false
      /\ Spec.matched_units
           (Regex.pieces Duration.PARSE_REGEX (js "1d 2h 3D")) = [])
  \/ (Duration.DuplicateUnit (js "d")
      = Duration.UnexpectedTrailingInput
          (trim (Spec.replaced
                   (Regex.pieces Duration.PARSE_REGEX (js "1d 2h 3D"))))
      /\ Duration.default false
           (Duration.allowPartial Duration.no_parse_options) = false
      /\ forallb is_space (js "1d 2h 3D") = false
      /\ forallb is_space
           (Spec.replaced (Regex.pieces Duration.PARSE_REGEX (js "1d 2h 3D")))
         = false
      /\ (exists x r,
            trim (Spec.replaced
                    (Regex.pieces Duration.PARSE_REGEX (js "1d 2h 3D")))
            = x :: r)
      /\ (exists u0 units',
            Spec.matched_units
              (Regex.pieces Duration.PARSE_REGEX (js "1d 2h 3D"))
            = u0 :: units')
      /\ (Duration.default true (Duration.strict Duration.no_parse_options)
          = true ->
          NoDup (Spec.matched_units
                   (Regex.pieces Duration.PARSE_REGEX (js "1d 2h 3D"))))).
Proof.
  apply (parse_error_cases (js "1d 2h 3D") Duration.no_parse_options
           (Duration.DuplicateUnit (js "d"))).
  vm_compute. reflexivity.
Defined.

(** X3.  [parse] is the scan of the input followed by the checks, in this
    order: the blank input; in strict mode, the first unit that an earlier
    match has shown; the absence of a match; unless partial input is
    allowed, text other than white space around the matches; and, when all
    pass, the sum of the matches, each its number times the ratio of its
    unit, added to zero from left to right. *)
Theorem parse_two_phases (input : jsstring) (options : Duration.ParseOptions) :
  Duration.parse input options
  = Spec.parse input (Duration.default true (Duration.strict options))
      (Duration.default false (Duration.allowPartial options)).
Proof. apply parse_phases. Qed.

(** X4.  On an input that is not blank, [parse] throws the error of the
    duplicate unit exactly when the mode is strict and two matches show the
    same unit, in whatever case: this check comes before those of the
    missing tokens and of the text left over. *)
Theorem parse_duplicate_iff (input : jsstring)
    (options : Duration.ParseOptions) :
  forallb is_space input = false ->
  ((exists u, Duration.parse input options
              = Duration.Throw (Duration.DuplicateUnit u))
   <-> (Duration.default true (Duration.strict options) = true
        /\ ~ NoDup (Spec.matched_units
                      (Regex.pieces Duration.PARSE_REGEX input)))).
Proof.
  intros Hb. rewrite parse_unfold, Hb.
  destruct (replace_loop_from_start
              (Duration.default true (Duration.strict options)) input)
    as [(Hs & Hnd & u & E & _)|(Hnd & st' & E & _)]; rewrite E;
    cbn [Duration.bind].
  - split; [auto|]. intros _. now exists u.
  - split.
    + intros [u H]. exfalso.
      destruct (negb (Duration.matched st')); [discriminate|].
      destruct (_ && _); discriminate.
    + intros [Hs Hd]. exfalso. auto.
Qed.

Lemma parse_duplicate_iff_witness :
  (exists u, Duration.parse (js "1d 2D") Duration.no_parse_options
             = Duration.Throw (Duration.DuplicateUnit u))
  <-> (Duration.default true (Duration.strict Duration.no_parse_options) = true
       /\ ~ NoDup (Spec.matched_units
                     (Regex.pieces Duration.PARSE_REGEX (js "1d 2D")))).
Proof.
  apply (parse_duplicate_iff (js "1d 2D") Duration.no_parse_options).
  vm_compute. reflexivity.
Defined.

(** X5.  The options only turn results into errors: when [parse] returns
    a duration under some options, it returns the same duration under all
    options that are not stricter, and so under [strict: false] with
    [allowPartial: true]. *)
Theorem parse_looser_options (input : jsstring)
    (options options' : Duration.ParseOptions) (d : Duration.t) :
  Duration.parse input options = Duration.Ok d ->
  implb (Duration.default true (Duration.strict options'))
        (Duration.default true (Duration.strict options)) = true ->
  implb (Duration.default false (Duration.allowPartial options))
        (Duration.default false (Duration.allowPartial options')) = true ->
  Duration.parse input options' = Duration.Ok d.
Proof.
  rewrite !parse_phases. unfold Spec.parse.
  set (ps := Regex.pieces Duration.PARSE_REGEX input).
  destruct (forallb is_space input); [discriminate|].
  destruct (Spec.first_duplicate [] (Spec.matched_units ps)),
           (Spec.matched_units ps),
           (forallb is_space (Spec.replaced ps)),
           (Duration.default true (Duration.strict options)),
           (Duration.default true (Duration.strict options')),
           (Duration.default false (Duration.allowPartial options)),
           (Duration.default false (Duration.allowPartial options'));
    cbn [implb negb andb]; intros; try discriminate; auto.
Qed.

Lemma parse_looser_options_witness :
  Duration.parse (js "1h 30m")
    {| Duration.strict := Some false; Duration.allowPartial := Some true |}
  = Duration.Ok (Duration.Factory.mins (of_Z 90)).
Proof.
  apply (parse_looser_options (js "1h 30m") Duration.no_parse_options);
    vm_compute; reflexivity.
Defined.

(** ** Inputs without a token *)

(** A match starts with a digit. *)
Lemma exec_not_digit (s : jsstring) :
  match s with [] => True | x :: _ => is_digit x = false end ->
  Regex.exec Duration.PARSE_REGEX s = None.
Proof.
  intros H. unfold Regex.exec, Duration.PARSE_REGEX, Regex.Plus.
  cbn [Regex.run]. destruct s as [|x s]; [reflexivity|]. now rewrite H.
Qed.

Lemma pieces_keep (x : code_unit) (s : jsstring) :
  is_digit x = false ->
  Regex.pieces Duration.PARSE_REGEX (x :: s)
  = Regex.Keep x :: Regex.pieces Duration.PARSE_REGEX s.
Proof.
  intros H. unfold Regex.pieces. cbn [Regex.pieces_from].
  now rewrite (exec_not_digit (x :: s) H).
Qed.

Lemma pieces_no_digit (s : jsstring) :
  forallb (fun c => negb (is_digit c)) s = true ->
  Regex.pieces Duration.PARSE_REGEX s = map Regex.Keep s.
Proof.
  induction s as [|x s IH]; intros H.
  - unfold Regex.pieces. cbn [Regex.pieces_from].
    now rewrite (exec_not_digit [] I).
  - cbn [forallb] in H. apply andb_true_iff in H. destruct H as [Hx Hs].
    apply negb_true_iff in Hx. rewrite (pieces_keep _ _ Hx), (IH Hs).
    reflexivity.
Qed.

Lemma matched_units_keep (s : jsstring) :
  Spec.matched_units (map Regex.Keep s) = [].
Proof. induction s; [reflexivity|exact IHs]. Qed.

(** X6.  An input that is not blank and holds no digit has no token,
    whatever its letters: [parse] throws the error of the missing tokens
    under all options. *)
Theorem parse_without_digit (input : jsstring)
    (options : Duration.ParseOptions) :
  forallb is_space input = false ->
  forallb (fun c => negb (is_digit c)) input = true ->
  Duration.parse input options = Duration.Throw Duration.NoTokensFound.
Proof.
  intros Hb Hd. rewrite parse_phases. unfold Spec.parse.
  rewrite Hb, (pieces_no_digit _ Hd), matched_units_keep.
  now destruct (Duration.default true (Duration.strict options)).
Qed.

Lemma parse_without_digit_witness :
  Duration.parse (js "two hours") Duration.no_parse_options
  = Duration.Throw Duration.NoTokensFound.
Proof.
  apply (parse_without_digit (js "two hours") Duration.no_parse_options);
    vm_compute; reflexivity.
Defined.

(** ** White space before the tokens *)

Lemma is_space_not_digit (c : code_unit) :
  is_space c = true -> is_digit c = false.
Proof.
  unfold is_space, is_digit. intros H.
  destruct (48 <=? c)%N eqn:E1; [|reflexivity].
  destruct (c <=? 57)%N eqn:E2; [|reflexivity].
  apply N.leb_le in E1, E2. exfalso.
  repeat match type of H with
  | (_ || _)%bool = true => apply orb_true_iff in H; destruct H as [H|H]
  | (_ && _)%bool = true => apply andb_true_iff in H; destruct H as [H ?]
  end;
  repeat match goal with
  | H : (_ =? _)%N = true |- _ => apply N.eqb_eq in H
  | H : (_ <=? _)%N = true |- _ => apply N.leb_le in H
  end; lia.
Qed.

Lemma trim_cons_space (c : code_unit) (s : jsstring) :
  is_space c = true -> trim (c :: s) = trim s.
Proof. intros H. unfold trim. cbn [trimStart]. now rewrite H. Qed.

Lemma parse_space_cons (c : code_unit) (input : jsstring)
    (strict allowPartial : bool) :
  is_space c = true ->
  Spec.parse (c :: input) strict allowPartial
  = Spec.parse input strict allowPartial.
Proof.
  intros H. unfold Spec.parse.
  rewrite (pieces_keep _ _ (is_space_not_digit _ H)).
  cbn [forallb Spec.matched_units Spec.replaced Spec.sum_tokens].
  rewrite H, (trim_cons_space _ _ H). reflexivity.
Qed.

Lemma parse_leading_space (ws input : jsstring)
    (options : Duration.ParseOptions) :
  forallb is_space ws = true ->
  Duration.parse (ws ++ input) options = Duration.parse input options.
Proof.
  intros H. rewrite !parse_phases. induction ws as [|c ws IH]; [reflexivity|].
  cbn [forallb] in H. apply andb_true_iff in H. destruct H as [Hc Hws].
  cbn [app]. rewrite (parse_space_cons _ _ _ _ Hc). exact (IH Hws).
Qed.

(** ** One token *)

Lemma star_stop {R : Type} (p : code_unit -> bool) (t : jsstring)
    (k : jsstring -> option R) :
  match t with [] => True | c :: _ => p c = false end ->
  Regex.star p t k = k t.
Proof. destruct t as [|c t]; [reflexivity|]. intros H. simpl. now rewrite H. Qed.

(** The star is greedy: it takes all of a run that ends where the pattern
    can go on. *)
Lemma star_all {R : Type} (p : code_unit -> bool) (w t : jsstring)
    (k : jsstring -> option R) (r : R) :
  forallb p w = true ->
  match t with [] => True | c :: _ => p c = false end ->
  k t = Some r ->
  Regex.star p (w ++ t)%list k = Some r.
Proof.
  intros Hw Ht Hk. induction w as [|a w IH].
  - cbn [app]. now rewrite star_stop.
  - cbn [forallb] in Hw. apply andb_true_iff in Hw. destruct Hw as [Ha Hw].
    cbn [app Regex.star]. now rewrite Ha, (IH Hw).
Qed.

Lemma lower_letter (x a : code_unit) :
  (97 <= a <= 122)%N -> lower x = a -> x = a \/ x = (a - 32)%N.
Proof.
  unfold lower. intros Ha H.
  destruct (N.leb_spec 65 x), (N.leb_spec x 90); simpl in H; lia.
Qed.

Ltac letter_cases :=
  repeat match goal with
  | H : lower ?x = ?a |- _ =>
      apply lower_letter in H; [destruct H as [H|H]; vm_compute in H; subst x
                               |vm_compute; split; discriminate]
  end.

(** The group of the unit on a label in whatever case, but for the month:
    it takes the label, unless the label is that of the minute and an [s]
    follows. *)
Lemma unit_group_matches (u : Spec.unit_name) (lab rest : jsstring)
    (c0 : Regex.captures) :
  u <> Spec.months ->
  toLowerCase lab = Spec.label u ->
  (u = Spec.mins ->
   match rest with
   | [] => True
   | c :: _ => (canonicalize c =? canonicalize (cu "s"))%N = false
   end) ->
  Regex.run
    (Regex.Group 2
      (Regex.Alt (Regex.word_i "ms") (Regex.Alt (Regex.word_i "s")
      (Regex.Alt (Regex.word_i "m") (Regex.Alt (Regex.word_i "h")
      (Regex.Alt (Regex.word_i "d") (Regex.Alt (Regex.word_i "w")
      (Regex.Alt (Regex.word_i "mo") (Regex.word_i "y")))))))))
    (lab ++ rest)%list c0 (fun rest c => Some (rest, c))
  = Some (rest, (2%nat, lab) :: c0).
Proof.
  intros Hu Hl Hm.
  rewrite <- (firstn_matched lab rest) at 2.
  destruct u; try congruence; unfold toLowerCase in Hl; cbn in Hl;
    repeat (destruct lab as [|? lab]; try discriminate Hl);
    injection Hl as Hl; intros; letter_cases;
    try reflexivity.
  all: specialize (Hm eq_refl); destruct rest as [|c rest];
    [reflexivity|]; cbn [app Regex.run Regex.word_i Regex.chr_i];
    rewrite Hm; reflexivity.
Qed.

(** What follows the text of a number in a token is neither a digit nor a
    point. *)
Lemma after_number (u : Spec.unit_name) (ws lab rest : jsstring) :
  forallb is_space ws = true -> toLowerCase lab = Spec.label u ->
  exists c t, (ws ++ lab ++ rest)%list = c :: t
    /\ is_digit c = false
    /\ (canonicalize c =? canonicalize (cu "."))%N = false.
Proof.
  intros Hws Hl. destruct ws as [|c ws].
  - destruct u; unfold toLowerCase in Hl; cbn in Hl;
      (destruct lab as [|x lab]; [discriminate Hl|]);
      injection Hl as Hx _; exists x, (lab ++ rest)%list;
      letter_cases; repeat split; reflexivity.
  - exists c, (ws ++ lab ++ rest)%list. cbn [forallb] in Hws.
    apply andb_true_iff in Hws. destruct Hws as [Hc _].
    split; [reflexivity|]. split; [now apply is_space_not_digit|].
    pose proof (is_space_not_digit _ Hc) as Hd.
    unfold canonicalize. 
    destruct ((97 <=? c) && (c <=? 122))%N eqn:E.
    + apply andb_true_iff in E. destruct E as [E1 E2].
      apply N.leb_le in E1, E2. apply N.eqb_neq. vm_compute N_of_ascii. cbn. lia.
    + apply N.eqb_neq. intros ->. discriminate Hc.
Qed.

Lemma label_not_space (u : Spec.unit_name) (lab rest : jsstring) :
  toLowerCase lab = Spec.label u ->
  match (lab ++ rest)%list with [] => True | c :: _ => is_space c = false end.
Proof.
  intros Hl.
  destruct u; unfold toLowerCase in Hl; cbn in Hl;
    (destruct lab as [|x lab]; [discriminate Hl|]);
    injection Hl as Hx _; letter_cases; reflexivity.
Qed.

Lemma run_chr_stop {R : Type} (p : code_unit -> bool) (s : jsstring)
    (c : Regex.captures) (k : jsstring -> Regex.captures -> option R) :
  match s with [] => True | x :: _ => p x = false end ->
  Regex.run (Regex.Chr p) s c k = None.
Proof. destruct s as [|x s]; [reflexivity|]. intros H. simpl. now rewrite H. Qed.

(** One token at the start of the input: digits, maybe a point and more
    digits, white space or none, and a label.  The pattern matches all of
    it. *)
Lemma exec_token (u : Spec.unit_name) (x : code_unit)
    (ds fr ws lab rest : jsstring) :
  is_digit x = true -> forallb is_digit ds = true ->
  (fr = [] \/ exists y fs, fr = 46%N :: y :: fs /\ is_digit y = true
                           /\ forallb is_digit fs = true) ->
  forallb is_space ws = true ->
  u <> Spec.months ->
  toLowerCase lab = Spec.label u ->
  (u = Spec.mins ->
   match rest with
   | [] => True
   | c :: _ => (canonicalize c =? canonicalize (cu "s"))%N = false
   end) ->
  Regex.exec Duration.PARSE_REGEX (x :: ds ++ fr ++ ws ++ lab ++ rest)%list
  = Some (rest, [(2%nat, lab); (1%nat, (x :: ds ++ fr)%list)]).
Proof.
  intros Hx Hds Hfr Hws Hu Hl Hm.
  destruct (after_number u ws lab rest Hws Hl) as (c & t & Et & Hcd & Hcp).
  pose proof (label_not_space u lab rest Hl) as Hns.
  unfold Regex.exec, Duration.PARSE_REGEX, Regex.Plus.
  set (G := Regex.Group 2 _).
  assert (Hfin : Regex.star is_space (ws ++ lab ++ rest)%list
            (fun s0 => Regex.run G s0 [(1%nat, (x :: ds ++ fr)%list)]
                         (fun rest0 c0 => Some (rest0, c0)))
          = Some (rest, [(2%nat, lab); (1%nat, (x :: ds ++ fr)%list)])).
  { apply star_all; [exact Hws|exact Hns|].
    exact (unit_group_matches u lab rest _ Hu Hl Hm). }
  assert (F : firstn (List.length (x :: ds ++ fr ++ ws ++ lab ++ rest)%list
                      - List.length (ws ++ lab ++ rest)%list)
                (x :: ds ++ fr ++ ws ++ lab ++ rest)%list
              = (x :: ds ++ fr)%list).
  { change (x :: ds ++ fr ++ ws ++ lab ++ rest)%list
      with ((x :: ds) ++ fr ++ ws ++ lab ++ rest)%list.
    rewrite (app_assoc (x :: ds) fr). apply firstn_matched. }
  remember (ws ++ lab ++ rest)%list as tl eqn:Etl in *. clear Etl Hns.
  assert (Htl : match tl with [] => True | x0 :: _ => is_digit x0 = false end)
    by (rewrite Et; exact Hcd).
  cbn [Regex.run]. rewrite Hx.
  destruct Hfr as [->|(y & fs & -> & Hy & Hfs)]; cbn [app] in *.
  - apply star_all; [exact Hds|exact Htl|].
    unfold Regex.chr_i. rewrite run_chr_stop by (rewrite Et; exact Hcp).
    rewrite F. exact Hfin.
  - apply star_all; [exact Hds|reflexivity|].
    unfold Regex.chr_i. cbn [Regex.run].
    change ((canonicalize 46 =? canonicalize (cu "."))%N) with true.
    cbv iota. rewrite Hy.
    erewrite star_all; [reflexivity|exact Hfs|exact Htl|].
    rewrite F. exact Hfin.
Qed.

Lemma span_spec (p : code_unit -> bool) (s : jsstring) :
  s = (fst (span p s) ++ snd (span p s))%list
  /\ forallb p (fst (span p s)) = true.
Proof.
  induction s as [|c s [IH1 IH2]]; [split; reflexivity|].
  cbn [span]. destruct (p c) eqn:E; [|split; reflexivity].
  destruct (span p s) as [a b]. cbn [fst snd] in *. cbn [app forallb].
  rewrite E. split; [now f_equal|exact IH2].
Qed.

Lemma number_text_parts (w : jsstring) :
  Spec.number_text w = true ->
  exists x ds fr,
    w = (x :: ds ++ fr)%list /\ is_digit x = true
    /\ forallb is_digit ds = true
    /\ (fr = [] \/ exists y fs, fr = 46%N :: y :: fs /\ is_digit y = true
                                /\ forallb is_digit fs = true).
Proof.
  unfold Spec.number_text. destruct (span_spec is_digit w) as [E H].
  destruct (span is_digit w) as [[|x ds] fr]; [discriminate|].
  cbn [fst snd] in *. cbn [forallb] in H. apply andb_true_iff in H.
  destruct H as [Hx Hds]. intros Hn. exists x, ds, fr.
  repeat split; try assumption.
  destruct fr as [|c [|y fs]]; [now left|discriminate|]. right.
  apply andb_true_iff in Hn. destruct Hn as [Hc Hfs]. apply N.eqb_eq in Hc.
  cbn [forallb] in Hfs. apply andb_true_iff in Hfs. destruct Hfs as [Hy Hfs].
  subst c. eauto.
Qed.

Lemma pieces_from_skip (r : Regex.regex) (w rest : jsstring) :
  Regex.pieces_from r (List.length w) (w ++ rest) = Regex.pieces_from r 0 rest.
Proof.
  induction w as [|a w IH]; [reflexivity|].
  cbn [List.length app Regex.pieces_from]. exact IH.
Qed.

(** The scan takes a token at the start of the input and goes on after
    it. *)
Lemma pieces_token (u : Spec.unit_name) (num ws lab rest : jsstring) :
  Spec.number_text num = true ->
  forallb is_space ws = true ->
  u <> Spec.months ->
  toLowerCase lab = Spec.label u ->
  (u = Spec.mins ->
   match rest with
   | [] => True
   | c :: _ => (canonicalize c =? canonicalize (cu "s"))%N = false
   end) ->
  Regex.pieces Duration.PARSE_REGEX (num ++ ws ++ lab ++ rest)
  = Regex.Match [(2%nat, lab); (1%nat, num)]
    :: Regex.pieces Duration.PARSE_REGEX rest.
Proof.
  intros Hn Hws Hu Hl Hm.
  destruct (number_text_parts num Hn) as (x & ds & fr & -> & Hx & Hds & Hfr).
  pose proof (exec_token u x ds fr ws lab rest Hx Hds Hfr Hws Hu Hl Hm) as E.
  unfold Regex.pieces.
  replace ((x :: ds ++ fr) ++ ws ++ lab ++ rest)%list
    with (x :: (ds ++ fr ++ ws ++ lab) ++ rest)%list
    by (cbn [app]; now rewrite <- !app_assoc).
  cbn [Regex.pieces_from].
  replace (x :: (ds ++ fr ++ ws ++ lab) ++ rest)%list
    with (x :: ds ++ fr ++ ws ++ lab ++ rest)%list
    by (now rewrite <- !app_assoc).
  rewrite E.
  replace (List.length (x :: ds ++ fr ++ ws ++ lab ++ rest)
           - List.length rest)%nat
    with (S (List.length (ds ++ fr ++ ws ++ lab)%list)).
  - replace (ds ++ fr ++ ws ++ lab ++ rest)%list
      with ((ds ++ fr ++ ws ++ lab) ++ rest)%list
      by (now rewrite <- !app_assoc).
    now rewrite pieces_from_skip.
  - cbn [List.length]. rewrite !length_app. lia.
Qed.

Lemma add_zero_l (y : number) :
  Exact.has_sign false y = true -> JS.add (of_Z 0) y = y.
Proof.
  destruct y as [s|s| |s m e]; simpl; try discriminate;
    destruct s; try discriminate; reflexivity.
Qed.

Lemma unit_ratio (u : Spec.unit_name) :
  Duration.unitToMilliseconds (Spec.label u) = Duration.Ok (of_Z (Spec.ratio u)).
Proof. destruct u; vm_compute; reflexivity. Qed.

Lemma digit_not_space (x : code_unit) : is_digit x = true -> is_space x = false.
Proof.
  intros Hx. destruct (is_space x) eqn:E; [|reflexivity].
  apply is_space_not_digit in E. congruence.
Qed.

(** X8.  An input of one token -- a number, white space or none, and the
    label of a unit other than the month, in whatever case -- is read as
    that number times the ratio of the unit, under all options: as the
    factory of the unit reads the number. *)
Theorem parse_single_token (u : Spec.unit_name) (num ws lab : jsstring)
    (options : Duration.ParseOptions) :
  Spec.number_text num = true ->
  forallb is_space ws = true ->
  toLowerCase lab = Spec.label u ->
  u <> Spec.months ->
  Duration.parse (num ++ ws ++ lab) options
  = Duration.Ok (Duration.Build (JS.mul (parseFloat num) (of_Z (Spec.ratio u))))
  /\ (u <> Spec.ms ->
      Duration.parse (num ++ ws ++ lab) options
      = Duration.Ok (Spec.factory u (parseFloat num))).
Proof.
  intros Hn Hws Hl Hu.
  assert (E : Duration.parse (num ++ ws ++ lab) options
              = Duration.Ok (Duration.Build
                  (JS.mul (parseFloat num) (of_Z (Spec.ratio u))))).
  { assert (Ep : Regex.pieces Duration.PARSE_REGEX (num ++ ws ++ lab)
                 = [Regex.Match [(2%nat, lab); (1%nat, num)]]).
    { rewrite <- (app_nil_r lab) at 1.
      rewrite (pieces_token u num ws lab [] Hn Hws Hu Hl (fun _ => I)).
      now rewrite (pieces_no_digit [] eq_refl). }
    rewrite parse_phases. unfold Spec.parse. rewrite Ep.
    destruct (number_text_parts num Hn) as (x & ds & fr & -> & Hx & _).
    cbn [app forallb]. rewrite (digit_not_space x Hx). cbn [andb].
    cbn [map Spec.matched_units Spec.first_duplicate Spec.replaced
         Spec.sum_tokens existsb].
    change (forallb is_space (js " " ++ [])) with true.
    rewrite andb_false_r. unfold Spec.token_milliseconds.
    rewrite group_head, Hl, unit_ratio.
    change (Duration.group 1 _) with (x :: ds ++ fr)%list.
    destruct (Duration.default true (Duration.strict options));
      (rewrite add_zero_l; [reflexivity|]);
      destruct u;
      (eapply SFmul_sign; [now apply parseFloat_digit|]);
      vm_compute; reflexivity. }
  split; [exact E|]. intros Hms. now rewrite factory_ratio.
Qed.

Lemma parse_single_token_witness :
  Duration.parse (js "1.5" ++ js " " ++ js "H") Duration.no_parse_options
  = Duration.Ok (Spec.factory Spec.hrs (parseFloat (js "1.5"))).
Proof.
  refine (proj2 (parse_single_token Spec.hrs (js "1.5") (js " ") (js "H")
                   Duration.no_parse_options _ _ _ _) _);
    try (vm_compute; reflexivity); discriminate.
Defined.

(** ** Reading back what [format] writes *)

(** The whole counts that [format] writes below thirty days are under a
    thousand; their decimal texts are digits only, and [parseFloat] reads
    the number back from them. *)
Lemma count_texts_table :
  forallb (fun q => Spec.number_text (Number_toString (of_Z q)))
    (map Z.of_nat (seq 1 999)) = true
  /\ map (fun q => parseFloat (Number_toString (of_Z q)))
       (map Z.of_nat (seq 1 999))
     = map of_Z (map Z.of_nat (seq 1 999)).
Proof. split; vm_compute; reflexivity. Qed.

Lemma count_text (q : Z) :
  1 <= q <= 999 ->
  Spec.number_text (Number_toString (of_Z q)) = true
  /\ parseFloat (Number_toString (of_Z q)) = of_Z q.
Proof.
  intros Hq. destruct count_texts_table as [H1 H2].
  assert (Hin : In q (map Z.of_nat (seq 1 999))).
  { apply in_map_iff. exists (Z.to_nat q). split; [lia|].
    apply in_seq. lia. }
  split.
  - rewrite forallb_forall in H1. exact (H1 q Hin).
  - exact (proj1 map_ext_in_iff H2 q Hin).
Qed.

Lemma format_of_Z (n : Z) :
  n <> 0 -> Z.abs n < 2 ^ 53 ->
  Duration.format (Duration.Factory.ms (of_Z n))
  = ((if n <? 0 then js "-" else [])
     ++ Duration.join (js " ") (Spec.integer_segments (Z.abs n)))%list.
Proof.
  intros Hn0 Hn. rewrite format_refines.
  unfold Spec.format, Duration.ms, Duration.Factory.ms.
  cbn [Duration.milliseconds].
  rewrite strict_eq_of_Z, lt_of_Z, abs_of_Z, segments_of_Z
    by (unfold Exact.small; lia).
  destruct (Z.eqb_spec n 0); [contradiction|reflexivity].
Qed.

Lemma join_cons (sep p : jsstring) (ps : list jsstring) :
  Duration.join sep (p :: ps)
  = (p ++ match ps with [] => [] | _ :: _ => sep ++ Duration.join sep ps end)%list.
Proof. destruct ps; [now rewrite app_nil_r|reflexivity]. Qed.

Lemma label_lower (u : Spec.unit_name) : toLowerCase (Spec.label u) = Spec.label u.
Proof. now destruct u. Qed.

Lemma label_injective (u v : Spec.unit_name) :
  Spec.label u = Spec.label v -> u = v.
Proof. destruct u, v; intros H; try reflexivity; discriminate H. Qed.

Lemma ratio_positive (u : Spec.unit_name) :
  exists r, Spec.ratio u = Zpos r /\ Zpos r < 2 ^ 53.
Proof. destruct u; eexists; split; reflexivity. Qed.

Lemma scanned_not_months (u : Spec.unit_name) : Spec.scanned u <> Spec.months.
Proof. destruct u; discriminate. Qed.

(** The text of one segment, then the rest of the input: the scan finds
    the token of the segment, and for the month the [o] that it leaves. *)
Lemma pieces_segment (q : Z) (u : Spec.unit_name) (rest : jsstring) :
  1 <= q <= 999 ->
  match rest with [] => True | c :: _ => is_space c = true end ->
  Regex.pieces Duration.PARSE_REGEX
    (Number_toString (of_Z q) ++ Spec.label u ++ rest)
  = Regex.Match [(2%nat, Spec.label (Spec.scanned u));
                 (1%nat, Number_toString (of_Z q))]
    :: ((if Spec.is_month u then [Regex.Keep 111%N] else [])
        ++ Regex.pieces Duration.PARSE_REGEX rest).
Proof.
  intros Hq Hrest. destruct (count_text q Hq) as [Hn _].
  assert (Hs : forall c, is_space c = true ->
                 (canonicalize c =? canonicalize (cu "s"))%N = false).
  { intros c Hc. apply N.eqb_neq. intros E.
    assert (Hc' : c = 115%N \/ c = 83%N).
    { revert E. unfold canonicalize.
      destruct (N.leb_spec 97 c), (N.leb_spec c 122); cbn; lia. }
    destruct Hc' as [->| ->]; discriminate Hc. }
  destruct (Spec.is_month u) eqn:Em.
  - destruct u; try discriminate Em.
    change (Spec.label Spec.months ++ rest)%list
      with (Spec.label Spec.mins ++ 111%N :: rest)%list.
    pose proof (pieces_token Spec.mins _ [] (Spec.label Spec.mins)
                  (111%N :: rest) Hn eq_refl ltac:(discriminate) eq_refl
                  (fun _ => eq_refl)) as Ht.
    cbn [app] in Ht |- *. rewrite Ht. f_equal.
  - assert (Eu : Spec.scanned u = u) by (now destruct u). rewrite Eu.
    apply (pieces_token u _ [] (Spec.label u) rest Hn eq_refl);
      [now destruct u|apply label_lower|].
    intros _. destruct rest as [|c rest]; [exact I|now apply Hs].
Qed.

(** The segments of whole counts under a thousand, joined by single
    spaces: the scan finds one token for each segment, and between them
    white space and the letters left of the labels of the month; the sum of
    the tokens is exact. *)
Lemma pieces_segments (toks : list (Z * Spec.unit_name)) :
  Forall (fun t => 1 <= fst t <= 999) toks ->
  let ps :=
    Regex.pieces Duration.PARSE_REGEX
      (Duration.join (js " ")
         (map (fun t => Number_toString (of_Z (fst t)) ++ Spec.label (snd t))%list
              toks)) in
  Spec.matched_units ps = map (fun t => Spec.label (Spec.scanned (snd t))) toks
  /\ forallb is_space (Spec.replaced ps)
     = forallb (fun t => negb (Spec.is_month (snd t))) toks
  /\ forall T : Z,
       0 <= T ->
       T + fold_right
             (fun t acc => fst t * Spec.ratio (Spec.scanned (snd t)) + acc)
             0 toks < 2 ^ 53 ->
       Spec.sum_tokens ps (of_Z T)
       = of_Z (T + fold_right
                     (fun t acc =>
                        fst t * Spec.ratio (Spec.scanned (snd t)) + acc)
                     0 toks).
Proof.
  induction toks as [|[q u] toks IH]; intros H; cbv zeta.
  - cbn [map Duration.join]. rewrite (pieces_no_digit [] eq_refl).
    repeat split. intros T _ _. cbn. now rewrite Z.add_0_r.
  - inversion H as [|t ts Hq Hts]; subst. cbn [fst snd] in *.
    specialize (IH Hts). cbv zeta in IH.
    destruct IH as (IH1 & IH2 & IH3).
    destruct (count_text q Hq) as [_ Hp].
    cbn [map fst snd]. rewrite join_cons, <- app_assoc.
    set (J := Duration.join (js " ") _) in *.
    set (rest := match map _ toks with [] => [] | _ :: _ => (js " " ++ J)%list end).
    assert (Hrest : Regex.pieces Duration.PARSE_REGEX rest
                    = match toks with
                      | [] => []
                      | _ :: _ => Regex.Keep 32%N
                                  :: Regex.pieces Duration.PARSE_REGEX J
                      end).
    { subst rest. destruct toks; cbn [map].
      - apply (pieces_no_digit [] eq_refl).
      - apply (pieces_keep 32%N J eq_refl). }
    rewrite (pieces_segment q u rest Hq), Hrest
      by (subst rest; now destruct (map _ toks)).
    cbn [Spec.matched_units Spec.replaced Spec.sum_tokens].
    set (o := if Spec.is_month u then [Regex.Keep 111%N] else []).
    assert (Ho1 : forall l, Spec.matched_units (o ++ l) = Spec.matched_units l)
      by (intros l; subst o; now destruct (Spec.is_month u)).
    assert (Ho2 : forall l, forallb is_space (Spec.replaced (o ++ l))
                            = negb (Spec.is_month u)
                              && forallb is_space (Spec.replaced l))
      by (intros l; subst o; now destruct (Spec.is_month u)).
    assert (Ho3 : forall l T, Spec.sum_tokens (o ++ l) T = Spec.sum_tokens l T)
      by (intros l T; subst o; now destruct (Spec.is_month u)).
    rewrite group_head, label_lower, Ho1, forallb_app.
    change (forallb is_space (js " ")) with true. cbn [andb].
    rewrite Ho2. split; [|split].
    + destruct toks; [reflexivity|]. cbn [Spec.matched_units]. now rewrite IH1.
    + destruct toks; [reflexivity|]. cbn [Spec.replaced forallb fst snd].
      change (is_space 32%N) with true. cbn [andb]. now rewrite IH2.
    + intros T HT Hsum. cbn [fold_right fst snd] in Hsum |- *.
      destruct (ratio_positive (Spec.scanned u)) as (r & Er & Hr).
      rewrite Er in *.
      set (S := fold_right _ 0 toks) in *.
      assert (HS : 0 <= S).
      { subst S. clear -Hts. induction Hts as [|t ts Ht _ IHs];
          [cbn; lia|]. cbn [fold_right].
        destruct (ratio_positive (Spec.scanned (snd t))) as (r & -> & _).
        nia. }
      rewrite Ho3. unfold Spec.token_milliseconds.
      rewrite group_head, label_lower.
      change (Duration.group 1 _) with (Number_toString (of_Z q)).
      rewrite Hp, unit_ratio, Er.
      rewrite mul_of_Z by (unfold Exact.small; nia || lia).
      rewrite add_of_Z by (unfold Exact.small; nia || lia).
      destruct toks as [|t' toks'].
      * cbn [Spec.sum_tokens]. f_equal. subst S. cbn. lia.
      * cbn [Spec.sum_tokens]. rewrite IH3 by nia. f_equal. lia.
Qed.

Lemma first_duplicate_nodup (units seen : list jsstring) :
  NoDup units -> (forall u, In u units -> ~ In u seen) ->
  Spec.first_duplicate seen units = None.
Proof.
  revert seen. induction units as [|u units IH]; intros seen Hnd Hs;
    [reflexivity|].
  inversion Hnd as [|? ? Hu Hnd']; subst. cbn [Spec.first_duplicate].
  destruct (existsb (eqb_string u) seen) eqn:E.
  - apply seen_spec in E. exfalso. apply (Hs u); [now left|exact E].
  - apply IH; [exact Hnd'|]. intros v Hv [<-|Hin]; [contradiction|].
    apply (Hs v); [now right|exact Hin].
Qed.

Lemma segments_tokens (toks : list (Z * Spec.unit_name)) :
  map (fun c : Z * jsstring => Number_toString (of_Z (fst c)) ++ snd c)%list
    (filter (fun c => 0 <? fst c)
       (map (fun t => (fst t, Spec.label (snd t))) toks))
  = map (fun t => Number_toString (of_Z (fst t)) ++ Spec.label (snd t))%list
      (filter (fun t => 0 <? fst t) toks).
Proof.
  induction toks as [|t toks IH]; [reflexivity|]. cbn [map filter fst snd].
  destruct (0 <? fst t); cbn [map fst snd]; now rewrite IH.
Qed.

Lemma sum_filter (weight : Spec.unit_name -> Z)
    (toks : list (Z * Spec.unit_name)) :
  Forall (fun t => 0 <= fst t) toks ->
  fold_right (fun t acc => fst t * weight (snd t) + acc) 0
    (filter (fun t => 0 <? fst t) toks)
  = fold_right (fun t acc => fst t * weight (snd t) + acc) 0 toks.
Proof.
  induction 1 as [|t toks Ht _ IH]; [reflexivity|]. cbn [filter fold_right].
  destruct (Z.ltb_spec 0 (fst t)); cbn [fold_right]; rewrite IH; [reflexivity|].
  replace (fst t) with 0 by lia. lia.
Qed.

Lemma forallb_filter {A : Type} (p f : A -> bool) (l : list A) :
  forallb p (filter f l) = forallb (fun a => implb (f a) (p a)) l.
Proof.
  induction l as [|a l IH]; [reflexivity|]. cbn [filter forallb].
  destruct (f a); cbn [forallb implb]; now rewrite IH.
Qed.

Lemma nodup_filter_units (p : Z * Spec.unit_name -> bool)
    (toks : list (Z * Spec.unit_name)) :
  NoDup (map snd toks) -> NoDup (map snd (filter p toks)).
Proof.
  induction toks as [|t toks IH]; intros H; [constructor|].
  cbn [map] in H. inversion H as [|? ? Hn Hd]; subst. cbn [filter].
  destruct (p t); [|now apply IH]. cbn [map]. constructor; [|now apply IH].
  intros Hin. apply Hn. apply in_map_iff in Hin.
  destruct Hin as (t' & E & Hin). apply filter_In in Hin.
  apply in_map_iff. exists t'. tauto.
Qed.

(** The decomposition that [format] writes, unit by unit. *)
Lemma integer_segments_tokens (n : Z) :
  0 <= n ->
  exists y mo w d h m s l,
    Spec.integer_segments n
    = map (fun t => Number_toString (of_Z (fst t)) ++ Spec.label (snd t))%list
        (filter (fun t => 0 <? fst t)
           [ (y, Spec.years); (mo, Spec.months); (w, Spec.weeks);
             (d, Spec.days); (h, Spec.hrs); (m, Spec.mins); (s, Spec.secs);
             (l, Spec.ms) ])
    /\ n = y * 31536000000 + mo * 2592000000 + w * 604800000 + d * 86400000
           + h * 3600000 + m * 60000 + s * 1000 + l
    /\ y = n / 31536000000 /\ mo = n mod 31536000000 / 2592000000
    /\ 0 <= y /\ 0 <= mo /\ 0 <= w <= 4 /\ 0 <= d <= 6 /\ 0 <= h <= 23
    /\ 0 <= m <= 59 /\ 0 <= s <= 59 /\ 0 <= l <= 999.
Proof.
  intros Hn.
  set (n1 := n mod 31536000000). set (n2 := n1 mod 2592000000).
  set (n3 := n2 mod 604800000). set (n4 := n3 mod 86400000).
  set (n5 := n4 mod 3600000). set (n6 := n5 mod 60000).
  exists (n / 31536000000), (n1 / 2592000000), (n2 / 604800000),
    (n3 / 86400000), (n4 / 3600000), (n5 / 60000), (n6 / 1000), (n6 mod 1000).
  split.
  { change [(n / 31536000000, Spec.years); (n1 / 2592000000, Spec.months);
            (n2 / 604800000, Spec.weeks); (n3 / 86400000, Spec.days);
            (n4 / 3600000, Spec.hrs); (n5 / 60000, Spec.mins);
            (n6 / 1000, Spec.secs); (n6 mod 1000, Spec.ms)]
      with ([(n / 31536000000, Spec.years); (n1 / 2592000000, Spec.months);
             (n2 / 604800000, Spec.weeks); (n3 / 86400000, Spec.days);
             (n4 / 3600000, Spec.hrs); (n5 / 60000, Spec.mins);
             (n6 / 1000, Spec.secs)] ++ [(n6 mod 1000, Spec.ms)])%list.
    rewrite filter_app, map_app, <- segments_tokens.
    unfold Spec.integer_segments.
    cbn [Spec.greedy Spec.larger_unit_ratios map filter fst snd Spec.label].
    fold n1 n2 n3 n4 n5 n6.
    destruct (0 <? n6 mod 1000); reflexivity. }
  pose proof (Z.div_mod n 31536000000 ltac:(lia)) as D0.
  pose proof (Z.div_mod n1 2592000000 ltac:(lia)) as D1.
  pose proof (Z.div_mod n2 604800000 ltac:(lia)) as D2.
  pose proof (Z.div_mod n3 86400000 ltac:(lia)) as D3.
  pose proof (Z.div_mod n4 3600000 ltac:(lia)) as D4.
  pose proof (Z.div_mod n5 60000 ltac:(lia)) as D5.
  pose proof (Z.div_mod n6 1000 ltac:(lia)) as D6.
  pose proof (Z.mod_pos_bound n 31536000000 ltac:(lia)) as B0.
  pose proof (Z.mod_pos_bound n1 2592000000 ltac:(lia)) as B1.
  pose proof (Z.mod_pos_bound n2 604800000 ltac:(lia)) as B2.
  pose proof (Z.mod_pos_bound n3 86400000 ltac:(lia)) as B3.
  pose proof (Z.mod_pos_bound n4 3600000 ltac:(lia)) as B4.
  pose proof (Z.mod_pos_bound n5 60000 ltac:(lia)) as B5.
  pose proof (Z.mod_pos_bound n6 1000 ltac:(lia)) as B6.
  fold n1 in D0, B0. fold n2 in D1, B1. fold n3 in D2, B2. fold n4 in D3, B3.
  fold n5 in D4, B4. fold n6 in D5, B5.
  split; [lia|]. split; [reflexivity|]. split; [reflexivity|].
  repeat split; try (apply Z.div_pos; lia);
    try (apply Z.lt_succ_r, Z.div_lt_upper_bound; lia); lia.
Qed.

Lemma blank_no_units (s : jsstring) :
  forallb is_space s = true ->
  Spec.matched_units (Regex.pieces Duration.PARSE_REGEX s) = [].
Proof.
  intros H. rewrite pieces_no_digit; [apply matched_units_keep|].
  apply forallb_forall. intros c Hc. rewrite forallb_forall in H.
  now rewrite (is_space_not_digit c (H c Hc)).
Qed.

Lemma nodup_labels (us : list Spec.unit_name) :
  NoDup us -> NoDup (map Spec.label us).
Proof.
  induction 1 as [|u us Hu _ IH]; cbn [map]; constructor; [|exact IH].
  intros Hin. apply in_map_iff in Hin. destruct Hin as (v & E & Hv).
  apply label_injective in E. now subst v.
Qed.

Lemma nodup_scanned_labels (toks : list (Z * Spec.unit_name)) :
  NoDup (map snd toks) -> Forall (fun t => snd t <> Spec.months) toks ->
  NoDup (map (fun t => Spec.label (Spec.scanned (snd t))) toks).
Proof.
  intros Hnd Hm.
  replace (map (fun t => Spec.label (Spec.scanned (snd t))) toks)
    with (map Spec.label (map snd toks)); [now apply nodup_labels|].
  rewrite map_map. apply map_ext_in. intros t Ht.
  rewrite Forall_forall in Hm. specialize (Hm t Ht). now destruct (snd t).
Qed.

(** What the scan finds in the text that [format] writes for a whole
    number of milliseconds: a token for each segment, that of the months
    read as minutes; white space between them, and an [o] after the months;
    a sum that is the number formatted when there are no months. *)
Lemma scan_formatted (n : Z) :
  0 < n < 1000 * 31536000000 ->
  let text := Duration.join (js " ") (Spec.integer_segments n) in
  let ps := Regex.pieces Duration.PARSE_REGEX text in
  let mo := n mod 31536000000 / 2592000000 in
  forallb is_space text = false
  /\ Spec.matched_units ps <> []
  /\ forallb is_space (Spec.replaced ps) = (mo =? 0)
  /\ Spec.sum_tokens ps (of_Z 0) = of_Z (n - mo * (2592000000 - 60000))
  /\ (mo = 0 -> Spec.first_duplicate [] (Spec.matched_units ps) = None).
Proof.
  intros Hn.
  destruct (integer_segments_tokens n ltac:(lia))
    as (y & mo & w & d & h & m & s & l & -> & En & Ey & Emo & Hy & Hmo & Hw
        & Hd & Hh & Hm & Hs & Hl).
  assert (Hy' : y <= 999).
  { subst y. apply Z.lt_succ_r, Z.div_lt_upper_bound; lia. }
  assert (Hmo' : mo <= 12).
  { subst mo. apply Z.lt_succ_r, Z.div_lt_upper_bound; [lia|].
    pose proof (Z.mod_pos_bound n 31536000000 ltac:(lia)). lia. }
  rewrite <- Emo. clear Ey Emo.
  set (all := [(y, Spec.years); (mo, Spec.months); (w, Spec.weeks);
               (d, Spec.days); (h, Spec.hrs); (m, Spec.mins); (s, Spec.secs);
               (l, Spec.ms)]).
  set (toks := filter (fun t => 0 <? fst t) all).
  assert (Hin : forall t, In t toks ->
                  1 <= fst t <= 999 /\ (mo = 0 -> snd t <> Spec.months)).
  { intros t Ht. apply filter_In in Ht.
    destruct Ht as [Ht Hpos]. apply Z.ltb_lt in Hpos.
    repeat (destruct Ht as [<-|Ht]; [cbn [fst snd] in *;
              split; [lia|intros; (discriminate || lia)]|]).
    contradiction. }
  assert (Hall : Forall (fun t => 1 <= fst t <= 999) toks).
  { apply Forall_forall. intros t Ht. now apply Hin. }
  assert (Hsum : fold_right
                   (fun t acc => fst t * Spec.ratio (Spec.scanned (snd t)) + acc)
                   0 toks = n - mo * (2592000000 - 60000)).
  { subst toks.
    rewrite (sum_filter (fun u => Spec.ratio (Spec.scanned u))).
    - subst all. cbn [fold_right fst snd Spec.ratio Spec.scanned]. lia.
    - subst all. repeat constructor; cbn [fst]; lia. }
  destruct (pieces_segments toks Hall) as (M1 & M2 & M3).
  cbv zeta. set (ps := Regex.pieces Duration.PARSE_REGEX _) in *.
  assert (Hne : Spec.matched_units ps <> []).
  { rewrite M1. intros E. apply map_eq_nil in E. rewrite E in Hsum.
    cbn in Hsum. nia. }
  split; [|split; [exact Hne|split; [|split]]].
  - destruct (forallb is_space (Duration.join _ _)) eqn:Hb; [|reflexivity].
    apply blank_no_units in Hb. contradiction.
  - rewrite M2. unfold toks. rewrite forallb_filter. subst all.
    cbn [forallb fst snd Spec.is_month negb implb].
    rewrite !implb_true_r, !andb_true_r. cbn [andb].
    destruct (Z.ltb_spec 0 mo), (Z.eqb_spec mo 0); try reflexivity; lia.
  - rewrite (M3 0) by (rewrite ?Hsum; nia). now rewrite Z.add_0_l, Hsum.
  - intros Hmo0. apply first_duplicate_nodup; [|auto]. rewrite M1.
    apply nodup_scanned_labels.
    + apply nodup_filter_units. subst all. cbn [map snd].
      repeat constructor; cbn [In]; intuition discriminate.
    + apply Forall_forall. intros t Ht. now apply Hin.
Qed.

(** X9.  [parse] reads back what [format] writes for a whole number of
    milliseconds from zero to under a thousand years, when [format] writes
    no segment for the months: the duration returned is the one formatted,
    under all options. *)
Theorem parse_format_round_trip (n : Z) (options : Duration.ParseOptions) :
  0 <= n < 1000 * 31536000000 ->
  n mod 31536000000 < 2592000000 ->
  Duration.parse (Duration.format (Duration.Factory.ms (of_Z n))) options
  = Duration.Ok (Duration.Factory.ms (of_Z n)).
Proof.
  intros Hn Hmo. rewrite parse_phases.
  destruct (Z.eq_dec n 0) as [->|Hn0].
  { destruct (Duration.default true _), (Duration.default false _);
      vm_compute; reflexivity. }
  rewrite format_of_Z by lia.
  destruct (Z.ltb_spec n 0); [lia|]. rewrite Z.abs_eq by lia. cbn [app].
  destruct (scan_formatted n ltac:(lia)) as (Hb & Hne & Hr & Hs & Hd).
  cbv zeta in Hb, Hd, Hne, Hr, Hs.
  rewrite (Z.div_small (n mod 31536000000)) in Hr, Hs, Hd
    by (pose proof (Z.mod_pos_bound n 31536000000 ltac:(lia)); lia).
  rewrite Z.sub_0_r in Hs. unfold Spec.parse. cbv zeta.
  rewrite Hb, (Hd eq_refl), Hr, Hs, andb_false_r.
  destruct (Spec.matched_units _); [contradiction|].
  now destruct (Duration.default true _).
Qed.

Lemma parse_format_round_trip_witness :
  Duration.parse (Duration.format (Duration.Factory.ms (of_Z 5415250)))
    Duration.no_parse_options
  = Duration.Ok (Duration.Factory.ms (of_Z 5415250)).
Proof.
  apply (parse_format_round_trip 5415250 Duration.no_parse_options);
    [lia|reflexivity].
Defined.

Lemma trimStart_app_blank (w t : jsstring) :
  forallb is_space w = true -> trimStart (w ++ t) = trimStart t.
Proof.
  induction w as [|c w IH]; intros H; [reflexivity|].
  cbn [forallb] in H. apply andb_true_iff in H. destruct H as [Hc Hw].
  cbn [app trimStart]. rewrite Hc. exact (IH Hw).
Qed.

Lemma trim_mark_blank (c : code_unit) (r : jsstring) :
  is_space c = false -> forallb is_space r = true -> trim (c :: r) = [c].
Proof.
  intros Hc Hr. unfold trim, trimEnd. cbn [trimStart]. rewrite Hc.
  cbn [rev]. rewrite trimStart_app_blank by (now rewrite forallb_rev).
  cbn [trimStart]. now rewrite Hc.
Qed.

(** X10.  [parse] reads no sign.  What [format] writes for a negative
    whole number of milliseconds (above minus a thousand years, without a
    segment for the months) is rejected for the minus that is left over;
    when partial input is allowed, the duration returned is the magnitude,
    without the sign. *)
Theorem parse_format_negative (n : Z) (options : Duration.ParseOptions) :
  0 < n < 1000 * 31536000000 ->
  n mod 31536000000 < 2592000000 ->
  Duration.parse (Duration.format (Duration.Factory.ms (of_Z (- n)))) options
  = if Duration.default false (Duration.allowPartial options)
    then Duration.Ok (Duration.Factory.ms (of_Z n))
    else Duration.Throw (Duration.UnexpectedTrailingInput (js "-")).
Proof.
  intros Hn Hmo. rewrite parse_phases, format_of_Z by lia.
  destruct (Z.ltb_spec (- n) 0); [|lia].
  rewrite Z.abs_opp, Z.abs_eq by lia.
  destruct (scan_formatted n Hn) as (Hb & Hne & Hr & Hs & Hd).
  cbv zeta in Hb, Hd, Hne, Hr, Hs.
  rewrite (Z.div_small (n mod 31536000000)) in Hr, Hs, Hd
    by (pose proof (Z.mod_pos_bound n 31536000000 ltac:(lia)); lia).
  rewrite Z.sub_0_r in Hs. specialize (Hd eq_refl).
  unfold Spec.parse. cbv zeta.
  change (js "-" ++ ?t)%list with (45%N :: t).
  rewrite (pieces_keep 45%N _ eq_refl).
  cbn [forallb Spec.matched_units Spec.replaced Spec.sum_tokens].
  change (is_space 45%N) with false. cbn [andb negb].
  rewrite Hd, Hs, (trim_mark_blank 45%N _ eq_refl Hr).
  destruct (Spec.matched_units _); [contradiction|].
  rewrite andb_true_r.
  now destruct (Duration.default true _), (Duration.default false _).
Qed.

Lemma parse_format_negative_witness :
  Duration.parse (Duration.format (Duration.Factory.ms (of_Z (- 5400000))))
    Duration.no_parse_options
  = Duration.Throw (Duration.UnexpectedTrailingInput (js "-")).
Proof.
  apply (parse_format_negative 5400000 Duration.no_parse_options);
    [lia|reflexivity].
Defined.

(** ** The order of durations *)

Lemma compare_some (x y : number) (c : comparison) :
  SFcompare x y = Some c -> is_nan x = false /\ is_nan y = false.
Proof. destruct x, y; simpl; intros H; try discriminate H; now split. Qed.

Lemma compare_none (x y : number) :
  SFcompare x y = None ->
  SFcompare y x = None /\ negb (is_nan x) && negb (is_nan y) = false.
Proof. destruct x, y; simpl; intros H; try discriminate H; now split. Qed.

(** X11.  [lte] is [lt] or [eq], and [gte] is [gt] or [eq], on all
    durations.  Each is the negation of the opposite strict comparison only
    when neither value is [NaN]: with a [NaN], all five comparisons are
    false. *)
Theorem lte_gte_consistent (a b : Duration.t) :
  Duration.lte a b = Duration.lt a b || Duration.eq a b
  /\ Duration.gte a b = Duration.gt a b || Duration.eq a b
  /\ Duration.lte a b
     = negb (Duration.gt a b)
       && (negb (is_nan (Duration.ms a)) && negb (is_nan (Duration.ms b)))
  /\ Duration.gte a b
     = negb (Duration.lt a b)
       && (negb (is_nan (Duration.ms a)) && negb (is_nan (Duration.ms b))).
Proof.
  destruct a as [x], b as [y].
  unfold Duration.lte, Duration.gte, Duration.lt, Duration.gt, Duration.eq,
    Duration.ms, JS.le, JS.ge, JS.lt, JS.gt, strict_eq, SFleb, SFltb, SFeqb.
  cbn [Duration.milliseconds].
  destruct (SFcompare x y) as [c|] eqn:E.
  - rewrite (compare_swap x y c E).
    destruct (compare_some x y c E) as [-> ->]. now destruct c.
  - destruct (compare_none x y E) as [-> ->]. now rewrite !andb_false_r.
Qed.

Lemma compare_lt_trans (x y z : number) :
  SFcompare x y = Some Lt -> SFcompare y z = Some Lt ->
  SFcompare x z = Some Lt.
Proof.
  destruct x as [sx|sx| |sx mx ex], y as [sy|sy| |sy my ey],
           z as [sz|sz| |sz mz ez]; simpl; try discriminate;
    repeat match goal with s : bool |- _ => destruct s end;
    try discriminate; try reflexivity;
    change (PosDef.Pos.compare_cont Eq ?a ?b) with (Pos.compare a b);
    intros H1 H2;
    destruct (Z.compare_spec ex ey), (Z.compare_spec ey ez); subst;
    try discriminate;
    repeat match goal with
    | |- context [(?a ?= ?a)%Z] => rewrite (Z.compare_refl a)
    | H : (?a < ?b)%Z |- context [(?a ?= ?b)%Z] =>
        rewrite (proj2 (Z.compare_lt_iff a b) H)
    | H : (?a < ?b)%Z |- context [(?b ?= ?a)%Z] =>
        rewrite (proj2 (Z.compare_gt_iff b a) H)
    end; try reflexivity; try assumption;
    try (rewrite (proj2 (Z.compare_lt_iff ex ez)) by lia; reflexivity);
    try (rewrite (proj2 (Z.compare_gt_iff ex ez)) by lia; reflexivity);
    destruct (Pos.compare_spec mx my), (Pos.compare_spec my mz); subst;
    try discriminate;
    try (rewrite (proj2 (Pos.compare_lt_iff mx mz)) by lia; reflexivity);
    try (rewrite (proj2 (Pos.compare_gt_iff mx mz)) by lia; reflexivity).
Qed.

(** X12.  [lt] is a strict order on all durations, those of [NaN] and of
    the infinities included: no duration is below itself; two durations in
    this order are neither equal nor in the opposite order, whatever else
    holds; and the order is transitive. *)
Theorem lt_strict_order (a b c : Duration.t) :
  Duration.lt a a = false
  /\ (Duration.lt a b = true ->
      Duration.lt b a = false /\ Duration.eq a b = false
      /\ Duration.gt b a = true)
  /\ (Duration.lt a b = true -> Duration.lt b c = true ->
      Duration.lt a c = true).
Proof.
  destruct a as [x], b as [y], c as [z].
  unfold Duration.lt, Duration.gt, Duration.eq, Duration.ms, JS.lt, JS.gt,
    strict_eq, SFltb, SFeqb.
  cbn [Duration.milliseconds]. split; [|split].
  - destruct (SFcompare x x) as [[]|] eqn:E; try reflexivity.
    pose proof (compare_swap x x Lt E) as E'. rewrite E in E'. discriminate E'.
  - intros H1. destruct (SFcompare x y) as [[]|] eqn:E1; try discriminate H1.
    rewrite (compare_swap x y Lt E1). repeat split.
  - intros H1 H2.
    destruct (SFcompare x y) as [[]|] eqn:E1; try discriminate H1.
    destruct (SFcompare y z) as [[]|] eqn:E2; try discriminate H2.
    now rewrite (compare_lt_trans x y z E1 E2).
Qed.

Lemma lt_strict_order_witness :
  Duration.eq (Duration.Factory.secs (of_Z 59))
    (Duration.Factory.ms (S754_infinity false)) = false.
Proof.
  refine (proj1 (proj2 (proj1 (proj2
            (lt_strict_order (Duration.Factory.secs (of_Z 59))
               (Duration.Factory.ms (S754_infinity false))
               (Duration.Factory.ms (of_Z 0)))) _))).
  vm_compute; reflexivity.
Defined.

(** The order of the numbers of two integers is the order of the
    integers. *)
Lemma compare_canon (s s' : bool) (p q : positive) :
  Zpos (digits2_pos p) <= 53 -> Zpos (digits2_pos q) <= 53 ->
  SFcompare (Exact.canon s p) (Exact.canon s' q)
  = Some (cond_Zopp s (Zpos p) ?= cond_Zopp s' (Zpos q)).
Proof.
  intros Hp Hq. unfold Exact.canon. cbn [SFcompare].
  change (PosDef.Pos.compare_cont Eq ?a ?b) with (Pos.compare a b).
  pose proof (digits_bounds p) as Bp. pose proof (digits_bounds q) as Bq.
  pose proof (canon_value p Hp) as Vp. pose proof (canon_value q Hq) as Vq.
  set (dp := Zpos (digits2_pos p)) in *. set (dq := Zpos (digits2_pos q)) in *.
  set (P := Pos.shiftl p _) in *. set (Q := Pos.shiftl q _) in *.
  assert (Hlt : forall a b da db, 2 ^ (da - 1) <= a < 2 ^ da ->
                  2 ^ (db - 1) <= b < 2 ^ db -> da < db -> a < b).
  { intros a b da db Ha Hb Hd.
    assert (2 ^ da <= 2 ^ (db - 1)) by (apply Z.pow_le_mono_r; lia). lia. }
  assert (Hcmp : (match dp - prec ?= dq - prec with
                  | Eq => (P ?= Q)%positive | Lt => Lt | Gt => Gt end)
                 = (Zpos p ?= Zpos q)).
  { destruct (Z.compare_spec (dp - prec) (dq - prec)) as [E|E|E].
    - assert (dp = dq) by lia.
      change ((P ?= Q)%positive) with (Zpos P ?= Zpos Q).
      rewrite Vp, Vq. replace dq with dp by assumption.
      assert (0 < 2 ^ (53 - dp)) by (apply Z.pow_pos_nonneg; lia).
      destruct (Z.compare_spec (Zpos p) (Zpos q)) as [E'|E'|E'].
      + rewrite E'. apply Z.compare_refl.
      + apply Z.compare_lt_iff. nia.
      + apply Z.compare_gt_iff. nia.
    - symmetry. apply Z.compare_lt_iff. apply (Hlt _ _ dp dq); auto; lia.
    - symmetry. apply Z.compare_gt_iff. apply (Hlt _ _ dq dp); auto; lia. }
  destruct s, s'; cbn [cond_Zopp]; try reflexivity.
  - change (- Zpos p ?= - Zpos q) with (CompOpp (Zpos p ?= Zpos q)).
    rewrite <- Hcmp. now destruct (dp - prec ?= dq - prec).
  - now rewrite <- Hcmp.
Qed.

Lemma compare_of_Z (x y : Z) :
  Exact.small x -> Exact.small y ->
  SFcompare (of_Z x) (of_Z y) = Some (x ?= y).
Proof.
  intros Hx Hy.
  destruct (of_Z_cases x Hx) as [[-> ->]|(s & p & -> & Hp & ->)],
           (of_Z_cases y Hy) as [[-> ->]|(s' & q & -> & Hq & ->)].
  - reflexivity.
  - unfold Exact.canon. now destruct s'.
  - unfold Exact.canon. now destruct s.
  - now apply compare_canon.
Qed.

(** X13.  On whole numbers of milliseconds below [2 ^ 53] in magnitude,
    the five comparisons are those of the integers. *)
Theorem compare_integers (x y : Z) :
  Exact.small x -> Exact.small y ->
  let a := Duration.Factory.ms (of_Z x) in
  let b := Duration.Factory.ms (of_Z y) in
  Duration.eq a b = (x =? y) /\ Duration.lt a b = (x <? y)
  /\ Duration.gt a b = (y <? x) /\ Duration.lte a b = (x <=? y)
  /\ Duration.gte a b = (y <=? x).
Proof.
  intros Hx Hy.
  unfold Duration.lte, Duration.gte, Duration.lt, Duration.gt, Duration.eq,
    Duration.ms, Duration.Factory.ms, JS.le, JS.ge, JS.lt, JS.gt, strict_eq,
    SFleb, SFltb, SFeqb.
  cbn [Duration.milliseconds].
  rewrite (compare_of_Z x y Hx Hy), (compare_of_Z y x Hy Hx).
  split; [|unfold Z.ltb, Z.leb; repeat split].
  destruct (Z.eqb_spec x y) as [->|Hne]; [now rewrite Z.compare_refl|].
  destruct (Z.compare_spec x y); [contradiction|reflexivity|reflexivity].
Qed.

Lemma compare_integers_witness :
  Duration.eq (Duration.Factory.ms (of_Z 60000))
    (Duration.Factory.ms (of_Z 3600000)) = (60000 =? 3600000)
  /\ Duration.lt (Duration.Factory.ms (of_Z 60000))
       (Duration.Factory.ms (of_Z 3600000)) = (60000 <? 3600000).
Proof.
  destruct (compare_integers 60000 3600000) as (H1 & H2 & _);
    [unfold Exact.small; lia|unfold Exact.small; lia|].
  split; [exact H1|exact H2].
Defined.

(** ** Arithmetic *)

(** X14.  [add] is commutative on all durations: the two sums are the
    same number, [NaN], infinities and the sign of zero included. *)
Theorem add_commutative (a b : Duration.t) :
  Duration.add a b = Duration.add b a.
Proof.
  destruct a as [x], b as [y]. unfold Duration.add, Duration.ms, JS.add.
  cbn [Duration.milliseconds]. f_equal.
  destruct x as [sx|sx| |sx mx ex], y as [sy|sy| |sy my ey]; try reflexivity;
    try (now destruct sx, sy).
  cbn [SFadd]. rewrite (Z.min_comm ey ex). f_equal. apply Z.add_comm.
Qed.

Lemma sub_self (x : number) :
  is_finite x = true -> JS.sub x x = S754_zero false.
Proof.
  destruct x as [s|s| |s m e]; try discriminate; intros _.
  - now destruct s.
  - unfold JS.sub. cbn [SFsub].
    match goal with |- binary_normalize _ _ ?z _ _ = _ =>
      replace z with 0 by (destruct s; cbn [cond_Zopp negb]; lia)
    end.
    reflexivity.
Qed.

(** X15.  Adding or subtracting the zero duration gives a duration equal
    to the first, and subtracting a duration from itself gives a zero
    duration, but for the values that arithmetic cannot bring back: [NaN]
    in the first case, [NaN] and the infinities in the second. *)
Theorem zero_neutral (a : Duration.t) :
  Duration.eq (Duration.add a (Duration.Factory.ms (of_Z 0))) a
  = negb (is_nan (Duration.ms a))
  /\ Duration.eq (Duration.sub a (Duration.Factory.ms (of_Z 0))) a
     = negb (is_nan (Duration.ms a))
  /\ Duration.isZero (Duration.sub a a) = is_finite (Duration.ms a).
Proof.
  destruct a as [x].
  unfold Duration.eq, Duration.add, Duration.sub, Duration.isZero, Duration.ms,
    Duration.Factory.ms.
  cbn [Duration.milliseconds]. change (of_Z 0) with (S754_zero false).
  split; [|split].
  - destruct x as [s|s| |s m e]; try reflexivity; try (now destruct s).
    apply (strict_eq_refl (S754_finite s m e) eq_refl).
  - destruct x as [s|s| |s m e]; try reflexivity; try (now destruct s).
    apply (strict_eq_refl (S754_finite s m e) eq_refl).
  - destruct (is_finite x) eqn:E; [now rewrite sub_self|].
    destruct x as [s|s| |s m e]; try discriminate; try reflexivity.
    now destruct s.
Qed.

(** X16.  [abs] gives a duration that is not below zero and that [abs]
    leaves as it is; it is zero exactly when the duration is; and it is
    equal to the duration exactly when the duration is zero or above. *)
Theorem abs_properties (a : Duration.t) :
  Duration.abs (Duration.abs a) = Duration.abs a
  /\ Duration.lt (Duration.abs a) (Duration.Factory.ms (of_Z 0)) = false
  /\ Duration.isZero (Duration.abs a) = Duration.isZero a
  /\ Duration.eq (Duration.abs a) a
     = Duration.gte a (Duration.Factory.ms (of_Z 0)).
Proof.
  destruct a as [x].
  unfold Duration.abs, Duration.lt, Duration.isZero, Duration.eq, Duration.gte,
    Duration.ms, Duration.Factory.ms, Math.abs.
  cbn [Duration.milliseconds]. change (of_Z 0) with (S754_zero false).
  destruct x as [s|s| |s m e]; repeat split; try (now destruct s).
  cbn [SFabs]. destruct s; [reflexivity|].
  apply (strict_eq_refl (S754_finite false m e) eq_refl).
Qed.

(** X17.  On whole numbers of milliseconds, as long as the operands and
    the result stay below [2 ^ 53] in magnitude, [add], [sub], [mul] by a
    positive integer and [div] by a positive integer that divides the value
    are exact. *)
Theorem integer_arithmetic_exact (x y : Z) (k : positive) :
  Exact.small x -> Exact.small y ->
  Exact.small (x + y) -> Exact.small (x - y) ->
  Zpos k < 2 ^ 53 -> Exact.small (x * Zpos k) ->
  let a := Duration.Factory.ms (of_Z x) in
  let b := Duration.Factory.ms (of_Z y) in
  Duration.add a b = Duration.Factory.ms (of_Z (x + y))
  /\ Duration.sub a b = Duration.Factory.ms (of_Z (x - y))
  /\ Duration.mul a (of_Z (Zpos k)) = Duration.Factory.ms (of_Z (x * Zpos k))
  /\ Duration.div (Duration.Factory.ms (of_Z (x * Zpos k))) (of_Z (Zpos k))
     = Duration.Ok a.
Proof.
  intros Hx Hy Hadd Hsub Hk Hmul.
  unfold Duration.add, Duration.sub, Duration.mul, Duration.div, Duration.ms,
    Duration.Factory.ms.
  cbn [Duration.milliseconds].
  rewrite add_of_Z, sub_of_Z, mul_of_Z, div_of_Z by assumption.
  rewrite strict_eq_of_Z by (unfold Exact.small; lia).
  repeat split.
Qed.

Lemma integer_arithmetic_exact_witness :
  Duration.add (Duration.Factory.ms (of_Z 5400000))
    (Duration.Factory.ms (of_Z (-1800000)))
  = Duration.Factory.ms (of_Z (5400000 + -1800000)).
Proof.
  refine (proj1 (integer_arithmetic_exact 5400000 (-1800000) 3 _ _ _ _ _ _));
    unfold Exact.small; lia.
Defined.

(** X18.  A factory on an integer gives exactly that many times the
    ratio of the unit in milliseconds, and the accessor of the unit, called
    without options, gives the whole count back from such a multiple, as
    long as the multiple is below [2 ^ 53] in magnitude. *)
Theorem factory_accessor_integers (u : Spec.unit_name) (k : Z) :
  Exact.small (k * Spec.ratio u) ->
  Spec.factory u (of_Z k) = Duration.Factory.ms (of_Z (k * Spec.ratio u))
  /\ Spec.accessor u (Duration.Factory.ms (of_Z (k * Spec.ratio u))) = of_Z k.
Proof.
  intros Hk. destruct unit_constants as (H1 & H2 & H3 & H4 & H5 & H6 & H7).
  destruct u; cbn [Spec.factory Spec.accessor Spec.ratio] in *;
    unfold Duration.Factory.secs, Duration.Factory.mins, Duration.Factory.hrs,
      Duration.Factory.days, Duration.Factory.weeks, Duration.Factory.months,
      Duration.Factory.years, Duration.Factory.ms, Duration.secs,
      Duration.mins, Duration.hrs, Duration.days, Duration.weeks,
      Duration.months, Duration.years, Duration.ms, Duration.convert,
      Duration.round;
    cbn [Duration.milliseconds Duration.default Duration.precision
         Duration.no_conversion_options];
    rewrite ?H1, ?H2, ?H3, ?H4, ?H5, ?H6, ?H7;
    try (rewrite mul_of_Z, div_of_Z by (assumption || reflexivity);
         split; reflexivity).
  rewrite Z.mul_1_r. split; reflexivity.
Qed.

Lemma factory_accessor_integers_witness :
  Spec.factory Spec.hrs (of_Z 2) = Duration.Factory.ms (of_Z (2 * 3600000)).
Proof.
  refine (proj1 (factory_accessor_integers Spec.hrs 2 _)).
  unfold Exact.small. cbn. lia.
Defined.

(** ** Conversion to whole units *)

(** The quotient of two positive integers of at most 53 binary digits is a
    normal number. *)
Lemma div_canon_normal (pa pb : positive) :
  Zpos (digits2_pos pa) <= 53 -> Zpos (digits2_pos pb) <= 53 ->
  exists M E,
    JS.div (Exact.canon false pa) (Exact.canon false pb)
    = S754_finite false M E
    /\ Zpos (digits2_pos M) = 53 /\ -106 <= E <= 54.
Proof.
  intros Ha Hb.
  unfold JS.div, Exact.canon. cbn [SFdiv]. unfold SFdiv_core_binary.
  cbn [Zdigits2]. rewrite (canon_digits pa Ha), (canon_digits pb Hb).
  pose proof (canon_value pa Ha) as Va. pose proof (canon_value pb Hb) as Vb.
  pose proof (digits_bounds pa) as Ba. pose proof (digits_bounds pb) as Bb.
  set (da := Zpos (digits2_pos pa)) in *. set (db := Zpos (digits2_pos pb)) in *.
  assert (1 <= da) by (unfold da; lia). assert (1 <= db) by (unfold db; lia).
  replace (53 + (da - prec) - (53 + (db - prec))) with (da - db) by lia.
  rewrite fexp_normal by lia.
  replace (Z.min (da - db - 53) (da - prec - (db - prec))) with (da - db - 53)
    by (unfold prec; lia).
  replace (da - prec - (db - prec) - (da - db - 53)) with 53
    by (unfold prec; lia).
  rewrite Z.shiftl_mul_pow2 by lia. rewrite Va, Vb.
  set (F := 53 + db - da). set (a := Zpos pa) in *. set (b := Zpos pb) in *.
  assert (HF : 1 <= F) by (unfold F; lia).
  assert (Hc : 0 < 2 ^ (53 - db)) by (apply Z.pow_pos_nonneg; lia).
  assert (HpF : 0 < 2 ^ F) by (apply Z.pow_pos_nonneg; lia).
  replace (a * 2 ^ (53 - da) * 2 ^ 53) with (a * 2 ^ F * 2 ^ (53 - db)).
  2:{ rewrite <- !Z.mul_assoc. f_equal. rewrite <- !Z.pow_add_r by lia.
      f_equal. unfold F. lia. }
  rewrite div_eucl_div_mod, Z.div_mul_cancel_r by lia.
  assert (Hlo : 2 ^ 52 * b <= a * 2 ^ F).
  { assert (E1 : 2 ^ (da - 1) * 2 ^ F = 2 ^ 52 * 2 ^ db)
      by (rewrite <- !Z.pow_add_r by lia; f_equal; unfold F; lia).
    nia. }
  assert (Hhi : a * 2 ^ F < 2 ^ 54 * b).
  { assert (E1 : 2 ^ da * 2 ^ F = 2 ^ 54 * 2 ^ (db - 1))
      by (rewrite <- !Z.pow_add_r by lia; f_equal; unfold F; lia).
    nia. }
  assert (Hq : 2 ^ 52 <= a * 2 ^ F / b < 2 ^ 54).
  { split.
    - apply Z.div_le_lower_bound; lia.
    - apply Z.div_lt_upper_bound; lia. }
  destruct (a * 2 ^ F / b) as [|pq|pq] eqn:Eq; try lia.
  set (sh := if Zpos pq <? 2 ^ 53 then 0 else 1).
  assert (Hsh : (sh = 0 \/ sh = 1) /\ Zpos (digits2_pos pq) = 53 + sh
                /\ Zpos pq / 2 ^ sh < 2 ^ 53).
  { unfold sh. destruct (Z.ltb_spec (Zpos pq) (2 ^ 53)).
    - split; auto. split.
      + apply digits_unique. change (53 + 0 - 1) with 52. lia.
      + change (2 ^ 0) with 1. rewrite Z.div_1_r. lia.
    - split; auto. split.
      + apply digits_unique. change (53 + 1 - 1) with 53.
        change (53 + 1) with 54. lia.
      + apply Z.div_lt_upper_bound; [reflexivity|].
        change (2 ^ 1 * 2 ^ 53) with (2 ^ 54). lia. }
  destruct Hsh as (Hsh & Hd & Hqs).
  destruct (binary_round_aux_near pq (da - db - 53) sh
              (new_location (b * 2 ^ (53 - db))
                 ((a * 2 ^ F * 2 ^ (53 - db)) mod (b * 2 ^ (53 - db))))
              Hsh Hd)
    as (M & E & up & HR & HD & HE & HM & Hup); try lia.
  cbn [xorb]. rewrite HR. exists M, E. split; [reflexivity|].
  split; [exact HD|]. split; [lia|].
  pose proof (digits_bounds M) as BM. rewrite HD in BM.
  change (53 - 1) with 52 in BM.
  destruct (Z.le_gt_cases (E - (da - db - 53 + sh)) 1) as [|Hbig]; [lia|].
  exfalso.
  assert (2 ^ 2 <= 2 ^ (E - (da - db - 53 + sh)))
    by (apply Z.pow_le_mono_r; lia).
  change (2 ^ 2) with 4 in *.
  assert (up <= 1) by (destruct Hup as [->|[(-> & _)|(-> & _)]]; lia).
  nia.
Qed.

(** Times one, a normal number is itself. *)
Lemma mul_one_normal (s : bool) (M : positive) (E : Z) :
  Zpos (digits2_pos M) = 53 -> -1022 <= E <= 971 ->
  JS.mul (S754_finite s M E) (of_Z 1) = S754_finite s M E.
Proof.
  intros HD HE. change (of_Z 1) with (S754_finite false 4503599627370496 (-52)).
  unfold JS.mul. cbn [SFmul]. rewrite xorb_false_r.
  replace (E + -52) with (E - 52) by lia.
  replace (S754_finite s M E) with (S754_finite s M (E - 52 + 52))
    by (f_equal; lia).
  apply binary_round_aux_exact; lia.
Qed.

(** X19.  Converted with [precision: 0] and [rounding: "floor"], a whole
    number of milliseconds from zero to below [2 ^ 53] gives the whole
    number of units that it holds: the quotient of the integer division by
    the ratio of the unit. *)
Theorem convert_floor_whole_units (n : Z) (r : positive) :
  0 <= n < 2 ^ 53 -> Zpos r < 2 ^ 53 ->
  Duration.convert (Duration.Factory.ms (of_Z n)) (of_Z (Zpos r))
    (Some {| Duration.precision := Some 0%N;
             Duration.rounding := Some Duration.RoundingMode.floor |})
  = of_Z (n / Zpos r).
Proof.
  intros Hn Hr.
  unfold Duration.convert, Duration.round, Duration.Factory.ms.
  cbn [Duration.milliseconds Duration.default Duration.precision
       Duration.rounding].
  change (pow10 0) with (of_Z 1).
  assert (Hq : 0 <= n / Zpos r < 2 ^ 53).
  { split; [apply Z.div_pos; lia|].
    apply Z.div_lt_upper_bound; [lia|]. nia. }
  assert (Hmul : JS.mul (JS.div (of_Z n) (of_Z (Zpos r))) (of_Z 1)
                 = JS.div (of_Z n) (of_Z (Zpos r))).
  { pose proof (proj1 (digits_small r) Hr) as Dr. rewrite (of_Z_pos r Dr).
    destruct n as [|p|p]; try lia; [reflexivity|].
    assert (Dp : Zpos (digits2_pos p) <= 53) by (apply digits_small; lia).
    rewrite (of_Z_pos p Dp).
    destruct (div_canon_normal p r Dp Dr) as (M & E & -> & HD & HE).
    apply mul_one_normal; [exact HD|lia]. }
  rewrite Hmul, floor_div_of_Z by assumption.
  replace (n / Zpos r) with (n / Zpos r * 1) at 1 by lia.
  apply (div_of_Z (n / Zpos r) 1); [reflexivity|unfold Exact.small; lia].
Qed.

Lemma convert_floor_whole_units_witness :
  Duration.secs (Duration.Factory.ms (of_Z 5999))
    (Some {| Duration.precision := Some 0%N;
             Duration.rounding := Some Duration.RoundingMode.floor |})
  = of_Z (5999 / 1000).
Proof.
  apply (convert_floor_whole_units 5999 1000); [lia|reflexivity].
Defined.

(** ** The text of [format] is empty for [NaN] only *)

Lemma whole_counts_none (units : list (jsstring * number)) :
  forall m : number,
  filter (fun c => JS.gt (fst c) (of_Z 0)) (fst (Spec.whole_counts units m)) = []
  -> snd (Spec.whole_counts units m) = m.
Proof.
  induction units as [|[l r] units IH]; intros m; [reflexivity|].
  cbn [Spec.whole_counts].
  destruct (JS.gt (Math.floor (JS.div m r)) (of_Z 0)) eqn:E.
  - destruct (Spec.whole_counts units _) as [counts left].
    cbn [fst snd filter]. rewrite E. discriminate.
  - specialize (IH m). destruct (Spec.whole_counts units m) as [counts left].
    cbn [fst snd filter] in *. rewrite E. exact IH.
Qed.

Lemma whole_counts_labels (units : list (jsstring * number)) :
  forall m : number,
  map snd (fst (Spec.whole_counts units m)) = map fst units.
Proof.
  induction units as [|[l r] units IH]; intros m; [reflexivity|].
  cbn [Spec.whole_counts].
  match goal with |- context [Spec.whole_counts units ?m'] =>
    specialize (IH m'); destruct (Spec.whole_counts units m') as [counts left]
  end.
  cbn [fst snd map] in *. now rewrite IH.
Qed.

Lemma segments_nonempty (m : number) :
  JS.gt m (of_Z 0) = true ->
  exists p ps, Spec.segments m = p :: ps /\ p <> [].
Proof.
  intros Hm. unfold Spec.segments.
  pose proof (whole_counts_none Spec.larger_units m) as Hnone.
  pose proof (whole_counts_labels Spec.larger_units m) as Hlab.
  destruct (Spec.whole_counts Spec.larger_units m) as [counts left].
  cbn [fst snd] in *.
  pose proof (fun c => proj1 (filter_In (fun c : number * jsstring =>
                                          JS.gt (fst c) (of_Z 0)) c counts))
    as Hf.
  destruct (filter _ counts) as [|c cs] eqn:Ef.
  - rewrite (Hnone eq_refl), Hm. cbn [map app]. eexists _, _.
    split; [reflexivity|]. intros E. apply app_eq_nil in E.
    destruct E as [_ E]. discriminate E.
  - cbn [map app]. eexists _, _. split; [reflexivity|].
    intros E. apply app_eq_nil in E. destruct E as [_ E].
    destruct (Hf c (or_introl eq_refl)) as [Hin _].
    apply (in_map snd) in Hin. rewrite Hlab in Hin.
    destruct c as [v l]. cbn [snd] in *. subst l.
    unfold Spec.larger_units in Hin. cbn [map fst In] in Hin.
    repeat (destruct Hin as [Hin|Hin]; [discriminate Hin|]). exact Hin.
Qed.

Lemma gt_abs_positive (x : number) :
  is_nan x = false -> strict_eq x (of_Z 0) = false ->
  JS.gt (Math.abs x) (of_Z 0) = true.
Proof.
  change (of_Z 0) with (S754_zero false).
  destruct x as [s|s| |s m e]; try discriminate; reflexivity.
Qed.

Lemma format_nonempty (x : number) :
  is_nan x = false -> Duration.format (Duration.Build x) <> [].
Proof.
  intros En. rewrite format_refines. unfold Spec.format, Duration.ms.
  cbn [Duration.milliseconds].
  pose proof (gt_abs_positive x En) as Hpos.
  destruct (strict_eq x (of_Z 0)); [discriminate|].
  destruct (JS.lt x (of_Z 0)); [discriminate|]. cbn [app].
  destruct (segments_nonempty (Math.abs x) (Hpos eq_refl))
    as (p & ps & E & Hp).
  rewrite E, join_cons. intros H. apply app_eq_nil in H.
  destruct H as [H _]. exact (Hp H).
Qed.

(** X20.  [format] returns the empty string for the durations of [NaN]
    and for no other: every duration of a number has a text. *)
Theorem format_empty_iff_nan (d : Duration.t) :
  Duration.format d = [] <-> is_nan (Duration.ms d) = true.
Proof.
  destruct d as [x]. unfold Duration.ms. cbn [Duration.milliseconds]. split.
  - destruct (is_nan x) eqn:En; [reflexivity|]. intros H.
    now apply format_nonempty in H.
  - destruct x as [s|s| |s m e]; intros H; try discriminate H.
    vm_compute. reflexivity.
Qed.

(** ** Reading back a segment of months *)

Lemma of_Z_injective (a b : Z) :
  Exact.small a -> Exact.small b -> of_Z a = of_Z b -> a = b.
Proof.
  intros Ha Hb E. pose proof (compare_of_Z a b Ha Hb) as H.
  rewrite E, (compare_of_Z b b Hb Hb), Z.compare_refl in H.
  injection H as H. symmetry in H. now apply Z.compare_eq in H.
Qed.

(** X21.  [parse] does not read back what [format] writes when there is
    a segment for the months (for a whole number of milliseconds under a
    thousand years): the label of the month is read as that of the minute.
    The call throws unless partial input is allowed, and then, outside
    strict mode, it returns a duration in which every month counts for a
    minute. *)
Theorem parse_format_month_segment (n : Z) (options : Duration.ParseOptions) :
  0 <= n < 1000 * 31536000000 ->
  2592000000 <= n mod 31536000000 ->
  let text := Duration.format (Duration.Factory.ms (of_Z n)) in
  let mo := n mod 31536000000 / 2592000000 in
  Duration.parse text options <> Duration.Ok (Duration.Factory.ms (of_Z n))
  /\ (Duration.default false (Duration.allowPartial options) = false ->
      exists e, Duration.parse text options = Duration.Throw e)
  /\ (Duration.default true (Duration.strict options) = false ->
      Duration.default false (Duration.allowPartial options) = true ->
      Duration.parse text options
      = Duration.Ok (Duration.Factory.ms
                       (of_Z (n - mo * (2592000000 - 60000))))).
Proof.
  intros Hn Hmo. cbv zeta.
  pose proof (Z.mod_pos_bound n 31536000000 ltac:(lia)) as Hmod.
  assert (Hpos : 0 < n).
  { destruct (Z.eq_dec n 0) as [->|]; [|lia].
    rewrite Z.mod_0_l in Hmo by lia. lia. }
  assert (H1 : 1 <= n mod 31536000000 / 2592000000)
    by (apply Z.div_le_lower_bound; lia).
  assert (H12 : n mod 31536000000 / 2592000000 <= 12)
    by (apply Z.lt_succ_r, Z.div_lt_upper_bound; lia).
  assert (Hle : n mod 31536000000 / 2592000000 * 2592000000 <= n).
  { pose proof (Z.mul_div_le (n mod 31536000000) 2592000000 ltac:(lia)).
    pose proof (Z.mod_le n 31536000000 ltac:(lia) ltac:(lia)). lia. }
  rewrite parse_phases, format_of_Z by lia.
  destruct (Z.ltb_spec n 0); [lia|]. rewrite Z.abs_eq by lia. cbn [app].
  destruct (scan_formatted n ltac:(lia)) as (Hb & Hne & Hr & Hs & _).
  cbv zeta in Hb, Hne, Hr, Hs.
  set (mo := n mod 31536000000 / 2592000000) in *.
  destruct (Z.eqb_spec mo 0) as [E0|_]; [lia|].
  unfold Spec.parse. cbv zeta. rewrite Hb, Hr, Hs. cbn [negb].
  rewrite andb_true_r.
  destruct (Spec.matched_units _) as [|u units] eqn:Eu; [contradiction|].
  assert (Hneq : Duration.Ok (Duration.Build (of_Z (n - mo * (2592000000 - 60000))))
                 <> Duration.Ok (Duration.Factory.ms (of_Z n))).
  { intros E. injection E as E.
    apply of_Z_injective in E; unfold Exact.small; lia. }
  destruct (Duration.default true (Duration.strict options)),
           (Duration.default false (Duration.allowPartial options));
    cbn [negb]; repeat split; try discriminate; try (intros; discriminate);
    try (destruct (Spec.first_duplicate [] (u :: units)); eauto;
         try discriminate; exact Hneq);
    eauto.
Qed.

Lemma parse_format_month_segment_witness :
  exists e,
    Duration.parse (Duration.format (Duration.Factory.ms (of_Z 2592000000)))
      Duration.no_parse_options
    = Duration.Throw e.
Proof.
  refine (proj1 (proj2 (parse_format_month_segment 2592000000
                          Duration.no_parse_options _ _)) _);
    [lia|vm_compute; discriminate|reflexivity].
Defined.

(** ** The case of the letters *)

Section CaseBlind.
Context {R R' : Type} (f : R -> R').

Lemma star_lower (p : code_unit -> bool) (k : jsstring -> option R)
    (k' : jsstring -> option R') :
  (forall c, p (lower c) = p c) ->
  (forall s1, k' (toLowerCase s1) = option_map f (k s1)) ->
  forall s, Regex.star p (toLowerCase s) k' = option_map f (Regex.star p s k).
Proof.
  intros Hp Hk. induction s as [|x s IH]; [apply (Hk [])|].
  cbn [toLowerCase map Regex.star]. rewrite Hp.
  destruct (p x); [|apply (Hk (x :: s))].
  fold (toLowerCase s). rewrite IH.
  destruct (Regex.star p s k); [reflexivity|apply (Hk (x :: s))].
Qed.

End CaseBlind.

Lemma firstn_lower (s s1 : jsstring) :
  firstn (List.length (toLowerCase s) - List.length (toLowerCase s1))
    (toLowerCase s)
  = toLowerCase (firstn (List.length s - List.length s1) s).
Proof. unfold toLowerCase. now rewrite !length_map, firstn_map. Qed.

Lemma run_lower (r : Regex.regex) :
  Spec.case_blind r ->
  forall (R R' : Type) (f : R -> R') (s : jsstring) (c : Regex.captures)
         (k : jsstring -> Regex.captures -> option R)
         (k' : jsstring -> Regex.captures -> option R'),
  (forall s1 c1,
     k' (toLowerCase s1) (Spec.lower_captures c1) = option_map f (k s1 c1)) ->
  Regex.run r (toLowerCase s) (Spec.lower_captures c) k'
  = option_map f (Regex.run r s c k).
Proof.
  induction r as [|p|a IHa b IHb|a IHa b IHb|p|a IHa|i a IHa];
    intros Hb R R' f s c k k' Hk; cbn [Regex.run Spec.case_blind] in *.
  - apply Hk.
  - destruct s as [|x s]; [reflexivity|]. cbn [toLowerCase map].
    rewrite Hb. destruct (p x); [apply Hk|reflexivity].
  - destruct Hb as [Ha Hb]. apply (IHa Ha). intros s1 c1.
    now apply (IHb Hb).
  - destruct Hb as [Ha Hb]. rewrite (IHa Ha R R' f s c k k' Hk).
    destruct (Regex.run a s c k); [reflexivity|]. now apply (IHb Hb).
  - apply (star_lower f); [exact Hb|]. intros s1. apply Hk.
  - rewrite (IHa Hb R R' f s c k k' Hk).
    destruct (Regex.run a s c k); [reflexivity|]. apply Hk.
  - apply (IHa Hb). intros s1 c1. rewrite firstn_lower.
    apply (Hk s1 ((i, _) :: c1)).
Qed.

Lemma exec_lower (r : Regex.regex) (s : jsstring) :
  Spec.case_blind r ->
  Regex.exec r (toLowerCase s)
  = option_map (fun rc => (toLowerCase (fst rc), Spec.lower_captures (snd rc)))
      (Regex.exec r s).
Proof.
  intros Hb. unfold Regex.exec.
  apply (run_lower r Hb _ _
           (fun rc => (toLowerCase (fst rc), Spec.lower_captures (snd rc)))
           s []).
  reflexivity.
Qed.

Lemma pieces_from_lower (r : Regex.regex) :
  Spec.case_blind r ->
  forall (s : jsstring) (skip : nat),
  Regex.pieces_from r skip (toLowerCase s)
  = map Spec.lower_piece (Regex.pieces_from r skip s).
Proof.
  intros Hb. induction s as [|x s IH]; intros skip.
  - cbn [toLowerCase map Regex.pieces_from].
    pose proof (exec_lower r [] Hb) as E. cbn [toLowerCase map] in E.
    destruct skip; [|reflexivity].
    destruct (Regex.exec r []) as [[rest c]|]; [|reflexivity].
    injection E as _ Ec. cbn [map Spec.lower_piece]. now rewrite <- Ec.
  - cbn [toLowerCase map Regex.pieces_from]. fold (toLowerCase s).
    destruct skip as [|n]; [|apply IH].
    pose proof (exec_lower r (x :: s) Hb) as E. cbn [toLowerCase map] in E.
    fold (toLowerCase s) in E. rewrite E.
    destruct (Regex.exec r (x :: s)) as [[rest c]|]; cbn [option_map fst snd].
    + replace (List.length (lower x :: toLowerCase s)
               - List.length (toLowerCase rest))%nat
        with (List.length (x :: s) - List.length rest)%nat
        by (unfold toLowerCase; cbn [List.length]; now rewrite !length_map).
      destruct (List.length (x :: s) - List.length rest)%nat;
        cbn [map Spec.lower_piece]; now rewrite IH.
    + cbn [map Spec.lower_piece]. now rewrite IH.
Qed.

Lemma lower_tests (c : code_unit) :
  is_digit (lower c) = is_digit c /\ is_space (lower c) = is_space c
  /\ canonicalize (lower c) = canonicalize c /\ lower (lower c) = lower c.
Proof.
  assert (Hl : lower c = c \/ ((65 <= c <= 90)%N /\ lower c = (c + 32)%N)).
  { unfold lower. destruct (N.leb_spec 65 c), (N.leb_spec c 90); auto. }
  destruct Hl as [E|[Hc E]]; rewrite !E; [repeat split; reflexivity|].
  unfold is_digit, is_space, canonicalize, lower.
  repeat match goal with
  | |- context [(?a <=? ?b)%N] => destruct (N.leb_spec a b); try lia
  | |- context [(?a =? ?b)%N] => destruct (N.eqb_spec a b); try lia
  end; cbn [andb orb]; repeat split; lia.
Qed.

Lemma PARSE_REGEX_case_blind : Spec.case_blind Duration.PARSE_REGEX.
Proof.
  unfold Duration.PARSE_REGEX, Regex.Plus.
  cbn [Spec.case_blind Regex.word_i Regex.chr_i].
  repeat split; intros c; try apply lower_tests;
    now rewrite (proj1 (proj2 (proj2 (lower_tests c)))).
Qed.

Lemma group_lower (i : nat) (c : Regex.captures) :
  Duration.group i (Spec.lower_captures c) = toLowerCase (Duration.group i c).
Proof.
  unfold Duration.group. induction c as [|[j w] c IH]; [reflexivity|].
  cbn [Spec.lower_captures map Regex.capture fst snd].
  destruct (Nat.eqb i j); [reflexivity|exact IH].
Qed.

Lemma toLowerCase_idempotent (s : jsstring) :
  toLowerCase (toLowerCase s) = toLowerCase s.
Proof.
  unfold toLowerCase. rewrite map_map. apply map_ext. intros c.
  apply lower_tests.
Qed.

Lemma matched_units_lower (ps : list Regex.piece) :
  Spec.matched_units (map Spec.lower_piece ps) = Spec.matched_units ps.
Proof.
  induction ps as [|[x|c] ps IH]; [reflexivity|exact IH|].
  cbn [map Spec.lower_piece Spec.matched_units].
  now rewrite group_lower, toLowerCase_idempotent, IH.
Qed.

Lemma replaced_lower (ps : list Regex.piece) :
  Spec.replaced (map Spec.lower_piece ps) = toLowerCase (Spec.replaced ps).
Proof.
  induction ps as [|[x|c] ps IH]; [reflexivity| |];
    cbn [map Spec.lower_piece Spec.replaced]; rewrite IH; reflexivity.
Qed.

Lemma blank_lower (s : jsstring) :
  forallb is_space (toLowerCase s) = forallb is_space s.
Proof.
  induction s as [|c s IH]; [reflexivity|]. cbn [toLowerCase map forallb].
  fold (toLowerCase s). now rewrite IH, (proj1 (proj2 (lower_tests c))).
Qed.

Lemma trimStart_lower (s : jsstring) :
  trimStart (toLowerCase s) = toLowerCase (trimStart s).
Proof.
  induction s as [|c s IH]; [reflexivity|]. cbn [toLowerCase map trimStart].
  rewrite (proj1 (proj2 (lower_tests c))). fold (toLowerCase s).
  destruct (is_space c); [exact IH|reflexivity].
Qed.

Lemma trim_lower (s : jsstring) : trim (toLowerCase s) = toLowerCase (trim s).
Proof.
  unfold trim, trimEnd. rewrite trimStart_lower.
  unfold toLowerCase at 1. rewrite <- map_rev. fold (toLowerCase (rev (trimStart s))).
  rewrite trimStart_lower. unfold toLowerCase. now rewrite map_rev.
Qed.

Lemma digits_number_chars (l : jsstring) :
  forallb is_digit l = true ->
  forallb (fun x => is_digit x || (x =? 46)%N) l = true.
Proof.
  rewrite !forallb_forall. intros H x Hx. now rewrite (H x Hx).
Qed.

Lemma point_only (x : code_unit) :
  (canonicalize x =? canonicalize (cu "."))%N = true -> (x =? 46)%N = true.
Proof.
  rewrite !N.eqb_eq. unfold canonicalize. cbn.
  destruct (N.leb_spec 97 x), (N.leb_spec x 122); cbn; lia.
Qed.

(** The number of a match is made of digits and points. *)
Lemma PARSE_REGEX_number (w : jsstring) (c : Regex.captures) :
  Regex.Matches Duration.PARSE_REGEX w [] c ->
  forallb (fun x => is_digit x || (x =? 46)%N) (Duration.group 1 c) = true.
Proof.
  unfold Duration.PARSE_REGEX, Regex.Plus. intros H.
  inversion H as [| |a b w1 w2' c0 c1 c2 Hnum Hrest| | | | | |]; subst; clear H.
  inversion Hnum as [| | | | | | | |i a w1' c0 c1' Hdig]; subst; clear Hnum.
  inversion Hrest as [| |a b wsp w2 c0 c1 c2 Hsp Hunit| | | | | |]; subst;
    clear Hrest.
  inversion Hsp; subst; clear Hsp.
  inversion Hunit as [| | | | | | | |i a w2' c0 c1 Halt]; subst; clear Hunit.
  assert (Hg : Duration.group 1 ((2%nat, w2) :: c1) = w1).
  { clear Hdig. unfold Regex.word_i, Regex.chr_i in Halt.
    invert_matches; reflexivity. }
  rewrite Hg. clear Hg Halt.
  unfold Regex.chr_i in Hdig. invert_matches;
    repeat rewrite forallb_app; cbn [forallb];
    repeat match goal with
    | H : is_digit ?x = true |- _ => rewrite H; clear H
    | H : forallb is_digit ?l = true |- _ =>
        rewrite (digits_number_chars l H); clear H
    | H : (canonicalize _ =? canonicalize _)%N = true |- _ =>
        rewrite (point_only _ H); clear H
    end; cbn [orb andb]; rewrite ?orb_true_r; reflexivity.
Qed.

Lemma lower_number_chars (w : jsstring) :
  forallb (fun x => is_digit x || (x =? 46)%N) w = true -> toLowerCase w = w.
Proof.
  induction w as [|x w IH]; [reflexivity|]. cbn [forallb toLowerCase map].
  intros H. apply andb_true_iff in H. destruct H as [Hx Hw].
  fold (toLowerCase w). rewrite (IH Hw). f_equal.
  unfold lower, is_digit in *.
  destruct (N.leb_spec 65 x), (N.leb_spec x 90); try reflexivity.
  exfalso. apply orb_true_iff in Hx. destruct Hx as [Hx|Hx].
  - apply andb_true_iff in Hx. destruct Hx as [_ Hx]. apply N.leb_le in Hx. lia.
  - apply N.eqb_eq in Hx. lia.
Qed.

Lemma sum_tokens_lower (ps : list Regex.piece) :
  (forall c, In (Regex.Match c) ps ->
             toLowerCase (Duration.group 1 c) = Duration.group 1 c) ->
  forall T, Spec.sum_tokens (map Spec.lower_piece ps) T = Spec.sum_tokens ps T.
Proof.
  induction ps as [|[x|c] ps IH]; intros H T; [reflexivity| |].
  - apply IH. intros c Hc. apply H. now right.
  - cbn [map Spec.lower_piece Spec.sum_tokens].
    rewrite IH by (intros c' Hc; apply H; now right). f_equal. f_equal.
    unfold Spec.token_milliseconds.
    now rewrite !group_lower, toLowerCase_idempotent, (H c (or_introl eq_refl)).
Qed.

(** X22.  [parse] does not tell an ASCII letter from its lower-case
    form: on the input with its ASCII letters in lower case it returns the
    same duration or throws the same error, the text shown by the error of
    the text left over being in lower case as well. *)
Theorem parse_ignores_case (input : jsstring) (options : Duration.ParseOptions) :
  Duration.parse (map lower input) options
  = match Duration.parse input options with
    | Duration.Throw (Duration.UnexpectedTrailingInput r) =>
        Duration.Throw (Duration.UnexpectedTrailingInput (map lower r))
    | result => result
    end.
Proof.
  change (map lower input) with (toLowerCase input).
  rewrite !parse_phases. unfold Spec.parse. cbv zeta.
  unfold Regex.pieces.
  rewrite (pieces_from_lower _ PARSE_REGEX_case_blind), blank_lower,
    matched_units_lower, replaced_lower, blank_lower, trim_lower.
  rewrite sum_tokens_lower.
  2:{ intros c Hc. apply lower_number_chars.
      destruct (pieces_from_sound _ _ _ _ Hc) as [w Hw].
      exact (PARSE_REGEX_number w c Hw). }
  destruct (forallb is_space input); [reflexivity|].
  destruct (if Duration.default true (Duration.strict options) then _ else None);
    [reflexivity|].
  destruct (Spec.matched_units _); [reflexivity|].
  now destruct (negb _ && negb _).
Qed.

(** ** White space after the tokens *)

Lemma space_cases (c : code_unit) :
  is_space c = true -> (c <= 32 \/ 160 <= c)%N.
Proof.
  unfold is_space. intros H.
  repeat match type of H with
  | (_ || _)%bool = true => apply orb_true_iff in H; destruct H as [H|H]
  | (_ && _)%bool = true => apply andb_true_iff in H; destruct H as [H ?]
  end;
  repeat match goal with
  | H : (_ =? _)%N = true |- _ => apply N.eqb_eq in H
  | H : (_ <=? _)%N = true |- _ => apply N.leb_le in H
  end; lia.
Qed.

Lemma space_not_char (c a : code_unit) :
  is_space c = true -> (33 <= a <= 122)%N ->
  (canonicalize c =? canonicalize a)%N = false.
Proof.
  intros Hc Ha. apply space_cases in Hc. apply N.eqb_neq.
  unfold canonicalize.
  destruct (N.leb_spec 97 a), (N.leb_spec a 122),
           (N.leb_spec 97 c), (N.leb_spec c 122); cbn [andb]; lia.
Qed.

Lemma PARSE_REGEX_parts :
  Duration.PARSE_REGEX
  = Regex.Seq (Regex.Group 1 Spec.number_pattern)
      (Regex.Seq (Regex.Star is_space) (Regex.Group 2 Spec.unit_pattern)).
Proof. reflexivity. Qed.

Lemma number_pattern_space_free : Spec.space_free Spec.number_pattern.
Proof.
  unfold Spec.number_pattern, Regex.Plus, Regex.chr_i.
  cbn [Spec.space_free]. repeat split; intros c Hc;
    try (now apply is_space_not_digit).
  apply space_not_char; [exact Hc|vm_compute; split; discriminate].
Qed.

Lemma unit_pattern_space_free : Spec.space_free Spec.unit_pattern.
Proof.
  unfold Spec.unit_pattern, Regex.word_i, Regex.chr_i.
  cbn [Spec.space_free]. repeat split; intros c Hc;
    (apply space_not_char; [exact Hc|vm_compute; split; discriminate]).
Qed.

Lemma unit_pattern_blank {R : Type} (w : jsstring) (c : Regex.captures)
    (k : jsstring -> Regex.captures -> option R) :
  forallb is_space w = true -> Regex.run Spec.unit_pattern w c k = None.
Proof.
  intros Hw. destruct w as [|x w]; [reflexivity|].
  cbn [forallb] in Hw. apply andb_true_iff in Hw. destruct Hw as [Hx _].
  unfold Spec.unit_pattern. cbn [Regex.run Regex.word_i Regex.chr_i].
  rewrite !(space_not_char x _ Hx) by (vm_compute; split; discriminate).
  reflexivity.
Qed.

Lemma star_blank_fails {R : Type} (p : code_unit -> bool) (w : jsstring)
    (k : jsstring -> option R) :
  (forall v, forallb is_space v = true -> k v = None) ->
  forallb is_space w = true -> Regex.star p w k = None.
Proof.
  intros Hk. induction w as [|x w IH]; intros Hw; [now apply Hk|].
  cbn [Regex.star]. pose proof Hw as Hw'. cbn [forallb] in Hw'.
  apply andb_true_iff in Hw'. destruct Hw' as [_ Hw'].
  rewrite (IH Hw'), (Hk (x :: w) Hw). now destruct (p x).
Qed.

Lemma firstn_appended (ws s s1 : jsstring) :
  firstn (List.length (s ++ ws) - List.length (s1 ++ ws)) (s ++ ws)
  = firstn (List.length s - List.length s1) s.
Proof.
  rewrite !length_app.
  replace (List.length s + List.length ws - (List.length s1 + List.length ws))%nat
    with (List.length s - List.length s1)%nat by lia.
  rewrite firstn_app.
  replace (List.length s - List.length s1 - List.length s)%nat with 0%nat by lia.
  cbn [firstn]. apply app_nil_r.
Qed.

Section Appended.
Context {R R' : Type} (f : R -> R').
Variable ws : jsstring.
Hypothesis Hws : forallb is_space ws = true.

Lemma appended_head (p : code_unit -> bool) :
  (forall c, is_space c = true -> p c = false) ->
  match ws with [] => True | c :: _ => p c = false end.
Proof.
  intros Hp. destruct ws as [|c t]; [exact I|]. apply Hp.
  cbn [forallb] in Hws. now apply andb_true_iff in Hws.
Qed.

Lemma star_appended (p : code_unit -> bool) (s : jsstring)
    (k : jsstring -> option R) (k' : jsstring -> option R') :
  (forall x, is_space x = true -> p x = false) ->
  (forall s1, k' (s1 ++ ws)%list = option_map f (k s1)) ->
  Regex.star p (s ++ ws)%list k' = option_map f (Regex.star p s k).
Proof.
  intros Hp Hk. induction s as [|x s IH].
  - cbn [app]. rewrite star_stop by (now apply appended_head). apply (Hk []).
  - pose proof (Hk (x :: s)) as Hx. cbn [app Regex.star] in Hx |- *.
    rewrite IH, Hx. destruct (p x); [|reflexivity].
    now destruct (Regex.star p s k).
Qed.

(** White space taken by the star: when what follows the star fails on
    white space, the star sees the same of an input whether white space is
    appended or not. *)
Lemma star_space_appended (s : jsstring)
    (k : jsstring -> option R) (k' : jsstring -> option R') :
  (forall v, forallb is_space v = true -> k' v = None) ->
  (forall s1, k' (s1 ++ ws)%list = option_map f (k s1)) ->
  Regex.star is_space (s ++ ws)%list k' = option_map f (Regex.star is_space s k).
Proof.
  intros Hb Hk. induction s as [|x s IH].
  - cbn [app Regex.star]. rewrite (star_blank_fails _ ws k' Hb Hws).
    rewrite <- (Hk []). symmetry. now apply Hb.
  - pose proof (Hk (x :: s)) as Hx. cbn [app Regex.star] in Hx |- *.
    rewrite IH, Hx. destruct (is_space x); [|reflexivity].
    now destruct (Regex.star is_space s k).
Qed.

(** A pattern that takes no white space sees the same of an input whether
    white space is appended or not. *)
Lemma run_appended (r : Regex.regex) :
  Spec.space_free r ->
  forall (s : jsstring) (c : Regex.captures)
         (k : jsstring -> Regex.captures -> option R)
         (k' : jsstring -> Regex.captures -> option R'),
  (forall s1 c1, k' (s1 ++ ws)%list c1 = option_map f (k s1 c1)) ->
  Regex.run r (s ++ ws)%list c k' = option_map f (Regex.run r s c k).
Proof.
  induction r as [|p|a IHa b IHb|a IHa b IHb|p|a IHa|i a IHa];
    intros Hf s c k k' Hk; cbn [Regex.run Spec.space_free] in *.
  - apply Hk.
  - destruct s as [|x s].
    + cbn [app]. pose proof (appended_head p Hf) as Hh.
      destruct ws; [reflexivity|]. now rewrite Hh.
    + cbn [app Regex.run]. destruct (p x); [apply Hk|reflexivity].
  - destruct Hf as [Ha Hb]. apply (IHa Ha). intros s1 c1. now apply (IHb Hb).
  - destruct Hf as [Ha Hb]. rewrite (IHa Ha s c k k' Hk).
    destruct (Regex.run a s c k); [reflexivity|]. now apply (IHb Hb).
  - apply star_appended; [exact Hf|]. intros s1. apply Hk.
  - rewrite (IHa Hf s c k k' Hk).
    destruct (Regex.run a s c k); [reflexivity|]. apply Hk.
  - apply (IHa Hf). intros s1 c1. rewrite firstn_appended. apply Hk.
Qed.

End Appended.

Lemma exec_appended (ws s : jsstring) :
  forallb is_space ws = true ->
  Regex.exec Duration.PARSE_REGEX (s ++ ws)
  = option_map (fun rc => ((fst rc ++ ws)%list, snd rc))
      (Regex.exec Duration.PARSE_REGEX s).
Proof.
  intros Hws. unfold Regex.exec. rewrite PARSE_REGEX_parts.
  set (ext := fun rc : jsstring * Regex.captures => ((fst rc ++ ws)%list, snd rc)).
  change (Regex.run (Regex.Seq ?a (Regex.Seq (Regex.Star ?p) ?g)) ?s0 ?c ?k)
    with (Regex.run a s0 c
            (fun s1 c1 => Regex.star p s1 (fun s2 => Regex.run g s2 c1 k))).
  apply (run_appended ext ws Hws (Regex.Group 1 Spec.number_pattern)
           number_pattern_space_free).
  intros s1 c1. apply (star_space_appended ext ws Hws).
  - intros v Hv. cbn [Regex.run]. now apply unit_pattern_blank.
  - intros s2.
    apply (run_appended ext ws Hws (Regex.Group 2 Spec.unit_pattern)
             unit_pattern_space_free).
    reflexivity.
Qed.

Lemma pieces_from_appended (ws : jsstring) :
  forallb is_space ws = true ->
  forall (s : jsstring) (skip : nat),
  (skip <= List.length s)%nat ->
  Regex.pieces_from Duration.PARSE_REGEX skip (s ++ ws)
  = (Regex.pieces_from Duration.PARSE_REGEX skip s ++ map Regex.Keep ws)%list.
Proof.
  intros Hws. induction s as [|x s IH]; intros skip Hskip.
  - cbn [List.length] in Hskip. replace skip with 0%nat by lia.
    change (Regex.pieces_from Duration.PARSE_REGEX 0 ?t)
      with (Regex.pieces Duration.PARSE_REGEX t).
    rewrite (pieces_no_digit [] eq_refl). cbn [app map].
    apply pieces_no_digit. apply forallb_forall. intros c Hc.
    rewrite forallb_forall in Hws. now rewrite (is_space_not_digit c (Hws c Hc)).
  - cbn [app Regex.pieces_from]. destruct skip as [|n].
    + pose proof (exec_appended ws (x :: s) Hws) as E. cbn [app] in E.
      rewrite E.
      destruct (Regex.exec Duration.PARSE_REGEX (x :: s)) as [[rest c]|] eqn:Ex;
        cbn [option_map fst snd].
      * destruct (exec_sound _ _ _ _ Ex) as (w & Ew & _).
        assert (Hl : List.length (x :: s) = (List.length w + List.length rest)%nat)
          by (now rewrite Ew, length_app).
        replace (List.length (x :: s ++ ws) - List.length (rest ++ ws))%nat
          with (List.length (x :: s) - List.length rest)%nat
          by (cbn [List.length] in *; rewrite !length_app; lia).
        destruct (List.length (x :: s) - List.length rest)%nat eqn:En;
          cbn [app]; rewrite IH; cbn [List.length] in *; (reflexivity || lia).
      * cbn [app]. now rewrite IH by lia.
    + apply IH. cbn [List.length] in Hskip. lia.
Qed.

Lemma trim_appended (r ws : jsstring) :
  forallb is_space ws = true -> forallb is_space r = false ->
  trim (r ++ ws) = trim r.
Proof.
  intros Hws Hr. unfold trim, trimEnd.
  assert (Hs : trimStart (r ++ ws) = (trimStart r ++ ws)%list).
  { induction r as [|c r IH]; [discriminate Hr|].
    cbn [app trimStart forallb] in *. destruct (is_space c); [|reflexivity].
    now apply IH. }
  rewrite Hs, rev_app_distr.
  now rewrite trimStart_app_blank by (now rewrite forallb_rev).
Qed.

Lemma matched_units_app_keep (ps : list Regex.piece) (ws : jsstring) :
  Spec.matched_units (ps ++ map Regex.Keep ws) = Spec.matched_units ps.
Proof.
  induction ps as [|[x|c] ps IH]; cbn [app Spec.matched_units];
    [apply matched_units_keep|exact IH|now rewrite IH].
Qed.

Lemma replaced_app_keep (ps : list Regex.piece) (ws : jsstring) :
  Spec.replaced (ps ++ map Regex.Keep ws) = (Spec.replaced ps ++ ws)%list.
Proof.
  induction ps as [|[x|c] ps IH]; cbn [app Spec.replaced].
  - induction ws as [|c t IH]; [reflexivity|].
    cbn [map Spec.replaced]. now rewrite IH.
  - now rewrite IH.
  - rewrite IH. apply app_assoc.
Qed.

Lemma sum_tokens_app_keep (ps : list Regex.piece) (ws : jsstring) :
  forall T, Spec.sum_tokens (ps ++ map Regex.Keep ws) T = Spec.sum_tokens ps T.
Proof.
  induction ps as [|[x|c] ps IH]; intros T; cbn [app Spec.sum_tokens];
    [|apply IH|apply IH].
  induction ws as [|c t IH]; [reflexivity|exact IH].
Qed.

Lemma parse_trailing_space (ws input : jsstring)
    (strict allowPartial : bool) :
  forallb is_space ws = true ->
  Spec.parse (input ++ ws) strict allowPartial
  = Spec.parse input strict allowPartial.
Proof.
  intros Hws. unfold Spec.parse, Regex.pieces. cbv zeta.
  rewrite (pieces_from_appended ws Hws input 0) by lia.
  rewrite matched_units_app_keep, replaced_app_keep, sum_tokens_app_keep,
    !forallb_app, Hws, !andb_true_r.
  destruct (forallb is_space input); [reflexivity|].
  destruct (if strict then _ else None); [reflexivity|].
  destruct (Spec.matched_units _); [reflexivity|].
  destruct (forallb is_space (Spec.replaced _)) eqn:Hr;
    [now rewrite !andb_false_r|].
  now rewrite trim_appended.
Qed.

(** X7.  White space before and after the input changes nothing:
    neither the duration, nor the error, nor the text that the error of the
    text left over shows. *)
Theorem parse_surrounding_space (before input after : jsstring)
    (options : Duration.ParseOptions) :
  forallb is_space before = true -> forallb is_space after = true ->
  Duration.parse (before ++ input ++ after) options
  = Duration.parse input options.
Proof.
  intros Hb Ha. rewrite parse_leading_space by exact Hb.
  rewrite !parse_phases. now apply parse_trailing_space.
Qed.

Lemma parse_surrounding_space_witness :
  Duration.parse (js "  " ++ js "1h foo" ++ [10%N]) Duration.no_parse_options
  = Duration.parse (js "1h foo") Duration.no_parse_options.
Proof.
  apply (parse_surrounding_space (js "  ") (js "1h foo") [10%N]
           Duration.no_parse_options); vm_compute; reflexivity.
Defined.
